(** * torchgeometry.core.pinhole: a shallow embedding and its properties

    The module [torchgeometry/core/pinhole.py] defines the class
    [PinholeCamera], its subclass [PinholeCamerasList] and a functional
    API over flat [N x 12] parameter tensors.

    Modelling choices.
    - Scalars are exact rationals [Q]: every statement below is about the
      arithmetic the code asks for, without floating-point rounding.
    - A tensor is its shape and its elements in row-major order.  Tensors
      live in a store and are named by locations, so that sharing
      ([scale] reuses the extrinsics), copying ([clone]) and mutation in
      place ([scale_]) are told apart.
    - A camera is an object of a second store whose four attributes hold
      tensor locations.
    - Python exceptions are values of [exn]; a method is a function from
      the state to a result and the state reached. *)

From Stdlib Require Import QArith Qabs Lqa ZArith String.
From stdpp Require Import base list.

Local Open Scope nat_scope.

(** ** Exceptions and the state-and-error monad *)

(** The payload of the [ValueError]s raised by the validators. *)
Inductive value_error :=
| ShapesMustMatch                                   (* "Arguments shapes must match" *)
| BadParamsShape (data_name : string) (got : list nat) (* "... Bx4x4 or BxNx4x4. Got {1}" *)
| BadBatchShape (data_name : string) (got : list nat). (* "... B. Got {1}" *)

Inductive exn :=
| ValueError (e : value_error)
| IndexError
| RuntimeError
| AssertionError (payload : list nat)   (* [assert cond, shape] *)
| NameError (name : string)
| Dangling.                             (* a reference outside the store: not a Python error *)

Inductive res (A : Type) :=
| Ok (a : A)
| Raise (e : exn).
Arguments Ok {A} a.
Arguments Raise {A} e.

Record tensor := Tensor { shape : list nat; data : list Q }.

(** Locations of tensors and references to camera objects are indices
    into the two components of the state. *)
Abbreviation loc := nat (only parsing).
Abbreviation ref := nat (only parsing).

Inductive klass := PinholeCameraC | PinholeCamerasListC.

(** The attributes set by [__init__] (lines 54-57) and by
    [_initialize_parameters] (lines 368-371). *)
Record camera := Camera {
  cls : klass;
  height : loc;
  width : loc;
  _intrinsics : loc;
  _extrinsics : loc
}.

Record state := State { tensors : list tensor; objects : list camera }.

Definition M (A : Type) : Type := state -> res A * state.

Definition ret {A} (a : A) : M A := fun st => (Ok a, st).
Definition raise {A} (e : exn) : M A := fun st => (Raise e, st).
Definition bind {A B} (m : M A) (k : A -> M B) : M B :=
  fun st => match m st with
            | (Ok a, st') => k a st'
            | (Raise e, st') => (Raise e, st')
            end.
Definition lift {A} (r : res A) : M A := fun st => (r, st).

Notation "x <- c1 ;; c2" := (bind c1 (fun x => c2))
  (at level 100, c1 at next level, right associativity).
Notation "c1 ;; c2" := (bind c1 (fun _ => c2))
  (at level 100, right associativity).

Definition read (l : loc) : M tensor :=
  fun st => match tensors st !! l with
            | Some t => (Ok t, st)
            | None => (Raise Dangling, st)
            end.

Definition write (l : loc) (t : tensor) : M unit :=
  fun st => (Ok tt, State (<[l := t]> (tensors st)) (objects st)).

Definition alloc (t : tensor) : M loc :=
  fun st => (Ok (length (tensors st)), State (tensors st ++ [t]) (objects st)).

Definition getobj (r : ref) : M camera :=
  fun st => match objects st !! r with
            | Some o => (Ok o, st)
            | None => (Raise Dangling, st)
            end.

Definition setobj (r : ref) (o : camera) : M unit :=
  fun st => (Ok tt, State (tensors st) (<[r := o]> (objects st))).

Definition new_obj (o : camera) : M ref :=
  fun st => (Ok (length (objects st)), State (tensors st) (objects st ++ [o])).

(** ** Tensors *)

Definition numel (sh : list nat) : nat := fold_right Nat.mul 1 sh.

Definition tensor_wf (t : tensor) : Prop := length (data t) = numel (shape t).

Definition tabulate (n : nat) (f : nat -> Q) : list Q := map f (seq 0 n).

(** Element [k] of the row-major data. *)
Definition elt (t : tensor) (k : nat) : Q := nth k (data t) 0%Q.

(** [shape[:-2]], [shape[-2]] and [shape[-1]]. *)
Definition split_last2 (sh : list nat) : option (list nat * nat * nat) :=
  match rev sh with
  | c :: r :: b => Some (rev b, r, c)
  | _ => None
  end.

(** Broadcasting, on shapes read from the last dimension backwards.
    [compat_rev s v]: a tensor of shape [s] can be broadcast onto the
    fixed shape [v] (the requirement of an in-place operation). *)
Fixpoint compat_rev (s v : list nat) : bool :=
  match s, v with
  | [], _ => true
  | m :: s', n :: v' => ((m =? n) || (m =? 1)) && compat_rev s' v'
  | _ :: _, [] => false
  end.

(** The row-major position in the source of element [k] of the target. *)
Fixpoint src_index (s v : list nat) (k : nat) : nat :=
  match s, v with
  | m :: s', n :: v' =>
      (if m =? 1 then 0 else k mod n) + m * src_index s' v' (k / n)
  | _, _ => 0
  end.

(** The shape two operands broadcast to, or [None]. *)
Fixpoint bshape_rev (a b : list nat) : option (list nat) :=
  match a, b with
  | [], _ => Some b
  | _, [] => Some a
  | m :: a', n :: b' =>
      match bshape_rev a' b' with
      | None => None
      | Some r =>
          if m =? n then Some (m :: r)
          else if m =? 1 then Some (n :: r)
          else if n =? 1 then Some (m :: r)
          else None
      end
  end.

Definition broadcast_shapes (a b : list nat) : option (list nat) :=
  match bshape_rev (rev a) (rev b) with
  | Some r => Some (rev r)
  | None => None
  end.

(** The elements of [s] laid out over the shape [vs]. *)
Definition expand (s : tensor) (vs : list nat) : list Q :=
  tabulate (numel vs) (fun k => elt s (src_index (rev (shape s)) (rev vs) k)).

(** A scale factor is a Python number or a tensor of the store. *)
Inductive factor := FNum (q : Q) | FTensor (l : loc).

(** The factor broadcast onto a fixed shape [vs]; a tensor that does not
    broadcast onto [vs] makes the in-place operation fail. *)
Definition factor_onto (f : factor) (vs : list nat) : M (list Q) :=
  match f with
  | FNum q => ret (tabulate (numel vs) (fun _ => q))
  | FTensor l =>
      s <- read l ;;
      if compat_rev (rev (shape s)) (rev vs) then ret (expand s vs)
      else raise RuntimeError
  end.

(** The values seen through the view [t[..., i, j]]. *)
Definition view_ij (t : tensor) (i j : nat) : res tensor :=
  match split_last2 (shape t) with
  | None => Raise IndexError
  | Some (vs, r, c) =>
      if (i <? r) && (j <? c)
      then Ok (Tensor vs (tabulate (numel vs) (fun n => elt t (n * (r * c) + i * c + j))))
      else Raise IndexError
  end.

(** The data of [t] after [t[..., i, j] *= fv], for a tensor whose last
    two dimensions are [r] and [c]: the elements at position [i * c + j]
    of each [r x c] block are multiplied, the others are kept. *)
Definition mul_ij (t : tensor) (r c i j : nat) (fv : list Q) : tensor :=
  Tensor (shape t)
    (tabulate (length (data t))
       (fun k => if k mod (r * c) =? i * c + j
                 then (elt t k * nth (k / (r * c)) fv 0)%Q
                 else elt t k)).

(** [t[..., i, j] *= f] on the tensor stored at [l]. *)
Definition imul_ij (l : loc) (i j : nat) (f : factor) : M unit :=
  t <- read l ;;
  match split_last2 (shape t) with
  | None => raise IndexError
  | Some (vs, r, c) =>
      if (i <? r) && (j <? c) then
        fv <- factor_onto f vs ;;
        write l (mul_ij t r c i j fv)
      else raise IndexError
  end.

(** The data of [t] after [t *= fv]. *)
Definition mul_all (t : tensor) (fv : list Q) : tensor :=
  Tensor (shape t)
    (tabulate (length (data t)) (fun k => (elt t k * nth k fv 0)%Q)).

(** [t *= f] on the tensor stored at [l]. *)
Definition imul (l : loc) (f : factor) : M unit :=
  t <- read l ;;
  fv <- factor_onto f (shape t) ;;
  write l (mul_all t fv).

(** [s * t] with both operands broadcast to the shape [r]. *)
Definition bmul (s t : tensor) (r : list nat) : tensor :=
  Tensor r
    (tabulate (numel r)
       (fun k => (elt s (src_index (rev (shape s)) (rev r) k)
                  * elt t (src_index (rev (shape t)) (rev r) k))%Q)).

(** [f * t] for the tensor stored at [l]: a new tensor. *)
Definition rmul (f : factor) (l : loc) : M loc :=
  t <- read l ;;
  match f with
  | FNum q => alloc (Tensor (shape t) (map (Qmult q) (data t)))
  | FTensor ls =>
      s <- read ls ;;
      match broadcast_shapes (shape s) (shape t) with
      | None => raise RuntimeError
      | Some r => alloc (bmul s t r)
      end
  end.

(** [t.clone()]. *)
Definition tensor_clone (l : loc) : M loc :=
  t <- read l ;; alloc t.

(** ** Indexed assignment, slices and constructors *)

(** The Python index [-1] into a dimension of size [c]. *)
Definition last_index (c : nat) : option nat :=
  if c =? 0 then None else Some (c - 1).

(** The data of [t] after [t[..., i, j] = fv], for a tensor whose last
    two dimensions are [r] and [c]. *)
Definition set_ij (t : tensor) (r c i j : nat) (fv : list Q) : tensor :=
  Tensor (shape t)
    (tabulate (length (data t))
       (fun k => if k mod (r * c) =? i * c + j
                 then nth (k / (r * c)) fv 0%Q
                 else elt t k)).

(** The data of [t] after [t[..., i, j] += fv]. *)
Definition add_ij (t : tensor) (r c i j : nat) (fv : list Q) : tensor :=
  Tensor (shape t)
    (tabulate (length (data t))
       (fun k => if k mod (r * c) =? i * c + j
                 then (elt t k + nth (k / (r * c)) fv 0)%Q
                 else elt t k)).

(** The values seen through the view [t[..., i, -1]]. *)
Definition view_i_last (t : tensor) (i : nat) : res tensor :=
  match split_last2 (shape t) with
  | None => Raise IndexError
  | Some (vs, r, c) =>
      match last_index c with
      | None => Raise IndexError
      | Some j => view_ij t i j
      end
  end.

(** [t[..., i, -1] = f] on the tensor stored at [l]; a tensor operand is
    broadcast onto the view. *)
Definition setitem_i_last (l : loc) (i : nat) (f : factor) : M unit :=
  t <- read l ;;
  match split_last2 (shape t) with
  | None => raise IndexError
  | Some (vs, r, c) =>
      match last_index c with
      | None => raise IndexError
      | Some j =>
          if i <? r then
            fv <- factor_onto f vs ;;
            write l (set_ij t r c i j fv)
          else raise IndexError
      end
  end.

(** [t[..., i, j] += f] on the tensor stored at [l]. *)
Definition iadd_ij (l : loc) (i j : nat) (f : factor) : M unit :=
  t <- read l ;;
  match split_last2 (shape t) with
  | None => raise IndexError
  | Some (vs, r, c) =>
      if (i <? r) && (j <? c) then
        fv <- factor_onto f vs ;;
        write l (add_ij t r c i j fv)
      else raise IndexError
  end.

(** [t[..., i, -1] += f] on the tensor stored at [l]. *)
Definition iadd_i_last (l : loc) (i : nat) (f : factor) : M unit :=
  t <- read l ;;
  match split_last2 (shape t) with
  | None => raise IndexError
  | Some (vs, r, c) =>
      match last_index c with
      | None => raise IndexError
      | Some j =>
          if i <? r then
            fv <- factor_onto f vs ;;
            write l (add_ij t r c i j fv)
          else raise IndexError
      end
  end.

(** [t[..., idx] += f] on the tensor stored at [l]: the view drops the
    last dimension. *)
Definition iadd_last (l : loc) (idx : nat) (f : factor) : M unit :=
  t <- read l ;;
  match rev (shape t) with
  | [] => raise IndexError
  | n :: rvs =>
      if idx <? n then
        fv <- factor_onto f (rev rvs) ;;
        write l (Tensor (shape t)
                   (tabulate (length (data t))
                      (fun k => if k mod n =? idx
                                then (elt t k + nth (k / n) fv 0)%Q
                                else elt t k)))
      else raise IndexError
  end.

(** A bound of a Python slice over a dimension of size [n]: absent, it
    is [default]; negative, it counts from the end; it is clamped to the
    dimension. *)
Definition slice_bound (b : option Z) (n default : nat) : nat :=
  match b with
  | None => default
  | Some z =>
      if (z <? 0)%Z then Z.to_nat (Z.max 0 (Z.of_nat n + z))
      else Nat.min (Z.to_nat z) n
  end.

(** The values of [t[..., r0:r1, c0:c1]]. *)
Definition slice_last2 (t : tensor) (r0 r1 c0 c1 : option Z) : res tensor :=
  match split_last2 (shape t) with
  | None => Raise IndexError
  | Some (vs, r, c) =>
      let ra := slice_bound r0 r 0 in
      let rb := slice_bound r1 r r in
      let ca := slice_bound c0 c 0 in
      let cb := slice_bound c1 c c in
      let nr := rb - ra in
      let nc := cb - ca in
      Ok (Tensor (vs ++ [nr; nc])
            (tabulate (numel vs * (nr * nc))
               (fun k => elt t ((k / (nr * nc)) * (r * c)
                                + (ra + (k mod (nr * nc)) / nc) * c
                                + (ca + (k mod (nr * nc)) mod nc)))))
  end.

(** [torch.zeros] of a shape. *)
Definition torch_zeros (sh : list nat) : tensor :=
  Tensor sh (tabulate (numel sh) (fun _ => 0%Q)).

(** [torch.eye(n)]. *)
Definition torch_eye (n : nat) : tensor :=
  Tensor [n; n] (tabulate (n * n) (fun k => if k / n =? k mod n then 1%Q else 0%Q)).

(** [t.repeat(b, 1, 1)] for a matrix [t]. *)
Definition repeat_matrix (t : tensor) (b : nat) : res tensor :=
  match shape t with
  | [r; c] => Ok (Tensor [b; r; c] (tabulate (b * (r * c)) (fun k => elt t (k mod (r * c)))))
  | _ => Raise RuntimeError
  end.

(** ** class PinholeCamera *)

Module PinholeCamera.

(** [all(data.shape[0] for data in data_iter)] (line 61): the generator
    yields the leading dimension of each argument, [all] stops at the
    first one that is zero; [shape[0]] of a 0-dimensional tensor raises
    [IndexError]. *)
Fixpoint all_shape0 (data_iter : list tensor) : res bool :=
  match data_iter with
  | [] => Ok true
  | t :: rest =>
      match shape t with
      | [] => Raise IndexError
      | d :: _ => if d =? 0 then Ok false else all_shape0 rest
      end
  end.

Definition _check_valid (data_iter : list tensor) : res bool :=
  match all_shape0 data_iter with
  | Raise e => Raise e
  | Ok b => if negb b then Raise (ValueError ShapesMustMatch) else Ok true
  end.

(** [data.shape[-2:] is not (4, 4)] (line 69).  [is not] compares object
    identities: the slice is a freshly built [torch.Size], the right-hand
    side a tuple literal, so the two are never the same object and the
    test is [True] whatever the dimensions are. *)
Definition shape_tail_is_not_4x4 (sh : list nat) : bool := true.

Definition rank_in_3_4 (sh : list nat) : bool :=
  (length sh =? 3) || (length sh =? 4).

Definition _check_valid_params (data : tensor) (data_name : string) : res bool :=
  if negb (rank_in_3_4 (shape data)) && shape_tail_is_not_4x4 (shape data)
  then Raise (ValueError (BadParamsShape data_name (shape data)))
  else Ok true.

Definition _check_valid_shape (data : tensor) (data_name : string) : res bool :=
  if negb (length (shape data) =? 1)
  then Raise (ValueError (BadBatchShape data_name (shape data)))
  else Ok true.

(** [PinholeCamera(intrinsics, extrinsics, height, width)]: the checks of
    [__init__] in their order, then the new object. *)
Definition __init__ (intrinsics extrinsics height width : loc) : M ref :=
  ti <- read intrinsics ;;
  te <- read extrinsics ;;
  th <- read height ;;
  tw <- read width ;;
  _ <- lift (_check_valid [ti; te; th; tw]) ;;
  _ <- lift (_check_valid_params ti "intrinsics") ;;
  _ <- lift (_check_valid_params te "extrinsics") ;;
  _ <- lift (_check_valid_shape th "height") ;;
  _ <- lift (_check_valid_shape tw "width") ;;
  new_obj (Camera PinholeCameraC height width intrinsics extrinsics).

(** [assert e] where [e] is [True] or raises. *)
Definition assert_true (r : res bool) : M unit :=
  b <- lift r ;; if b : bool then ret tt else raise (AssertionError []).

Definition get_height (self : ref) : M loc :=
  o <- getobj self ;; ret (height o).

Definition get_width (self : ref) : M loc :=
  o <- getobj self ;; ret (width o).

Definition set_height (self : ref) (l : loc) : M unit :=
  o <- getobj self ;;
  setobj self (Camera (cls o) l (width o) (_intrinsics o) (_extrinsics o)).

Definition set_width (self : ref) (l : loc) : M unit :=
  o <- getobj self ;;
  setobj self (Camera (cls o) (height o) l (_intrinsics o) (_extrinsics o)).

(** The properties [intrinsics] and [extrinsics] validate on each read. *)
Definition intrinsics (self : ref) : M loc :=
  o <- getobj self ;;
  t <- read (_intrinsics o) ;;
  assert_true (_check_valid_params t "intrinsics") ;;
  ret (_intrinsics o).

Definition extrinsics (self : ref) : M loc :=
  o <- getobj self ;;
  t <- read (_extrinsics o) ;;
  assert_true (_check_valid_params t "extrinsics") ;;
  ret (_extrinsics o).

(** The value read through [self.intrinsics[..., i, j]]. *)
Definition intrinsics_ij (i j : nat) (self : ref) : M tensor :=
  l <- intrinsics self ;; t <- read l ;; lift (view_ij t i j).

Definition fx : ref -> M tensor := intrinsics_ij 0 0.
Definition fy : ref -> M tensor := intrinsics_ij 1 1.
Definition cx : ref -> M tensor := intrinsics_ij 0 2.
Definition cy : ref -> M tensor := intrinsics_ij 1 2.

Definition clone (self : ref) : M ref :=
  lh <- get_height self ;;
  height <- tensor_clone lh ;;
  lw <- get_width self ;;
  width <- tensor_clone lw ;;
  li <- intrinsics self ;;
  intrinsics <- tensor_clone li ;;
  le <- extrinsics self ;;
  extrinsics <- tensor_clone le ;;
  __init__ intrinsics extrinsics height width.

Definition scale (self : ref) (scale_factor : factor) : M ref :=
  li <- intrinsics self ;;
  intrinsics <- tensor_clone li ;;
  imul_ij intrinsics 0 0 scale_factor ;;
  imul_ij intrinsics 1 1 scale_factor ;;
  imul_ij intrinsics 0 2 scale_factor ;;
  imul_ij intrinsics 1 2 scale_factor ;;
  lh <- get_height self ;;
  hc <- tensor_clone lh ;;
  height <- rmul scale_factor hc ;;
  lw <- get_width self ;;
  wc <- tensor_clone lw ;;
  width <- rmul scale_factor wc ;;
  le <- extrinsics self ;;
  __init__ intrinsics le height width.

(** [self.height *= scale_factor] multiplies the tensor in place and
    binds the attribute to the tensor it already held. *)
Definition scale_ (self : ref) (scale_factor : factor) : M ref :=
  l00 <- intrinsics self ;;
  imul_ij l00 0 0 scale_factor ;;
  l11 <- intrinsics self ;;
  imul_ij l11 1 1 scale_factor ;;
  l02 <- intrinsics self ;;
  imul_ij l02 0 2 scale_factor ;;
  l12 <- intrinsics self ;;
  imul_ij l12 1 2 scale_factor ;;
  lh <- get_height self ;;
  imul lh scale_factor ;;
  set_height self lh ;;
  lw <- get_width self ;;
  imul lw scale_factor ;;
  set_width self lw ;;
  ret self.

(** [self.intrinsics.shape[0]]. *)
Definition batch_size (self : ref) : M nat :=
  l <- intrinsics self ;;
  t <- read l ;;
  match shape t with
  | d :: _ => ret d
  | [] => raise IndexError
  end.

(** The value read through [self.extrinsics[..., i, -1]]. *)
Definition extrinsics_i_last (i : nat) (self : ref) : M tensor :=
  l <- extrinsics self ;; t <- read l ;; lift (view_i_last t i).

Definition tx : ref -> M tensor := extrinsics_i_last 0.
Definition ty : ref -> M tensor := extrinsics_i_last 1.
Definition tz : ref -> M tensor := extrinsics_i_last 2.

(** The setters of [tx], [ty] and [tz]:
    [self.extrinsics[..., i, -1] = value]. *)
Definition set_translation (i : nat) (self : ref) (value : factor) : M unit :=
  l <- extrinsics self ;; setitem_i_last l i value.

Definition tx_setter : ref -> factor -> M unit := set_translation 0.
Definition ty_setter : ref -> factor -> M unit := set_translation 1.
Definition tz_setter : ref -> factor -> M unit := set_translation 2.

(** [self.extrinsics[..., :3, :4]]. *)
Definition rt_matrix (self : ref) : M tensor :=
  l <- extrinsics self ;; t <- read l ;;
  lift (slice_last2 t None (Some 3%Z) None (Some 4%Z)).

(** [self.intrinsics[..., :3, :3]]. *)
Definition camera_matrix (self : ref) : M tensor :=
  l <- intrinsics self ;; t <- read l ;;
  lift (slice_last2 t None (Some 3%Z) None (Some 3%Z)).

(** [self.extrinsics[..., :3, :3]]. *)
Definition rotation_matrix (self : ref) : M tensor :=
  l <- extrinsics self ;; t <- read l ;;
  lift (slice_last2 t None (Some 3%Z) None (Some 3%Z)).

(** [self.extrinsics[..., :3, -1:]]. *)
Definition translation_vector (self : ref) : M tensor :=
  l <- extrinsics self ;; t <- read l ;;
  lift (slice_last2 t None (Some 3%Z) (Some (-1)%Z) None).

(** The class method [from_parameters] (lines 296-327); [batch_size] is
    a natural number, a negative one being refused by [torch.zeros]. *)
Definition from_parameters (fx fy cx cy height width tx ty tz : factor)
    (batch_size : nat) : M ref :=
  intrinsics <- alloc (torch_zeros [batch_size; 4; 4]) ;;
  iadd_ij intrinsics 0 0 fx ;;
  iadd_ij intrinsics 1 1 fy ;;
  iadd_ij intrinsics 0 2 cx ;;
  iadd_ij intrinsics 1 2 cy ;;
  iadd_ij intrinsics 2 2 (FNum 1) ;;
  iadd_ij intrinsics 3 3 (FNum 1) ;;
  eye <- alloc (torch_eye 4) ;;
  teye <- read eye ;;
  rep <- lift (repeat_matrix teye batch_size) ;;
  extrinsics <- alloc rep ;;
  iadd_i_last extrinsics 0 tx ;;
  iadd_i_last extrinsics 1 ty ;;
  iadd_i_last extrinsics 2 tz ;;
  height_tmp <- alloc (torch_zeros [batch_size]) ;;
  iadd_last height_tmp 0 height ;;
  width_tmp <- alloc (torch_zeros [batch_size]) ;;
  iadd_last width_tmp 0 width ;;
  __init__ intrinsics extrinsics height_tmp width_tmp.

End PinholeCamera.

(** ** class PinholeCamerasList *)

(** [torch.stack(ts, dim=1)]: the operands need one common shape, of rank
    at least one; the result has the new axis in second position and
    element [[b, n, ...]] is element [[b, ...]] of operand [n]. *)
Definition torch_stack1 (ts : list tensor) : res tensor :=
  match ts with
  | [] => Raise RuntimeError
  | t0 :: _ =>
      match shape t0 with
      | [] => Raise IndexError
      | b :: rest =>
          if forallb (fun t => bool_decide (shape t = shape t0)) ts then
            let n := length ts in
            let c := numel rest in
            Ok (Tensor (b :: n :: rest)
                  (tabulate (b * (n * c))
                     (fun k => elt (nth ((k / c) mod n) ts t0)
                                   ((k / (n * c)) * c + k mod c))))
          else Raise RuntimeError
      end
  end.

(** A Python index into a dimension of size [n]: negative indices count
    from the end. *)
Definition norm_index (idx : Z) (n : nat) : option nat :=
  if ((0 <=? idx) && (idx <? Z.of_nat n))%Z then Some (Z.to_nat idx)
  else if ((- Z.of_nat n <=? idx) && (idx <? 0))%Z then Some (Z.to_nat (Z.of_nat n + idx))
  else None.

(** The values of [t[:, idx]]. *)
Definition select_dim1 (t : tensor) (idx : Z) : res tensor :=
  match shape t with
  | b :: n :: rest =>
      match norm_index idx n with
      | None => Raise IndexError
      | Some i =>
          let c := numel rest in
          Ok (Tensor (b :: rest)
                (tabulate (b * c)
                   (fun k => elt t (((k / c) * n + i) * c + k mod c))))
      end
  | _ => Raise IndexError
  end.

(** The values of [t[..., idx]]. *)
Definition select_last (t : tensor) (idx : Z) : res tensor :=
  match rev (shape t) with
  | n :: rvs =>
      match norm_index idx n with
      | None => Raise IndexError
      | Some i =>
          Ok (Tensor (rev rvs)
                (tabulate (numel (rev rvs)) (fun k => elt t (k * n + i))))
      end
  | [] => Raise IndexError
  end.

Module PinholeCamerasList.

(** The loop of [_initialize_parameters] (lines 359-366): the four
    attribute lists, in the order of [pinholes].  The argument is a list
    of camera objects, so the two [isinstance] tests succeed. *)
Fixpoint collect (pinholes : list ref)
  : M (list loc * list loc * list loc * list loc) :=
  match pinholes with
  | [] => ret ([], [], [], [])
  | pinhole :: rest =>
      h <- PinholeCamera.get_height pinhole ;;
      w <- PinholeCamera.get_width pinhole ;;
      i <- PinholeCamera.intrinsics pinhole ;;
      e <- PinholeCamera.extrinsics pinhole ;;
      r <- collect rest ;;
      match r with
      | (hs, ws, ks, es) => ret (h :: hs, w :: ws, i :: ks, e :: es)
      end
  end.

Fixpoint read_all (ls : list loc) : M (list tensor) :=
  match ls with
  | [] => ret []
  | l :: rest => t <- read l ;; ts <- read_all rest ;; ret (t :: ts)
  end.

Definition stack (ls : list loc) : M loc :=
  ts <- read_all ls ;; t <- lift (torch_stack1 ts) ;; alloc t.

Definition _initialize_parameters (pinholes : list ref) : M ref :=
  r <- collect pinholes ;;
  match r with
  | (hs, ws, ks, es) =>
      height <- stack hs ;;
      width <- stack ws ;;
      intrinsics <- stack ks ;;
      extrinsics <- stack es ;;
      new_obj (Camera PinholeCamerasListC height width intrinsics extrinsics)
  end.

Definition __init__ (pinholes_list : list ref) : M ref :=
  _initialize_parameters pinholes_list.

(** [int(self.intrinsics.shape[1])]; the property never yields [None]. *)
Definition num_cameras (self : ref) : M nat :=
  l <- PinholeCamera.intrinsics self ;;
  t <- read l ;;
  match shape t with
  | _ :: n :: _ => ret n
  | _ => raise IndexError
  end.

(** The four slices are views of the stacked tensors in PyTorch; the
    store records the values they show at the time of the call. *)
Definition get_pinhole (self : ref) (idx : Z) : M ref :=
  lh <- PinholeCamera.get_height self ;;
  th <- read lh ;;
  vh <- lift (select_last th idx) ;;
  height <- alloc vh ;;
  lw <- PinholeCamera.get_width self ;;
  tw <- read lw ;;
  vw <- lift (select_last tw idx) ;;
  width <- alloc vw ;;
  li <- PinholeCamera.intrinsics self ;;
  ti <- read li ;;
  vi <- lift (select_dim1 ti idx) ;;
  intrinsics <- alloc vi ;;
  le <- PinholeCamera.extrinsics self ;;
  te <- read le ;;
  ve <- lift (select_dim1 te idx) ;;
  extrinsics <- alloc ve ;;
  PinholeCamera.__init__ intrinsics extrinsics height width.

End PinholeCamerasList.

(** ** Functional API over [N x 12] parameter tensors

    These functions read their arguments and build a fresh result, so
    they are functions of the tensor values.  The deprecation warnings
    they emit are not modelled. *)

Definition rbind {A B} (r : res A) (k : A -> res B) : res B :=
  match r with
  | Ok a => k a
  | Raise e => Raise e
  end.

Notation "x <~ c1 ;; c2" := (rbind c1 (fun x => c2))
  (at level 100, c1 at next level, right associativity).

(** [assert cond, msg]: the message expression is evaluated only when the
    condition fails, and evaluating it can itself raise. *)
Definition py_assert (cond : bool) (msg : res (list nat)) : res unit :=
  if cond then Ok tt
  else match msg with
       | Ok payload => Raise (AssertionError payload)
       | Raise e => Raise e
       end.

(** [len(p.shape) == 2 and p.shape[1] == 12] *)
Definition is_Nx12 (sh : list nat) : bool :=
  (length sh =? 2) && (nth 1 sh 0 =? 12).

(** Column [c] of an [N x 12] tensor: the chunks of [p[..., :4]]. *)
Definition column (p : tensor) (c : nat) : list Q :=
  tabulate (nth 0 (shape p) 0) (fun n => elt p (n * 12 + c)).

(** [torch.eye(4)], row-major. *)
Definition eye4 (k : nat) : Q := if k / 4 =? k mod 4 then 1%Q else 0%Q.

(** [k[..., i, j:j+1] = v] on an [N x 4 x 4] tensor. *)
Definition assign_ij (k : tensor) (i j : nat) (v : list Q) : tensor :=
  Tensor (shape k)
    (tabulate (length (data k))
       (fun p => if p mod 16 =? i * 4 + j then nth (p / 16) v 0%Q else elt k p)).

Definition default_eps : Q := 1 # 1000000.

Definition pinhole_matrix (pinholes : tensor) (eps : Q) : res tensor :=
  _ <~ py_assert (is_Nx12 (shape pinholes)) (Ok (shape pinholes)) ;;
  let fx := column pinholes 0 in
  let fy := column pinholes 1 in
  let cx := column pinholes 2 in
  let cy := column pinholes 3 in
  let n := nth 0 (shape pinholes) 0 in
  let k := Tensor [n; 4; 4] (tabulate (n * 16) (fun p => (eye4 (p mod 16) + eps)%Q)) in
  let k := assign_ij k 0 0 fx in
  let k := assign_ij k 0 2 cx in
  let k := assign_ij k 1 1 fy in
  let k := assign_ij k 1 2 cy in
  Ok k.

Definition inverse_pinhole_matrix (pinhole : tensor) (eps : Q) : res tensor :=
  _ <~ py_assert (is_Nx12 (shape pinhole)) (Ok (shape pinhole)) ;;
  let fx := column pinhole 0 in
  let fy := column pinhole 1 in
  let cx := column pinhole 2 in
  let cy := column pinhole 3 in
  let n := nth 0 (shape pinhole) 0 in
  let k := Tensor [n; 4; 4] (tabulate (n * 16) (fun p => eye4 (p mod 16))) in
  let k := assign_ij k 0 0 (map (fun f => (1 / (f + eps))%Q) fx) in
  let k := assign_ij k 1 1 (map (fun f => (1 / (f + eps))%Q) fy) in
  let k := assign_ij k 0 2 (zip_with (fun c f => (- (1) * c / (f + eps))%Q) cx fx) in
  let k := assign_ij k 1 2 (zip_with (fun c f => (- (1) * c / (f + eps))%Q) cy fy) in
  Ok k.

(** [pinholes[..., :6]] of an [N x 12] tensor. *)
Definition first6 (p : tensor) : tensor :=
  let n := nth 0 (shape p) 0 in
  Tensor [n; 6] (tabulate (n * 6) (fun k => elt p ((k / 6) * 12 + k mod 6))).

(** [s.unsqueeze(-1)]. *)
Definition unsqueeze_last (s : tensor) : tensor :=
  Tensor (shape s ++ [1]) (data s).

(** [scale_pinhole] (lines 459-485): the product of the first six
    columns and the column of scales is computed by broadcasting, then
    assigned to the first six columns of a clone. *)
Definition scale_pinhole (pinholes scale : tensor) : res tensor :=
  _ <~ py_assert (is_Nx12 (shape pinholes)) (Ok (shape pinholes)) ;;
  _ <~ py_assert (length (shape scale) =? 1) (Ok (shape scale)) ;;
  let lhs := first6 pinholes in
  let rhs := unsqueeze_last scale in
  match broadcast_shapes (shape lhs) (shape rhs) with
  | None => Raise RuntimeError
  | Some r =>
      let prod := bmul lhs rhs r in
      if compat_rev (rev r) (rev (shape lhs)) then
        let v := expand prod (shape lhs) in
        Ok (Tensor (shape pinholes)
              (tabulate (length (data pinholes))
                 (fun k => if k mod 12 <? 6
                           then nth ((k / 12) * 6 + k mod 12) v 0%Q
                           else elt pinholes k)))
      else Raise RuntimeError
  end.

(** [torch.matmul] on two batches of matrices, [N x a x b] by
    [N x b x c]. *)
Definition dot (b : nat) (f g : nat -> Q) : Q :=
  fold_right (fun k acc => (f k * g k + acc)%Q) 0%Q (seq 0 b).

Definition matmul (x y : tensor) : res tensor :=
  match shape x, shape y with
  | [n; a; b], [n'; b'; c] =>
      if (n =? n') && (b =? b') then
        Ok (Tensor [n; a; c]
              (tabulate (n * (a * c))
                 (fun p => let m := p / (a * c) in
                           let i := (p / c) mod a in
                           let j := p mod c in
                           dot b (fun k => elt x (m * (a * b) + i * b + k))
                                 (fun k => elt y (m * (b * c) + k * c + j)))))
      else Raise RuntimeError
  | _, _ => Raise RuntimeError
  end.

Section Homography.

(** [rtvec_to_pose] and [inverse_pose] are imported from the sibling
    modules [conversions] and [transformations]. *)
Variable rtvec_to_pose : tensor -> res tensor.
Variable inverse_pose : tensor -> res tensor.

(** [pinholes[..., 6:]] *)
Definition slice_6 (p : tensor) : tensor :=
  let n := nth 0 (shape p) 0 in
  Tensor [n; 6] (tabulate (n * 6) (fun k => elt p ((k / 6) * 12 + 6 + k mod 6))).

Definition get_optical_pose_base (pinholes : tensor) : res tensor :=
  _ <~ py_assert (is_Nx12 (shape pinholes)) (Ok (shape pinholes)) ;;
  rtvec_to_pose (slice_6 pinholes).

(** The message of the first assertion (line 529) is [pinhole.shape]:
    no variable [pinhole] exists in the function or in the module, so
    evaluating the message raises [NameError]. *)
Definition homography_i_H_ref (pinhole_i pinhole_ref : tensor) : res tensor :=
  _ <~ py_assert (is_Nx12 (shape pinhole_i)) (Raise (NameError "pinhole")) ;;
  _ <~ py_assert (bool_decide (shape pinhole_i = shape pinhole_ref))
         (Ok (shape pinhole_ref)) ;;
  i_pose_base <~ get_optical_pose_base pinhole_i ;;
  ref_pose_base <~ get_optical_pose_base pinhole_ref ;;
  ref_inv <~ inverse_pose ref_pose_base ;;
  i_pose_ref <~ matmul i_pose_base ref_inv ;;
  k_i <~ pinhole_matrix pinhole_i default_eps ;;
  k_ref_inv <~ inverse_pinhole_matrix pinhole_ref default_eps ;;
  inner <~ matmul i_pose_ref k_ref_inv ;;
  matmul k_i inner.

End Homography.

(** ** Reading the results

    The vocabulary of the statements below: entries of a batch of
    [4 x 4] matrices, the parameters of a row of an [N x 12] tensor, and
    the concrete inputs at which the statements are evaluated. *)

(** Entry [[n, i, j]] of an [N x 4 x 4] tensor. *)
Definition entry (k : tensor) (n i j : nat) : Q := elt k (n * 16 + i * 4 + j).

(** Parameter [c] of row [n] of an [N x 12] tensor:
    [fx, fy, cx, cy, h, w, rx, ry, rz, tx, ty, tz]. *)
Definition param (p : tensor) (n c : nat) : Q := elt p (n * 12 + c).

Definition eye (i j : nat) : Q := if i =? j then 1%Q else 0%Q.

(** The entries [pinhole_matrix] is expected to produce. *)
Definition pinhole_entry (p : tensor) (eps : Q) (n i j : nat) : Q :=
  match i, j with
  | 0, 0 => param p n 0
  | 0, 2 => param p n 2
  | 1, 1 => param p n 1
  | 1, 2 => param p n 3
  | _, _ => (eye i j + eps)%Q
  end.

(** The entries [inverse_pinhole_matrix] is expected to produce. *)
Definition inverse_entry (p : tensor) (eps : Q) (n i j : nat) : Q :=
  match i, j with
  | 0, 0 => (1 / (param p n 0 + eps))%Q
  | 0, 2 => (- (1) * param p n 2 / (param p n 0 + eps))%Q
  | 1, 1 => (1 / (param p n 1 + eps))%Q
  | 1, 2 => (- (1) * param p n 3 / (param p n 1 + eps))%Q
  | _, _ => eye i j
  end.

Definition tolerance : Q := 1 # 10000.

Definition zeros (sh : list nat) : tensor :=
  Tensor sh (tabulate (numel sh) (fun _ => 0%Q)).

(** A stand-in for the two imported pose routines: the identity pose for
    every row. *)
Definition identity_pose (p : tensor) : res tensor :=
  let n := nth 0 (shape p) 0 in
  Ok (Tensor [n; 4; 4] (tabulate (n * 16) (fun k => eye4 (k mod 16)))).

(** What an error tells its receiver: the name of the argument at fault
    and the shape it was given. *)
Definition error_argument (e : exn) : option string :=
  match e with
  | ValueError (BadParamsShape name _) => Some name
  | ValueError (BadBatchShape name _) => Some name
  | _ => None
  end.

Definition error_shape (e : exn) : option (list nat) :=
  match e with
  | ValueError (BadParamsShape _ got) => Some got
  | ValueError (BadBatchShape _ got) => Some got
  | AssertionError got => Some got
  | _ => None
  end.

(** Four tensors with leading dimensions 2, 3, 2, 2. *)
Definition st_batch_mismatch : state :=
  State [zeros [2; 4; 4]; zeros [3; 4; 4]; zeros [2]; zeros [2]] [].

(** Intrinsics of shape [2 x 3 x 3]; extrinsics of shape [2 x 5 x 4]. *)
Definition st_bad_tail : state :=
  State [zeros [2; 3; 3]; zeros [2; 5; 4]; zeros [2]; zeros [2]] [].

(** One camera of batch size 1: [fx = 500], [fy = 600], principal point
    [(320, 240)], translation [(1, 2, 3)], a [480 x 640] image. *)
Definition K1 : tensor :=
  Tensor [1; 4; 4] [500; 0; 320; 0;  0; 600; 240; 0;  0; 0; 1; 0;  0; 0; 0; 1]%Q.
Definition E1 : tensor :=
  Tensor [1; 4; 4] [1; 0; 0; 1;  0; 1; 0; 2;  0; 0; 1; 3;  0; 0; 0; 1]%Q.
Definition H1 : tensor := Tensor [1] [480%Q].
Definition W1 : tensor := Tensor [1] [640%Q].
Definition cam1 : camera := Camera PinholeCameraC 2 3 0 1.
Definition st1 : state := State [K1; E1; H1; W1] [cam1].

(** The same camera as a row of the flat representation. *)
Definition p1 : tensor :=
  Tensor [1; 12] [500; 600; 320; 240; 480; 640; 0; 0; 0; 1; 2; 3]%Q.

(** A row with unit focal lengths and the principal point at
    [(1000, 1000)]. *)
Definition p_far : tensor :=
  Tensor [1; 12] [1; 1; 1000; 1000; 2000; 2000; 0; 0; 0; 0; 0; 0]%Q.

(** ** Valid cameras and scale factors *)

(** Rank 3 or 4 with leading dimension [b] and trailing shape [4 x 4]. *)
Definition params_shape (sh : list nat) (b : nat) : Prop :=
  sh = [b; 4; 4] \/ exists n, sh = [b; n; 4; 4].

(** [shape[:-2]] of a tensor of rank at least two. *)
Definition lead (sh : list nat) : list nat := take (length sh - 2) sh.

(** The invariant of the data model, for the camera object [o] stored at
    [c] and the tensors [ti], [te], [th], [tw] its attributes point to:
    a common non-zero batch size [b] (a zero batch size does not pass
    [_check_valid]), intrinsics and extrinsics of rank 3 or 4 ending in
    [4 x 4], height and width of rank 1. *)
Record valid_camera (st : state) (c : ref) (o : camera) (b : nat)
    (ti te th tw : tensor) : Prop := {
  vc_obj : objects st !! c = Some o;
  vc_intrinsics : tensors st !! _intrinsics o = Some ti;
  vc_extrinsics : tensors st !! _extrinsics o = Some te;
  vc_height : tensors st !! height o = Some th;
  vc_width : tensors st !! width o = Some tw;
  vc_batch : b <> 0;
  vc_shape_i : params_shape (shape ti) b;
  vc_shape_e : params_shape (shape te) b;
  vc_shape_h : shape th = [b];
  vc_shape_w : shape tw = [b];
  vc_wf_i : tensor_wf ti;
  vc_wf_e : tensor_wf te;
  vc_wf_h : tensor_wf th;
  vc_wf_w : tensor_wf tw
}.

(** The tensors behind the four attributes of the object at [c]:
    intrinsics, extrinsics, height, width. *)
Definition camera_tensors (st : state) (c : ref)
  : option (tensor * tensor * tensor * tensor) :=
  match objects st !! c with
  | None => None
  | Some o =>
      match tensors st !! _intrinsics o, tensors st !! _extrinsics o,
            tensors st !! height o, tensors st !! width o with
      | Some ti, Some te, Some th, Some tw => Some (ti, te, th, tw)
      | _, _, _, _ => None
      end
  end.

(** The factor can be broadcast onto the shape [vs]: always for a
    number, by the broadcasting rule for a tensor of the store. *)
Definition broadcastable (st : state) (f : factor) (vs : list nat) : Prop :=
  match f with
  | FNum _ => True
  | FTensor l =>
      exists s, tensors st !! l = Some s
                /\ compat_rev (rev (shape s)) (rev vs) = true
  end.

(** The elements of the factor once broadcast onto [vs]. *)
Definition fvals (st : state) (f : factor) (vs : list nat) : list Q :=
  match f with
  | FNum q => tabulate (numel vs) (fun _ => q)
  | FTensor l =>
      match tensors st !! l with
      | Some s => expand s vs
      | None => []
      end
  end.

(** The factor does not live at location [l]. *)
Definition factor_apart (f : factor) (l : loc) : Prop :=
  match f with
  | FNum _ => True
  | FTensor lf => lf <> l
  end.

(** [fv] times [v], element by element. *)
Definition scaled (fv : list Q) (v : tensor) : tensor :=
  Tensor (shape v) (zip_with Qmult fv (data v)).

(** The intrinsics after the four in-place multiplications of [scale] and
    [scale_]. *)
Definition scale_intrinsics (t : tensor) (fv : list Q) : tensor :=
  mul_ij (mul_ij (mul_ij (mul_ij t 4 4 0 0 fv) 4 4 1 1 fv) 4 4 0 2 fv) 4 4 1 2 fv.

(** [scale(s)] applied to a clone of the camera. *)
Definition scale_of_clone (c : ref) (f : factor) : M ref :=
  c' <- PinholeCamera.clone c ;; PinholeCamera.scale c' f.

(** A square image: one tensor serves as height and as width. *)
Definition cam_square : camera := Camera PinholeCameraC 2 2 0 1.
Definition st_square : state := State [K1; E1; H1] [cam_square].

(** A sequence of in-place writes to tensors of the store. *)
Definition write_all (ws : list (loc * tensor)) (ts : list tensor) : list tensor :=
  fold_left (fun acc w => <[fst w := snd w]> acc) ws ts.

(** The tensor locations a camera object points to. *)
Definition camera_locs (o : camera) : list loc :=
  [_intrinsics o; _extrinsics o; height o; width o].

(** A tensor factor names a tensor of the store. *)
Definition factor_allocated (st : state) (f : factor) : Prop :=
  match f with
  | FNum _ => True
  | FTensor l => l < length (tensors st)
  end.

(** The camera of [st1] with a scale factor [2] held in a tensor of
    shape [[1]]. *)
Definition S2 : tensor := Tensor [1] [2%Q].
Definition st_factor : state := State [K1; E1; H1; W1; S2] [cam1].

(** ** Collections *)

(** The camera at [c] is valid with batch size [b], its attributes hold
    the four tensors [ts] (intrinsics, extrinsics, height, width), and
    its intrinsics and extrinsics are [b x 4 x 4]. *)
Definition single_camera (st : state) (b : nat) (c : ref)
    (ts : tensor * tensor * tensor * tensor) : Prop :=
  let '(ti, te, th, tw) := ts in
  exists o, valid_camera st c o b ti te th tw
            /\ shape ti = [b; 4; 4] /\ shape te = [b; 4; 4].

(** The store holds the tensor [t] at location [l]. *)
Definition held (st : state) (l : loc) (t : tensor) : Prop :=
  tensors st !! l = Some t.

Definition info_i (ts : tensor * tensor * tensor * tensor) : tensor := ts.1.1.1.
Definition info_e (ts : tensor * tensor * tensor * tensor) : tensor := ts.1.1.2.
Definition info_h (ts : tensor * tensor * tensor * tensor) : tensor := ts.1.2.
Definition info_w (ts : tensor * tensor * tensor * tensor) : tensor := ts.2.

(** The tensor [torch.stack(ts, dim=1)] builds from operands of shape
    [b :: rest]. *)
Definition stacked (b : nat) (rest : list nat) (ts : list tensor) : tensor :=
  Tensor (b :: length ts :: rest)
    (tabulate (b * (length ts * numel rest))
       (fun k => elt (nth ((k / numel rest) mod length ts) ts (zeros []))
                     ((k / (length ts * numel rest)) * numel rest
                      + k mod numel rest))).

(** A second camera, twice the first, and the state holding both. *)
Definition K2 : tensor :=
  Tensor [1; 4; 4] [1000; 0; 640; 0;  0; 1200; 480; 0;  0; 0; 1; 0;  0; 0; 0; 1]%Q.
Definition H2 : tensor := Tensor [1] [960%Q].
Definition W2 : tensor := Tensor [1] [1280%Q].
Definition cam2 : camera := Camera PinholeCameraC 5 6 4 1.
Definition st_pair : state := State [K1; E1; H1; W1; K2; H2; W2] [cam1; cam2].

(** A camera whose intrinsics and extrinsics are [1 x 2 x 4 x 4]. *)
Definition K4 : tensor := Tensor [1; 2; 4; 4] (data K1 ++ data K2).
Definition E4 : tensor := Tensor [1; 2; 4; 4] (data E1 ++ data E1).
Definition st_rank4 : state := State [K4; E4; H1; W1] [cam1].

(** ** Frames *)

(** Every tensor and every object of [st] is in [st'], unchanged. *)
Definition store_kept (st st' : state) : Prop :=
  (forall l t, tensors st !! l = Some t -> tensors st' !! l = Some t)
  /\ (forall r o, objects st !! r = Some o -> objects st' !! r = Some o).

(** [st'] has the objects of [st] and as many tensors, and differs from
    it at most in the tensors at the locations [ws]. *)
Definition changed_only (ws : list loc) (st st' : state) : Prop :=
  objects st' = objects st
  /\ length (tensors st') = length (tensors st)
  /\ (forall l, l ∉ ws -> tensors st' !! l = tensors st !! l).

(** Run from a state that satisfies [I], the computation [m] ends,
    normally or not, in a state that satisfies [I], and a value it
    returns satisfies [post]. *)
Definition keeps (I : state -> Prop) {A} (m : M A) (post : A -> Prop) : Prop :=
  forall st r st', I st -> m st = (r, st') ->
    I st' /\ forall a, r = Ok a -> post a.

(** The invariant of a computation that only adds to the store [st0]. *)
Definition grown_from (st0 st : state) : Prop :=
  store_kept st0 st /\ length (tensors st0) <= length (tensors st).

(** A computation that never changes the state. *)
Definition reads_only {A} (m : M A) : Prop :=
  forall st r st', m st = (r, st') -> st' = st.

(** ** What the constructor accepts *)

(** Rank at least one and a non-zero leading dimension. *)
Definition lead_nonzero (t : tensor) : bool :=
  match shape t with
  | d :: _ => negb (d =? 0)
  | [] => false
  end.

Definition init_accepts (ti te th tw : tensor) : bool :=
  lead_nonzero ti && lead_nonzero te && lead_nonzero th && lead_nonzero tw
  && PinholeCamera.rank_in_3_4 (shape ti)
  && PinholeCamera.rank_in_3_4 (shape te)
  && (length (shape th) =? 1) && (length (shape tw) =? 1).

(** Four tensors of batch sizes 2, 3, 2, 2 whose trailing shapes are
    not [4 x 4]. *)
Definition st_odd : state :=
  State [zeros [2; 3; 3]; zeros [3; 1; 5; 2]; zeros [2]; zeros [2]] [].

(** Four tensors of batch size zero. *)
Definition st_empty_batch : state :=
  State [zeros [0; 4; 4]; zeros [0; 4; 4]; zeros [0]; zeros [0]] [].

(** Intrinsics of rank 2. *)
Definition st_flat : state :=
  State [zeros [4; 4]; zeros [1; 4; 4]; zeros [1]; zeros [1]] [].

(** ** Cameras made by [from_parameters] *)

(** Row-major entries of the intrinsics and extrinsics matrices that
    [from_parameters] builds. *)
Definition canonical_intrinsics (fx fy cx cy : Q) (p : nat) : Q :=
  match p with
  | 0 => fx | 2 => cx | 5 => fy | 6 => cy | 10 => 1%Q | 15 => 1%Q | _ => 0%Q
  end.

Definition canonical_extrinsics (tx ty tz : Q) (p : nat) : Q :=
  match p with
  | 0 => 1%Q | 5 => 1%Q | 10 => 1%Q | 15 => 1%Q
  | 3 => tx | 7 => ty | 11 => tz | _ => 0%Q
  end.

(** [b] copies of one [4 x 4] matrix. *)
Definition batch_of (b : nat) (m : nat -> Q) : tensor :=
  Tensor [b; 4; 4] (tabulate (b * 16) (fun k => m (k mod 16))).

(** A vector of length [b] that holds [q] in its first element and zero
    elsewhere. *)
Definition first_only (b : nat) (q : Q) : tensor :=
  Tensor [b] (tabulate b (fun k => if k =? 0 then q else 0%Q)).

(** A vector of length [b] that holds [q] everywhere. *)
Definition constant (b : nat) (q : Q) : tensor :=
  Tensor [b] (tabulate b (fun _ => q)).

(** ** Collections of unlike cameras *)

(** The object at [c] is a valid camera of batch size [b]. *)
Definition camera_of_batch (st : state) (b : nat) (c : ref) : Prop :=
  exists o ti te th tw, valid_camera st c o b ti te th tw.

(** The camera of [st1] and a camera of batch size 2. *)
Definition st_mixed : state :=
  State [K1; E1; H1; W1;
         batch_of 2 (canonical_intrinsics 1 1 0 0);
         batch_of 2 (canonical_extrinsics 0 0 0);
         constant 2 100; constant 2 100]
        [cam1; Camera PinholeCameraC 6 7 4 5].

(** ** Matrix views *)

(** Entry [[i, j]] of matrix [m] of a batch of [r x c] matrices, the
    leading dimensions being counted as one. *)
Definition mat_entry (t : tensor) (r c m i j : nat) : Q :=
  elt t (m * (r * c) + i * c + j).

(** * Properties *)

(** ** Lists and tabulation *)

Lemma length_tabulate n f : length (tabulate n f) = n.
Proof. unfold tabulate. by rewrite length_map, length_seq. Qed.

Lemma nth_tabulate n f k d : k < n -> nth k (tabulate n f) d = f k.
Proof.
  intros Hk. unfold tabulate.
  rewrite (nth_indep _ d (f 0)) by (rewrite length_map, length_seq; lia).
  rewrite (map_nth f (seq 0 n) 0 k). by rewrite seq_nth.
Qed.

Lemma tabulate_ext n f g :
  (forall k, k < n -> f k = g k) -> tabulate n f = tabulate n g.
Proof.
  intros H. unfold tabulate. apply map_ext_in.
  intros k Hk. apply in_seq in Hk. apply H. lia.
Qed.

Lemma tabulate_nth (l : list Q) : tabulate (length l) (fun k => nth k l 0%Q) = l.
Proof.
  apply (nth_ext _ _ 0%Q 0%Q).
  - apply length_tabulate.
  - intros k Hk. rewrite length_tabulate in Hk. by rewrite nth_tabulate.
Qed.

Lemma nth_map_lt {A B} (f : A -> B) (l : list A) k d d' :
  k < length l -> nth k (map f l) d' = f (nth k l d).
Proof.
  intros Hk. rewrite (nth_indep _ d' (f d)) by (rewrite length_map; lia).
  apply map_nth.
Qed.

Lemma nth_zip_with_lt {A B C} (f : A -> B -> C) (l1 : list A) (l2 : list B) k d1 d2 d :
  k < length l1 -> k < length l2 ->
  nth k (zip_with f l1 l2) d = f (nth k l1 d1) (nth k l2 d2).
Proof.
  revert l2 k. induction l1 as [|a l1 IH]; intros [|b l2] [|k] H1 H2;
    simpl in *; try lia; [done|]. apply IH; lia.
Qed.

Lemma Qmult_comm_eq (x y : Q) : (x * y)%Q = (y * x)%Q.
Proof. unfold Qmult. f_equal; [apply Z.mul_comm | apply Pos.mul_comm]. Qed.

(** Positions inside a batch of [r x c] blocks. *)
Lemma block_mod n m p : p < m -> (n * m + p) mod m = p.
Proof.
  intros Hp. rewrite Nat.add_comm, Nat.Div0.mod_add. by apply Nat.mod_small.
Qed.

Lemma block_div n m p : p < m -> (n * m + p) / m = n.
Proof.
  intros Hp. rewrite Nat.add_comm, Nat.div_add by lia.
  rewrite Nat.div_small by done. done.
Qed.

(** ** Construction-time validation *)

Lemma all_shape0_nonzero (ts : list tensor) :
  Forall (fun t => exists d rest, shape t = d :: rest /\ d <> 0) ts ->
  PinholeCamera.all_shape0 ts = Ok true.
Proof.
  induction 1 as [|t ts (d & rest & Hs & Hd) _ IH]; simpl; [done|].
  rewrite Hs. destruct (Nat.eqb_spec d 0); [done|]. exact IH.
Qed.

(** [_check_valid] accepts any arguments of rank at least one with
    non-zero leading dimensions: the dimensions are never compared. *)
Lemma check_valid_nonzero (ts : list tensor) :
  Forall (fun t => exists d rest, shape t = d :: rest /\ d <> 0) ts ->
  PinholeCamera._check_valid ts = Ok true.
Proof.
  intros H. unfold PinholeCamera._check_valid.
  by rewrite all_shape0_nonzero.
Qed.

(** [_check_valid_params] looks at the rank only. *)
Lemma check_valid_params_rank (t : tensor) (name : string) :
  PinholeCamera._check_valid_params t name =
    if PinholeCamera.rank_in_3_4 (shape t) then Ok true
    else Raise (ValueError (BadParamsShape name (shape t))).
Proof.
  unfold PinholeCamera._check_valid_params, PinholeCamera.shape_tail_is_not_4x4.
  by destruct (PinholeCamera.rank_in_3_4 (shape t)).
Qed.

(** C2.  The constructor is expected to reject four inputs whose leading
    (batch) dimensions differ.  Run on intrinsics of batch size 2,
    extrinsics of batch size 3 and height and width of batch size 2, it
    raises nothing and returns the new camera. *)
Theorem init_batch_mismatch_accepted :
  PinholeCamera.__init__ 0 1 2 3 st_batch_mismatch
  = (Ok 0, State (tensors st_batch_mismatch) [Camera PinholeCameraC 2 3 0 1]).
Proof. reflexivity. Qed.

(** C10.  The constructor is expected to reject intrinsics or extrinsics
    whose last two dimensions are not [4 x 4].  Run on intrinsics of
    shape [2 x 3 x 3] and extrinsics of shape [2 x 5 x 4], it raises
    nothing and returns the new camera. *)
Theorem init_bad_trailing_shape_accepted :
  PinholeCamera.__init__ 0 1 2 3 st_bad_tail
  = (Ok 0, State (tensors st_bad_tail) [Camera PinholeCameraC 2 3 0 1]).
Proof. reflexivity. Qed.

(** What the two checks do reject: a rank other than 3 or 4, with an
    error that names the argument and the shape it was given, and a zero
    leading dimension, even when all four are zero and hence equal. *)
Lemma check_valid_params_bad_rank (t : tensor) (name : string) :
  PinholeCamera.rank_in_3_4 (shape t) = false ->
  PinholeCamera._check_valid_params t name
  = Raise (ValueError (BadParamsShape name (shape t))).
Proof. intros H. by rewrite check_valid_params_rank, H. Qed.

Example check_valid_zero_batch :
  PinholeCamera._check_valid [zeros [0; 4; 4]; zeros [0; 4; 4]; zeros [0]; zeros [0]]
  = Raise (ValueError ShapesMustMatch).
Proof. reflexivity. Qed.

(** ** Shape checks of [homography_i_H_ref] *)

Lemma py_assert_true msg : py_assert true msg = Ok tt.
Proof. done. Qed.

Section HomographyChecks.

Variable rtvec_to_pose : tensor -> res tensor.
Variable inverse_pose : tensor -> res tensor.

Lemma homography_first_check (pinhole_i pinhole_ref : tensor) :
  is_Nx12 (shape pinhole_i) = false ->
  homography_i_H_ref rtvec_to_pose inverse_pose pinhole_i pinhole_ref
  = Raise (NameError "pinhole").
Proof. intros H. unfold homography_i_H_ref. by rewrite H. Qed.

Lemma homography_second_check (pinhole_i pinhole_ref : tensor) :
  is_Nx12 (shape pinhole_i) = true ->
  shape pinhole_i <> shape pinhole_ref ->
  homography_i_H_ref rtvec_to_pose inverse_pose pinhole_i pinhole_ref
  = Raise (AssertionError (shape pinhole_ref)).
Proof.
  intros H1 H2. unfold homography_i_H_ref. rewrite H1. simpl.
  by rewrite bool_decide_eq_false_2.
Qed.

(** C7, as amended.  When [pinhole_i] is not [N x 12] or the two shapes
    differ, [homography_i_H_ref] fails; when [pinhole_i] is [N x 12] and
    the shape of [pinhole_ref] differs from it, the failure is the
    assertion error whose only payload is the shape of [pinhole_ref]. *)
Theorem homography_rejects_bad_shapes (pinhole_i pinhole_ref : tensor)
  (Hbad : is_Nx12 (shape pinhole_i) = false
          \/ shape pinhole_i <> shape pinhole_ref) :
  (exists e, homography_i_H_ref rtvec_to_pose inverse_pose pinhole_i pinhole_ref
             = Raise e)
  /\ (is_Nx12 (shape pinhole_i) = true ->
      homography_i_H_ref rtvec_to_pose inverse_pose pinhole_i pinhole_ref
      = Raise (AssertionError (shape pinhole_ref))).
Proof.
  destruct (is_Nx12 (shape pinhole_i)) eqn:E.
  - destruct Hbad as [?|Hne]; [done|]. split.
    + eexists. by apply homography_second_check.
    + intros _. by apply homography_second_check.
  - split; [|done]. eexists. by apply homography_first_check.
Qed.

End HomographyChecks.

Lemma homography_rejects_bad_shapes_witness :
  (is_Nx12 (shape (zeros [2; 12])) = false
   \/ shape (zeros [2; 12]) <> shape (zeros [3; 12]))
  /\ homography_i_H_ref identity_pose identity_pose (zeros [2; 12]) (zeros [3; 12])
     = Raise (AssertionError [3; 12]).
Proof.
  assert (H : is_Nx12 (shape (zeros [2; 12])) = false
              \/ shape (zeros [2; 12]) <> shape (zeros [3; 12]))
    by (right; discriminate).
  split; [exact H|].
  apply (homography_rejects_bad_shapes identity_pose identity_pose
           (zeros [2; 12]) (zeros [3; 12]) H).
  reflexivity.
Defined.

(** C7, as stated, fails.  A first argument of shape [2 x 11] is answered
    with [NameError], which carries neither an argument nor a shape; a
    second argument of shape [3 x 12] is answered with the same assertion
    error whether the shape expected of it was [2 x 12] or [5 x 12], and
    that error names no argument. *)
Lemma homography_error_not_descriptive :
  homography_i_H_ref identity_pose identity_pose (zeros [2; 11]) (zeros [2; 11])
    = Raise (NameError "pinhole")
  /\ error_argument (NameError "pinhole") = None
  /\ error_shape (NameError "pinhole") = None
  /\ homography_i_H_ref identity_pose identity_pose (zeros [2; 12]) (zeros [3; 12])
     = Raise (AssertionError [3; 12])
  /\ homography_i_H_ref identity_pose identity_pose (zeros [5; 12]) (zeros [3; 12])
     = Raise (AssertionError [3; 12])
  /\ error_argument (AssertionError [3; 12]) = None.
Proof. repeat split. Qed.

(** ** The intrinsics builder and its inverter *)

Lemma elt_assign_ij (k : tensor) (i j : nat) (v : list Q) (pos : nat) :
  pos < length (data k) ->
  elt (assign_ij k i j v) pos
  = if pos mod 16 =? i * 4 + j then nth (pos / 16) v 0%Q else elt k pos.
Proof. intros H. unfold elt at 1, assign_ij. simpl. by rewrite nth_tabulate. Qed.

Lemma length_assign_ij k i j v : length (data (assign_ij k i j v)) = length (data k).
Proof. unfold assign_ij. simpl. apply length_tabulate. Qed.

Lemma entry_assign_ij (k : tensor) (i j : nat) (v : list Q) (n a b : nat) :
  n * 16 + (a * 4 + b) < length (data k) -> a * 4 + b < 16 ->
  entry (assign_ij k i j v) n a b
  = if a * 4 + b =? i * 4 + j then nth n v 0%Q else entry k n a b.
Proof.
  intros Hlen Hab. unfold entry. rewrite <- !Nat.add_assoc.
  rewrite elt_assign_ij by done. by rewrite block_mod, block_div.
Qed.

Lemma nth_column (p : tensor) (N c n : nat) :
  shape p = N :: [12] -> n < N -> nth n (column p c) 0%Q = param p n c.
Proof.
  intros Hs Hn. unfold column. rewrite Hs. simpl. by rewrite nth_tabulate.
Qed.

Lemma length_column (p : tensor) (N c : nat) :
  shape p = N :: [12] -> length (column p c) = N.
Proof. intros Hs. unfold column. rewrite Hs. simpl. apply length_tabulate. Qed.

Lemma is_Nx12_shape (N : nat) : is_Nx12 [N; 12] = true.
Proof. done. Qed.

Ltac cases_lt4 i Hi :=
  destruct i as [|[|[|[|i]]]]; [ | | | | exfalso; lia ]; clear Hi.

Lemma pinhole_matrix_ok (p : tensor) (eps : Q) (N : nat) :
  shape p = [N; 12] ->
  exists k, pinhole_matrix p eps = Ok k
    /\ shape k = [N; 4; 4]
    /\ length (data k) = N * 16
    /\ forall n i j, n < N -> i < 4 -> j < 4 ->
         entry k n i j = pinhole_entry p eps n i j.
Proof.
  intros Hs. unfold pinhole_matrix. rewrite Hs, is_Nx12_shape.
  cbn [rbind py_assert nth].
  eexists. split; [reflexivity|]. split; [done|]. split.
  { rewrite !length_assign_ij. cbn [data]. apply length_tabulate. }
  intros n i j Hn Hi Hj.
  assert (Hpos : n * 16 + (i * 4 + j) < N * 16) by lia.
  rewrite !entry_assign_ij
    by (rewrite ?length_assign_ij; cbn [data]; rewrite ?length_tabulate; lia).
  rewrite !(nth_column p N) by done.
  unfold entry, elt. cbn [data].
  rewrite nth_tabulate by lia.
  rewrite <- !Nat.add_assoc, block_mod by lia.
  cases_lt4 i Hi; cases_lt4 j Hj; reflexivity.
Qed.

(** C4.  On an [N x 12] tensor [pinhole_matrix] returns [N] matrices of
    size [4 x 4]: entries [[0,0]], [[0,2]], [[1,1]] and [[1,2]] are [fx],
    [cx], [fy] and [cy] of the row, every other entry is the identity
    entry plus [eps]; so the remaining off-diagonal entries are [eps] and
    entries [[2,2]] and [[3,3]] are [1 + eps]. *)
Theorem pinhole_matrix_entries (p : tensor) (eps : Q) (N : nat)
  (Hshape : shape p = [N; 12]) :
  exists k, pinhole_matrix p eps = Ok k
    /\ shape k = [N; 4; 4]
    /\ length (data k) = N * 16
    /\ (forall n i j, n < N -> i < 4 -> j < 4 ->
          entry k n i j = pinhole_entry p eps n i j)
    /\ (forall n, n < N ->
          entry k n 0 0 = param p n 0 /\ entry k n 0 2 = param p n 2
          /\ entry k n 1 1 = param p n 1 /\ entry k n 1 2 = param p n 3)
    /\ (forall n i j, n < N -> i < 4 -> j < 4 ->
          i <> j -> (i, j) <> (0, 2) -> (i, j) <> (1, 2) ->
          (entry k n i j == eps)%Q)
    /\ (forall n, n < N ->
          (entry k n 2 2 == 1 + eps)%Q /\ (entry k n 3 3 == 1 + eps)%Q).
Proof.
  destruct (pinhole_matrix_ok p eps N Hshape) as (k & Hk & Hsh & Hlen & Hent).
  exists k. repeat split; try done.
  - by rewrite Hent by lia.
  - by rewrite Hent by lia.
  - by rewrite Hent by lia.
  - by rewrite Hent by lia.
  - intros n i j Hn Hi Hj Hij H02 H12. rewrite Hent by done.
    cases_lt4 i Hi; cases_lt4 j Hj; try done; unfold pinhole_entry, eye; simpl; ring.
  - rewrite Hent by lia. reflexivity.
  - rewrite Hent by lia. reflexivity.
Qed.

Lemma pinhole_matrix_entries_witness :
  shape p1 = [1; 12]
  /\ exists k, pinhole_matrix p1 default_eps = Ok k
       /\ entry k 0 0 0 = 500%Q /\ entry k 0 0 2 = 320%Q
       /\ entry k 0 1 1 = 600%Q /\ entry k 0 1 2 = 240%Q
       /\ (entry k 0 0 1 == default_eps)%Q
       /\ (entry k 0 2 2 == 1 + default_eps)%Q.
Proof.
  split; [reflexivity|].
  destruct (pinhole_matrix_entries p1 default_eps 1 eq_refl)
    as (k & Hk & _ & _ & _ & Hf & Hoff & Hdiag).
  exists k. destruct (Hf 0 ltac:(lia)) as (? & ? & ? & ?).
  repeat split; try done.
  - apply Hoff; try lia; discriminate.
  - apply Hdiag. lia.
Defined.

Lemma inverse_pinhole_matrix_ok (p : tensor) (eps : Q) (N : nat) :
  shape p = [N; 12] ->
  exists k, inverse_pinhole_matrix p eps = Ok k
    /\ shape k = [N; 4; 4]
    /\ length (data k) = N * 16
    /\ forall n i j, n < N -> i < 4 -> j < 4 ->
         entry k n i j = inverse_entry p eps n i j.
Proof.
  intros Hs. unfold inverse_pinhole_matrix. rewrite Hs, is_Nx12_shape.
  cbn [rbind py_assert nth].
  eexists. split; [reflexivity|]. split; [done|]. split.
  { rewrite !length_assign_ij. cbn [data]. apply length_tabulate. }
  intros n i j Hn Hi Hj.
  assert (Hpos : n * 16 + (i * 4 + j) < N * 16) by lia.
  rewrite !entry_assign_ij
    by (rewrite ?length_assign_ij; cbn [data]; rewrite ?length_tabulate; lia).
  rewrite !(nth_zip_with_lt _ _ _ n 0%Q 0%Q 0%Q)
    by (rewrite (length_column p N); done).
  rewrite !(nth_map_lt _ _ n 0%Q 0%Q) by (rewrite (length_column p N); done).
  rewrite !(nth_column p N) by done.
  unfold entry, elt. cbn [data].
  rewrite nth_tabulate by lia.
  rewrite <- !Nat.add_assoc, block_mod by lia.
  cases_lt4 i Hi; cases_lt4 j Hj; reflexivity.
Qed.



(** ** Inverse times forward matrix *)

Lemma pos_split (n i j : nat) : n * 16 + i * 4 + j = (n * 4 + i) * 4 + j.
Proof. lia. Qed.

Lemma matmul_entry (x y : tensor) (N : nat) :
  shape x = [N; 4; 4] -> shape y = [N; 4; 4] ->
  exists z, matmul x y = Ok z
    /\ shape z = [N; 4; 4]
    /\ forall n i j, n < N -> i < 4 -> j < 4 ->
         entry z n i j
         = dot 4 (fun k => entry x n i k) (fun k => entry y n k j).
Proof.
  intros Hx Hy. unfold matmul. rewrite Hx, Hy, Nat.eqb_refl. cbn [andb Nat.eqb].
  eexists. split; [reflexivity|]. split; [done|].
  intros n i j Hn Hi Hj. unfold entry at 1. unfold elt at 1. cbn [data].
  rewrite nth_tabulate by lia.
  assert (Hm : (n * 16 + i * 4 + j) / (4 * 4) = n).
  { rewrite <- Nat.add_assoc. apply block_div. lia. }
  assert (Hr : ((n * 16 + i * 4 + j) / 4) mod 4 = i).
  { rewrite pos_split, block_div by done. by apply block_mod. }
  assert (Hc : (n * 16 + i * 4 + j) mod 4 = j).
  { rewrite pos_split. by apply block_mod. }
  rewrite Hm, Hr, Hc. reflexivity.
Qed.

(** A deviation [eps * u / d] is within the tolerance as soon as
    [eps * (1 + |c|)] is at most the tolerance times [|d|] and [|u|] is at
    most [1 + |c|]. *)
Lemma small_deviation (d eps c u x : Q) :
  ~ (d == 0)%Q -> (0 <= eps)%Q ->
  (eps * (1 + Qabs c) <= tolerance * Qabs d)%Q ->
  (Qabs u <= 1 + Qabs c)%Q ->
  (x * d == eps * u)%Q ->
  (Qabs x <= tolerance)%Q.
Proof.
  intros Hd Heps Hbound Hu Hx.
  assert (Hpos : (0 < Qabs d)%Q).
  { destruct (Qlt_le_dec 0 (Qabs d)) as [|Hle]; [done|].
    exfalso. apply Hd. apply Qabs_Qle_condition in Hle. lra. }
  apply (Qmult_le_r _ _ (Qabs d)); [done|].
  rewrite <- Qabs_Qmult, Hx, Qabs_Qmult, (Qabs_pos eps) by done.
  apply Qle_trans with (eps * (1 + Qabs c))%Q; [|done].
  rewrite !(Qmult_comm eps). by apply Qmult_le_compat_r.
Qed.

Lemma Qabs_one_plus (c : Q) : (Qabs (- (1 + c)) <= 1 + Qabs c)%Q.
Proof.
  pose proof (Qle_Qabs c). pose proof (Qle_Qabs (- c)) as H'.
  rewrite Qabs_opp in H'. apply Qabs_case; intros; lra.
Qed.

Lemma Qabs_one_minus (c : Q) : (Qabs (1 - c) <= 1 + Qabs c)%Q.
Proof.
  pose proof (Qle_Qabs c). pose proof (Qle_Qabs (- c)) as H'.
  rewrite Qabs_opp in H'. apply Qabs_case; intros; lra.
Qed.

Lemma Qabs_neg_le (c : Q) : (Qabs (- c) <= 1 + Qabs c)%Q.
Proof. rewrite Qabs_opp. lra. Qed.




(** ** Running the primitives *)

Lemma bind_ok {A B} (m : M A) (k : A -> M B) st a st' :
  m st = (Ok a, st') -> bind m k st = k a st'.
Proof. intros H. unfold bind. by rewrite H. Qed.

Lemma read_ok l t st : tensors st !! l = Some t -> read l st = (Ok t, st).
Proof. intros H. unfold read. by rewrite H. Qed.

Lemma getobj_ok r o st : objects st !! r = Some o -> getobj r st = (Ok o, st).
Proof. intros H. unfold getobj. by rewrite H. Qed.

Lemma tensor_clone_ok l t st :
  tensors st !! l = Some t ->
  tensor_clone l st
  = (Ok (length (tensors st)), State (tensors st ++ [t]) (objects st)).
Proof. intros H. unfold tensor_clone. by rewrite (bind_ok _ _ _ _ _ (read_ok _ _ _ H)). Qed.

Lemma get_height_ok r o st :
  objects st !! r = Some o -> PinholeCamera.get_height r st = (Ok (height o), st).
Proof.
  intros H. unfold PinholeCamera.get_height.
  by rewrite (bind_ok _ _ _ _ _ (getobj_ok _ _ _ H)).
Qed.

Lemma get_width_ok r o st :
  objects st !! r = Some o -> PinholeCamera.get_width r st = (Ok (width o), st).
Proof.
  intros H. unfold PinholeCamera.get_width.
  by rewrite (bind_ok _ _ _ _ _ (getobj_ok _ _ _ H)).
Qed.

Lemma intrinsics_ok r o t st :
  objects st !! r = Some o -> tensors st !! _intrinsics o = Some t ->
  PinholeCamera.rank_in_3_4 (shape t) = true ->
  PinholeCamera.intrinsics r st = (Ok (_intrinsics o), st).
Proof.
  intros Ho Ht Hr. unfold PinholeCamera.intrinsics.
  rewrite (bind_ok _ _ _ _ _ (getobj_ok _ _ _ Ho)).
  rewrite (bind_ok _ _ _ _ _ (read_ok _ _ _ Ht)).
  unfold PinholeCamera.assert_true. rewrite check_valid_params_rank, Hr. done.
Qed.

Lemma extrinsics_ok r o t st :
  objects st !! r = Some o -> tensors st !! _extrinsics o = Some t ->
  PinholeCamera.rank_in_3_4 (shape t) = true ->
  PinholeCamera.extrinsics r st = (Ok (_extrinsics o), st).
Proof.
  intros Ho Ht Hr. unfold PinholeCamera.extrinsics.
  rewrite (bind_ok _ _ _ _ _ (getobj_ok _ _ _ Ho)).
  rewrite (bind_ok _ _ _ _ _ (read_ok _ _ _ Ht)).
  unfold PinholeCamera.assert_true. rewrite check_valid_params_rank, Hr. done.
Qed.

Lemma params_shape_rank sh b :
  params_shape sh b -> PinholeCamera.rank_in_3_4 sh = true.
Proof. by intros [-> | [n ->]]. Qed.

Lemma params_shape_split sh b :
  params_shape sh b -> split_last2 sh = Some (lead sh, 4, 4).
Proof. by intros [-> | [n ->]]. Qed.

Lemma params_shape_head sh b :
  params_shape sh b -> exists rest, sh = b :: rest.
Proof. intros [-> | [n ->]]; eauto. Qed.

(** The constructor, on arguments that pass its checks. *)
Lemma init_ok (li le lh lw : loc) (ti te th tw : tensor) (b : nat) st :
  tensors st !! li = Some ti -> tensors st !! le = Some te ->
  tensors st !! lh = Some th -> tensors st !! lw = Some tw ->
  b <> 0 ->
  params_shape (shape ti) b -> params_shape (shape te) b ->
  shape th = [b] -> shape tw = [b] ->
  PinholeCamera.__init__ li le lh lw st
  = (Ok (length (objects st)),
     State (tensors st) (objects st ++ [Camera PinholeCameraC lh lw li le])).
Proof.
  intros Hi He Hh Hw Hb Hsi Hse Hsh Hsw. unfold PinholeCamera.__init__.
  rewrite (bind_ok _ _ _ _ _ (read_ok _ _ _ Hi)).
  rewrite (bind_ok _ _ _ _ _ (read_ok _ _ _ He)).
  rewrite (bind_ok _ _ _ _ _ (read_ok _ _ _ Hh)).
  rewrite (bind_ok _ _ _ _ _ (read_ok _ _ _ Hw)).
  rewrite check_valid_nonzero.
  2:{ destruct (params_shape_head _ _ Hsi) as [ri Hri].
      destruct (params_shape_head _ _ Hse) as [re Hre].
      repeat constructor; eauto. }
  rewrite !check_valid_params_rank.
  rewrite (params_shape_rank _ _ Hsi), (params_shape_rank _ _ Hse).
  unfold PinholeCamera._check_valid_shape. rewrite Hsh, Hsw. done.
Qed.

(** ** [clone] *)

Lemma lookup_app_at {A} (l1 l2 : list A) (k : nat) :
  (l1 ++ l2) !! (length l1 + k) = l2 !! k.
Proof. rewrite lookup_app_r by lia. f_equal. lia. Qed.

Lemma lookup_app_at0 {A} (l1 l2 : list A) :
  (l1 ++ l2) !! (length l1) = l2 !! 0.
Proof. rewrite <- (Nat.add_0_r (length l1)) at 1. apply lookup_app_at. Qed.

Lemma lookup_app_old {A} (l1 l2 : list A) (i : nat) (x : A) :
  l1 !! i = Some x -> (l1 ++ l2) !! i = Some x.
Proof. intros H. rewrite lookup_app_l; [done|]. by eapply lookup_lt_Some. Qed.

(** Validity only depends on the object and on the four tensors. *)
Lemma valid_camera_frame st st' c o b ti te th tw :
  valid_camera st c o b ti te th tw ->
  objects st' !! c = Some o ->
  (forall l, l ∈ camera_locs o -> tensors st' !! l = tensors st !! l) ->
  valid_camera st' c o b ti te th tw.
Proof.
  intros [] Ho Ht. unfold camera_locs in Ht.
  constructor; try done; rewrite Ht; try done;
    repeat first [apply list_elem_of_here | apply list_elem_of_further].
Qed.

(** One step of a run: the first computation of a [bind] returns. *)
Ltac step tac :=
  erewrite bind_ok; cycle 1;
  [ solve [tac] | cbn [tensors objects] ].

Ltac old_tensor :=
  cbn [tensors objects]; repeat apply lookup_app_old; eassumption.

Lemma clone_run st c o b ti te th tw :
  valid_camera st c o b ti te th tw ->
  let n := length (tensors st) in
  PinholeCamera.clone c st
  = (Ok (length (objects st)),
     State (tensors st ++ [th; tw; ti; te])
           (objects st ++ [Camera PinholeCameraC n (n + 1) (n + 2) (n + 3)])).
Proof.
  intros Hv n. destruct Hv.
  assert (Hri := params_shape_rank _ _ vc_shape_i0).
  assert (Hre := params_shape_rank _ _ vc_shape_e0).
  unfold PinholeCamera.clone.
  step ltac:(eapply get_height_ok; eassumption).
  step ltac:(eapply tensor_clone_ok; eassumption).
  step ltac:(eapply get_width_ok; eassumption).
  step ltac:(eapply tensor_clone_ok; old_tensor).
  step ltac:(eapply intrinsics_ok; [eassumption | old_tensor | done]).
  step ltac:(eapply tensor_clone_ok; old_tensor).
  step ltac:(eapply extrinsics_ok; [eassumption | old_tensor | done]).
  step ltac:(eapply tensor_clone_ok; old_tensor).
  rewrite !length_app. cbn [length].
  rewrite <- !app_assoc. cbn [app].
  erewrite (init_ok _ _ _ _ ti te th tw b); cbn [tensors objects]; try done.
  - subst n. rewrite <- !Nat.add_assoc. reflexivity.
  - replace (length (tensors st) + 1 + 1) with (length (tensors st) + 2) by lia.
    by rewrite lookup_app_at.
  - replace (length (tensors st) + 1 + 1 + 1) with (length (tensors st) + 3) by lia.
    by rewrite lookup_app_at.
  - by rewrite lookup_app_at0.
  - by rewrite lookup_app_at.
Qed.

Lemma write_all_frame (ws : list (loc * tensor)) (ts : list tensor) (l : loc) :
  Forall (fun w => fst w <> l) ws -> write_all ws ts !! l = ts !! l.
Proof.
  unfold write_all. revert ts. induction ws as [|[l' t'] ws IH]; intros ts H; [done|].
  inversion H as [|? ? Hne Hrest]; subst. cbn [fold_left fst snd] in *.
  rewrite IH by done. by apply list_lookup_insert_ne.
Qed.

(** The clone is a valid camera with the values of the original. *)
Lemma clone_valid st c o b ti te th tw :
  valid_camera st c o b ti te th tw ->
  let n := length (tensors st) in
  let o' := Camera PinholeCameraC n (n + 1) (n + 2) (n + 3) in
  valid_camera (State (tensors st ++ [th; tw; ti; te]) (objects st ++ [o']))
    (length (objects st)) o' b ti te th tw.
Proof.
  intros Hvalid n o'. destruct Hvalid. unfold o', n.
  constructor; cbn [tensors objects height width _intrinsics _extrinsics];
    try done.
  - by rewrite lookup_app_at0.
  - by rewrite lookup_app_at.
  - by rewrite lookup_app_at.
  - by rewrite lookup_app_at0.
  - by rewrite lookup_app_at.
Qed.

Lemma st1_valid : valid_camera st1 0 cam1 1 K1 E1 H1 W1.
Proof. constructor; try done; by left. Qed.

Lemma valid_camera_locs_allocated st c o b ti te th tw l :
  valid_camera st c o b ti te th tw -> l ∈ camera_locs o ->
  l < length (tensors st).
Proof.
  intros [] Hl. unfold camera_locs in Hl.
  repeat (apply elem_of_cons in Hl as [-> | Hl]); try (by eapply lookup_lt_Some).
  by apply elem_of_nil in Hl.
Qed.

(** C9.  [clone] returns a new camera object whose intrinsics,
    extrinsics, height and width have the values of the original's and
    are held at four new locations of the store, none of them a location
    of the original; whatever is then written to the clone's tensors, and
    whatever its attributes are bound to, the original keeps its
    attributes and their values. *)
Theorem clone_independent (st : state) (c : ref) (o : camera) (b : nat)
    (ti te th tw : tensor)
    (Hvalid : valid_camera st c o b ti te th tw) :
  exists c' o' st',
    PinholeCamera.clone c st = (Ok c', st')
    /\ objects st !! c' = None
    /\ cls o' = PinholeCameraC
    /\ valid_camera st' c' o' b ti te th tw
    /\ valid_camera st' c o b ti te th tw
    /\ NoDup (camera_locs o')
    /\ (forall l, l ∈ camera_locs o' ->
          tensors st !! l = None /\ l ∉ camera_locs o)
    /\ (forall ws, Forall (fun w => fst w ∈ camera_locs o') ws ->
          valid_camera (State (write_all ws (tensors st')) (objects st'))
            c o b ti te th tw)
    /\ (forall o'',
          valid_camera (State (tensors st') (<[c' := o'']> (objects st')))
            c o b ti te th tw).
Proof.
  pose proof (clone_run _ _ _ _ _ _ _ _ Hvalid) as Hrun. cbn zeta in Hrun.
  set (n := length (tensors st)) in *.
  set (o' := Camera PinholeCameraC n (n + 1) (n + 2) (n + 3)) in *.
  assert (Hc : c < length (objects st)).
  { destruct Hvalid. by eapply lookup_lt_Some. }
  assert (Hfresh : forall l, l ∈ camera_locs o' -> n <= l).
  { intros l Hl. unfold camera_locs, o' in Hl. cbn in Hl.
    repeat (apply elem_of_cons in Hl as [-> | Hl]); try lia.
    by apply elem_of_nil in Hl. }
  assert (Hold : forall l, l ∈ camera_locs o -> l < n).
  { intros l Hl. by eapply valid_camera_locs_allocated. }
  assert (Horig : valid_camera
            (State (tensors st ++ [th; tw; ti; te]) (objects st ++ [o']))
            c o b ti te th tw).
  { eapply valid_camera_frame; [exact Hvalid| |]; cbn [tensors objects].
    - destruct Hvalid. by apply lookup_app_old.
    - intros l Hl. apply lookup_app_l. by apply Hold. }
  eexists _, o', _. split; [exact Hrun|].
  split; [by apply lookup_ge_None|]. split; [done|].
  split; [exact (clone_valid _ _ _ _ _ _ _ _ Hvalid)|].
  split; [exact Horig|].
  split.
  { unfold camera_locs, o'. cbn.
    repeat (apply NoDup_cons; split;
            [rewrite ?not_elem_of_cons, ?elem_of_nil; repeat split; try lia; tauto|]).
    apply NoDup_nil. done. }
  split.
  { intros l Hl. split.
    - apply lookup_ge_None. by apply Hfresh.
    - intros Hl'. apply Hold in Hl'. apply Hfresh in Hl. lia. }
  split.
  - intros ws Hws. eapply valid_camera_frame; [exact Horig|by destruct Horig|].
    cbn [tensors objects]. intros l Hl. apply write_all_frame.
    eapply Forall_impl; [exact Hws|]. intros [l' t'] Hl' Heq.
    cbn [fst] in Hl', Heq. subst l'.
    apply Hold in Hl. apply Hfresh in Hl'. lia.
  - intros o''. eapply valid_camera_frame; [exact Horig| |done].
    cbn [tensors objects]. rewrite list_lookup_insert_ne by lia.
    destruct Horig. done.
Qed.

Lemma clone_independent_witness :
  valid_camera st1 0 cam1 1 K1 E1 H1 W1
  /\ exists c' o' st',
       PinholeCamera.clone 0 st1 = (Ok c', st')
       /\ valid_camera st' c' o' 1 K1 E1 H1 W1
       /\ valid_camera st' 0 cam1 1 K1 E1 H1 W1.
Proof.
  split; [exact st1_valid|].
  destruct (clone_independent st1 0 cam1 1 K1 E1 H1 W1 st1_valid)
    as (c' & o' & st' & Hrun & _ & _ & Hclone & Horig & _).
  exists c', o', st'. done.
Defined.

(** The in-place scaling of a clone, run on the camera of [st1]: the
    clone's tensors are doubled, those of the original are as before. *)
Example clone_then_scale_inplace :
  exists c' st' st'',
    PinholeCamera.clone 0 st1 = (Ok c', st')
    /\ PinholeCamera.scale_ c' (FNum 2) st' = (Ok c', st'')
    /\ camera_tensors st'' 0 = Some (K1, E1, H1, W1)
    /\ camera_tensors st'' c' = Some (K2, E1, H2, W2).
Proof. eexists _, _, _. repeat split. Qed.

(** ** Broadcasting and in-place multiplication *)

Lemma compat_bshape (s v : list nat) :
  compat_rev s v = true -> bshape_rev s v = Some v.
Proof.
  revert v. induction s as [|m s IH]; intros [|n v] H; cbn in *; try done.
  apply andb_prop in H as [Hmn Hrest]. rewrite (IH _ Hrest).
  destruct (Nat.eqb_spec m n) as [->|Hne]; [done|].
  cbn in Hmn. by rewrite Hmn.
Qed.

Lemma src_index_id (v : list nat) (k : nat) :
  k < numel v -> src_index v v k = k.
Proof.
  revert k. induction v as [|m v IH]; intros k Hk; [cbn in *; lia|].
  change (numel (m :: v)) with (m * numel v) in Hk. cbn [src_index].
  assert (Hm : m <> 0) by (intros ->; lia).
  rewrite IH.
  2:{ apply Nat.Div0.div_lt_upper_bound. lia. }
  destruct (Nat.eqb_spec m 1) as [->|Hne].
  - rewrite Nat.div_1_r. lia.
  - pose proof (Nat.div_mod_eq k m). lia.
Qed.

Lemma length_expand s vs : length (expand s vs) = numel vs.
Proof. apply length_tabulate. Qed.

Lemma length_fvals st f vs :
  broadcastable st f vs -> length (fvals st f vs) = numel vs.
Proof.
  destruct f as [q|l]; unfold broadcastable, fvals.
  - intros _. apply length_tabulate.
  - intros (s & -> & _). apply length_expand.
Qed.

Lemma factor_onto_ok st f vs :
  broadcastable st f vs -> factor_onto f vs st = (Ok (fvals st f vs), st).
Proof.
  destruct f as [q|l]; unfold broadcastable, fvals, factor_onto; [done|].
  intros (s & Hs & Hc). rewrite (bind_ok _ _ _ _ _ (read_ok _ _ _ Hs)).
  by rewrite Hs, Hc.
Qed.

(** A factor read in a later state that kept the tensors of [st]. *)
Lemma factor_later st st' f vs :
  (forall l t, tensors st !! l = Some t -> tensors st' !! l = Some t) ->
  broadcastable st f vs ->
  broadcastable st' f vs /\ fvals st' f vs = fvals st f vs.
Proof.
  intros Hext. destruct f as [q|l]; unfold broadcastable, fvals; [done|].
  intros (s & Hs & Hc). rewrite (Hext _ _ Hs), Hs. eauto.
Qed.

Lemma imul_ij_run st l t vs r c i j f :
  tensors st !! l = Some t ->
  split_last2 (shape t) = Some (vs, r, c) ->
  i < r -> j < c ->
  broadcastable st f vs ->
  imul_ij l i j f st
  = (Ok tt, State (<[l := mul_ij t r c i j (fvals st f vs)]> (tensors st))
                  (objects st)).
Proof.
  intros Ht Hsp Hi Hj Hf. unfold imul_ij.
  rewrite (bind_ok _ _ _ _ _ (read_ok _ _ _ Ht)), Hsp.
  apply Nat.ltb_lt in Hi, Hj. rewrite Hi, Hj. cbn [andb].
  by rewrite (bind_ok _ _ _ _ _ (factor_onto_ok _ _ _ Hf)).
Qed.

Lemma imul_run st l t f :
  tensors st !! l = Some t ->
  broadcastable st f (shape t) ->
  imul l f st
  = (Ok tt, State (<[l := mul_all t (fvals st f (shape t))]> (tensors st))
                  (objects st)).
Proof.
  intros Ht Hf. unfold imul.
  rewrite (bind_ok _ _ _ _ _ (read_ok _ _ _ Ht)).
  by rewrite (bind_ok _ _ _ _ _ (factor_onto_ok _ _ _ Hf)).
Qed.

Lemma zip_with_tabulate (f : Q -> Q -> Q) (n : nat) (g : nat -> Q) (l : list Q) :
  length l = n ->
  zip_with f (tabulate n g) l = tabulate n (fun k => f (g k) (nth k l 0%Q)).
Proof.
  intros Hl. apply (nth_ext _ _ 0%Q 0%Q).
  - rewrite length_zip_with, !length_tabulate. lia.
  - intros k Hk. rewrite length_zip_with, length_tabulate in Hk.
    rewrite (nth_zip_with_lt _ _ _ _ 0%Q 0%Q) by (rewrite ?length_tabulate; lia).
    rewrite !nth_tabulate by lia. done.
Qed.

Lemma zip_with_tabulate' (f : Q -> Q -> Q) (n : nat) (g : nat -> Q) (l : list Q) :
  length l = n ->
  zip_with f l (tabulate n g) = tabulate n (fun k => f (nth k l 0%Q) (g k)).
Proof.
  intros Hl. apply (nth_ext _ _ 0%Q 0%Q).
  - rewrite length_zip_with, !length_tabulate. lia.
  - intros k Hk. rewrite length_zip_with, length_tabulate in Hk.
    rewrite (nth_zip_with_lt _ _ _ _ 0%Q 0%Q) by (rewrite ?length_tabulate; lia).
    rewrite !nth_tabulate by lia. done.
Qed.

(** [f * t] for a tensor of shape [[b]] and a factor that broadcasts
    onto it: the new tensor is [t] scaled by the factor. *)
Lemma rmul_run st l t b f :
  tensors st !! l = Some t ->
  shape t = [b] -> tensor_wf t ->
  broadcastable st f [b] ->
  rmul f l st
  = (Ok (length (tensors st)),
     State (tensors st ++ [scaled (fvals st f [b]) t]) (objects st)).
Proof.
  intros Ht Hsh Hwf Hf. unfold rmul.
  rewrite (bind_ok _ _ _ _ _ (read_ok _ _ _ Ht)).
  assert (Hlen : length (data t) = b).
  { unfold tensor_wf in Hwf. rewrite Hsh in Hwf. cbn in Hwf. lia. }
  destruct f as [q|ls]; cbn [fvals].
  - unfold alloc, scaled. do 4 f_equal.
    rewrite zip_with_tabulate by (cbn; lia).
    cbn [numel fold_right]. rewrite Nat.mul_1_r.
    rewrite <- (tabulate_nth (data t)) at 1. rewrite Hlen.
    unfold tabulate. by rewrite map_map.
  - destruct Hf as (s & Hs & Hc). rewrite Hs.
    rewrite (bind_ok _ _ _ _ _ (read_ok _ _ _ Hs)).
    unfold broadcast_shapes. rewrite Hsh. cbn [rev app] in *.
    rewrite (compat_bshape _ _ Hc). cbn [rev app].
    unfold alloc, scaled, bmul, expand. rewrite Hsh. cbn [rev app].
    do 4 f_equal.
    rewrite zip_with_tabulate by (cbn; lia).
    f_equal. apply tabulate_ext. intros k Hk. f_equal.
    unfold elt. f_equal. by apply src_index_id.
Qed.

(** ** [scale] *)

Lemma insert_at_end {A} (l : list A) (x y : A) (rest : list A) :
  <[length l := x]> (l ++ y :: rest) = l ++ x :: rest.
Proof. induction l as [|a l IH]; cbn; [done|]. f_equal. exact IH. Qed.

Lemma broadcastable_allocated st f vs :
  broadcastable st f vs -> factor_allocated st f.
Proof.
  destruct f as [q|l]; unfold broadcastable, factor_allocated; [done|].
  intros (s & Hs & _). by eapply lookup_lt_Some.
Qed.

Lemma fvals_app st L O f vs :
  factor_allocated st f ->
  fvals (State (tensors st ++ L) O) f vs = fvals st f vs.
Proof.
  destruct f as [q|l]; unfold factor_allocated, fvals; [done|].
  intros Hl. cbn [tensors]. by rewrite lookup_app_l.
Qed.

Lemma broadcastable_app st L O f vs :
  broadcastable st f vs ->
  broadcastable (State (tensors st ++ L) O) f vs.
Proof.
  destruct f as [q|l]; unfold broadcastable; [done|].
  intros (s & Hs & Hc). exists s. split; [|done].
  cbn [tensors]. by apply lookup_app_old.
Qed.

Lemma shape_mul_ij t r c i j fv : shape (mul_ij t r c i j fv) = shape t.
Proof. done. Qed.

Lemma length_mul_ij t r c i j fv :
  length (data (mul_ij t r c i j fv)) = length (data t).
Proof. unfold mul_ij. cbn [data]. apply length_tabulate. Qed.

Lemma shape_scale_intrinsics t fv : shape (scale_intrinsics t fv) = shape t.
Proof. done. Qed.

Lemma wf_scale_intrinsics t fv : tensor_wf t -> tensor_wf (scale_intrinsics t fv).
Proof.
  unfold tensor_wf, scale_intrinsics. intros H.
  by rewrite !length_mul_ij, !shape_mul_ij.
Qed.

Lemma wf_scaled fv t :
  length fv = length (data t) -> tensor_wf t -> tensor_wf (scaled fv t).
Proof.
  unfold tensor_wf, scaled. cbn [shape data]. intros Hl Hwf.
  rewrite length_zip_with. lia.
Qed.

(** Normal form of the states met along a run: the initial tensors
    followed by the new ones. *)
Ltac norm :=
  rewrite ?length_app; cbn [length];
  rewrite <- ?app_assoc; cbn [app];
  rewrite ?insert_at_end.

Ltac new_tensor :=
  cbn [tensors objects];
  first [ rewrite lookup_app_at0; reflexivity
        | rewrite lookup_app_at; reflexivity ].

Lemma scale_run st c o b ti te th tw f :
  valid_camera st c o b ti te th tw ->
  broadcastable st f (lead (shape ti)) ->
  broadcastable st f [b] ->
  let n := length (tensors st) in
  PinholeCamera.scale c f st
  = (Ok (length (objects st)),
     State (tensors st ++
              [scale_intrinsics ti (fvals st f (lead (shape ti)));
               th; scaled (fvals st f [b]) th;
               tw; scaled (fvals st f [b]) tw])
           (objects st ++ [Camera PinholeCameraC (n + 2) (n + 4) n (_extrinsics o)])).
Proof.
  intros Hv Hfi Hfb n. destruct Hv.
  assert (Hri := params_shape_rank _ _ vc_shape_i0).
  assert (Hre := params_shape_rank _ _ vc_shape_e0).
  assert (Hsp := params_shape_split _ _ vc_shape_i0).
  assert (Hfa := broadcastable_allocated _ _ _ Hfb).
  unfold PinholeCamera.scale.
  step ltac:(eapply intrinsics_ok; eassumption).
  step ltac:(eapply tensor_clone_ok; eassumption).
  step ltac:(eapply imul_ij_run;
             [new_tensor | eassumption | lia | lia | by apply broadcastable_app]).
  norm. rewrite fvals_app by done.
  step ltac:(eapply imul_ij_run;
             [new_tensor | eassumption | lia | lia | by apply broadcastable_app]).
  norm. rewrite fvals_app by done.
  step ltac:(eapply imul_ij_run;
             [new_tensor | eassumption | lia | lia | by apply broadcastable_app]).
  norm. rewrite fvals_app by done.
  step ltac:(eapply imul_ij_run;
             [new_tensor | eassumption | lia | lia | by apply broadcastable_app]).
  norm. rewrite fvals_app by done.
  step ltac:(eapply get_height_ok; eassumption).
  step ltac:(eapply tensor_clone_ok; old_tensor).
  norm.
  step ltac:(eapply (rmul_run _ _ th b);
             [new_tensor | done | done | by apply broadcastable_app]).
  norm. rewrite fvals_app by done.
  step ltac:(eapply get_width_ok; eassumption).
  step ltac:(eapply tensor_clone_ok; old_tensor).
  norm.
  step ltac:(eapply (rmul_run _ _ tw b);
             [new_tensor | done | done | by apply broadcastable_app]).
  norm. rewrite fvals_app by done.
  step ltac:(eapply extrinsics_ok; [eassumption | old_tensor | done]).
  fold (scale_intrinsics ti (fvals st f (lead (shape ti)))).
  erewrite (init_ok _ _ _ _ (scale_intrinsics ti _) te (scaled _ th) (scaled _ tw) b);
    cbn [tensors objects]; try done.
  - new_tensor.
  - old_tensor.
  - new_tensor.
  - new_tensor.
Qed.

Lemma elt_mul_ij t r c i j fv k :
  k < length (data t) ->
  elt (mul_ij t r c i j fv) k
  = if k mod (r * c) =? i * c + j
    then (elt t k * nth (k / (r * c)) fv 0)%Q
    else elt t k.
Proof. intros Hk. unfold elt at 1, mul_ij. cbn [data]. by rewrite nth_tabulate. Qed.

(** The four products touch positions 0, 5, 2 and 6 of each [4 x 4]
    block, once each, and nothing else. *)
Lemma elt_scale_intrinsics t fv n p :
  n * 16 + p < length (data t) -> p < 16 ->
  elt (scale_intrinsics t fv) (n * 16 + p)
  = if (p =? 0) || (p =? 5) || (p =? 2) || (p =? 6)
    then (elt t (n * 16 + p) * nth n fv 0)%Q
    else elt t (n * 16 + p).
Proof.
  intros Hlen Hp. unfold scale_intrinsics.
  rewrite !elt_mul_ij by (rewrite ?length_mul_ij; done).
  change (4 * 4) with 16. rewrite block_mod, block_div by done.
  do 16 (destruct p as [|p]; [reflexivity|]). lia.
Qed.

Lemma params_numel sh b :
  params_shape sh b -> numel sh = numel (lead sh) * 16.
Proof. intros [-> | [n ->]]; cbn; lia. Qed.

Lemma view_ij_params t b i j :
  params_shape (shape t) b -> i < 4 -> j < 4 ->
  view_ij t i j
  = Ok (Tensor (lead (shape t))
          (tabulate (numel (lead (shape t)))
             (fun n => elt t (n * 16 + (i * 4 + j))))).
Proof.
  intros Hs Hi Hj. unfold view_ij. rewrite (params_shape_split _ _ Hs).
  apply Nat.ltb_lt in Hi, Hj. rewrite Hi, Hj. cbn [andb].
  do 2 f_equal. apply tabulate_ext. intros n _. f_equal. lia.
Qed.

Lemma view_scale_intrinsics t b fv i j :
  params_shape (shape t) b -> tensor_wf t ->
  length fv = numel (lead (shape t)) ->
  (i, j) ∈ [(0, 0); (1, 1); (0, 2); (1, 2)] ->
  exists v, view_ij t i j = Ok v
            /\ view_ij (scale_intrinsics t fv) i j = Ok (scaled fv v).
Proof.
  intros Hs Hwf Hfv Hij.
  assert (Hi : i < 4 /\ j < 4
               /\ (i * 4 + j =? 0) || (i * 4 + j =? 5)
                  || (i * 4 + j =? 2) || (i * 4 + j =? 6) = true).
  { repeat (apply elem_of_cons in Hij as [[= -> ->] | Hij]);
      [repeat split; lia ..|]. by apply elem_of_nil in Hij. }
  destruct Hi as (Hi & Hj & Hpos).
  eexists. split; [by eapply view_ij_params|].
  rewrite (view_ij_params _ b) by done.
  rewrite shape_scale_intrinsics. unfold scaled. cbn [shape data]. do 2 f_equal.
  rewrite zip_with_tabulate' by done.
  apply tabulate_ext. intros n Hn.
  rewrite elt_scale_intrinsics, Hpos; [apply Qmult_comm_eq| |lia].
  unfold tensor_wf in Hwf. rewrite Hwf, (params_numel _ _ Hs). lia.
Qed.

Lemma intrinsics_ij_run st c o t i j :
  objects st !! c = Some o -> tensors st !! _intrinsics o = Some t ->
  PinholeCamera.rank_in_3_4 (shape t) = true ->
  PinholeCamera.intrinsics_ij i j c st = (view_ij t i j, st).
Proof.
  intros Ho Ht Hr. unfold PinholeCamera.intrinsics_ij.
  rewrite (bind_ok _ _ _ _ _ (intrinsics_ok _ _ _ _ Ho Ht Hr)).
  by rewrite (bind_ok _ _ _ _ _ (read_ok _ _ _ Ht)).
Qed.

(** The result of [scale] is a valid camera with the scaled values. *)
Lemma scale_valid st c o b ti te th tw f :
  valid_camera st c o b ti te th tw ->
  broadcastable st f (lead (shape ti)) ->
  broadcastable st f [b] ->
  let n := length (tensors st) in
  let fi := fvals st f (lead (shape ti)) in
  let fb := fvals st f [b] in
  let o' := Camera PinholeCameraC (n + 2) (n + 4) n (_extrinsics o) in
  valid_camera
    (State (tensors st ++ [scale_intrinsics ti fi; th; scaled fb th; tw; scaled fb tw])
           (objects st ++ [o']))
    (length (objects st)) o' b
    (scale_intrinsics ti fi) te (scaled fb th) (scaled fb tw).
Proof.
  intros Hvalid Hlead Hbatch n fi fb o'.
  assert (Hfb : length fb = b).
  { unfold fb. rewrite length_fvals by done. cbn. lia. }
  destruct Hvalid. unfold o', n.
  constructor; cbn [tensors objects height width _intrinsics _extrinsics];
    try done.
  - by rewrite lookup_app_at0.
  - by rewrite lookup_app_at0.
  - by apply lookup_app_old.
  - by rewrite lookup_app_at.
  - by rewrite lookup_app_at.
  - by apply wf_scale_intrinsics.
  - apply wf_scaled; [|done]. unfold tensor_wf in vc_wf_h0.
    rewrite vc_wf_h0, vc_shape_h0. cbn. lia.
  - apply wf_scaled; [|done]. unfold tensor_wf in vc_wf_w0.
    rewrite vc_wf_w0, vc_shape_w0. cbn. lia.
Qed.

Lemma st_factor_valid : valid_camera st_factor 0 cam1 1 K1 E1 H1 W1.
Proof. constructor; try done; by left. Qed.

Lemma st_factor_broadcastable : broadcastable st_factor (FTensor 4) [1].
Proof. exists S2. by split. Qed.



(** ** [scale_] *)

Lemma fvals_insert T O l t f vs :
  factor_apart f l ->
  fvals (State (<[l := t]> T) O) f vs = fvals (State T O) f vs.
Proof.
  destruct f as [q|lf]; unfold factor_apart, fvals; [done|].
  intros Hne. cbn [tensors]. by rewrite list_lookup_insert_ne.
Qed.

Lemma fvals_eta st f vs O : fvals (State (tensors st) O) f vs = fvals st f vs.
Proof. by destruct f. Qed.

Lemma broadcastable_eta st f vs O :
  broadcastable st f vs -> broadcastable (State (tensors st) O) f vs.
Proof. by destruct f. Qed.

Lemma broadcastable_insert T O l t f vs :
  factor_apart f l ->
  broadcastable (State T O) f vs ->
  broadcastable (State (<[l := t]> T) O) f vs.
Proof.
  destruct f as [q|lf]; unfold factor_apart, broadcastable; [done|].
  intros Hne (s & Hs & Hc). exists s. split; [|done].
  cbn [tensors] in *. by rewrite list_lookup_insert_ne.
Qed.

Lemma mul_all_scaled t fv :
  length fv = length (data t) -> mul_all t fv = scaled fv t.
Proof.
  intros Hl. unfold mul_all, scaled. f_equal.
  rewrite <- (tabulate_nth (data t)) at 2.
  rewrite zip_with_tabulate' by done.
  apply tabulate_ext. intros k _. apply Qmult_comm_eq.
Qed.

(** A factor that broadcasts onto the batch dimensions of the intrinsics
    is not the intrinsics tensor itself. *)
Lemma factor_apart_intrinsics st l t b f :
  tensors st !! l = Some t -> params_shape (shape t) b ->
  broadcastable st f (lead (shape t)) -> factor_apart f l.
Proof.
  destruct f as [q|lf]; unfold broadcastable, factor_apart; [done|].
  intros Ht Hs (s & Hs' & Hc) ->. rewrite Ht in Hs'. injection Hs' as <-.
  destruct Hs as [Hs | [n Hs]]; rewrite Hs in Hc; cbn in Hc.
  - by rewrite andb_false_r in Hc.
  - by rewrite !andb_false_r in Hc.
Qed.

Lemma set_height_run T O c o :
  O !! c = Some o ->
  PinholeCamera.set_height c (height o) (State T O) = (Ok tt, State T O).
Proof.
  intros Ho. unfold PinholeCamera.set_height.
  erewrite bind_ok by (apply getobj_ok; exact Ho).
  unfold setobj. cbn [tensors objects]. destruct o.
  cbn [cls height width _intrinsics _extrinsics].
  by rewrite list_insert_id.
Qed.

Lemma set_width_run T O c o :
  O !! c = Some o ->
  PinholeCamera.set_width c (width o) (State T O) = (Ok tt, State T O).
Proof.
  intros Ho. unfold PinholeCamera.set_width.
  erewrite bind_ok by (apply getobj_ok; exact Ho).
  unfold setobj. cbn [tensors objects]. destruct o.
  cbn [cls height width _intrinsics _extrinsics].
  by rewrite list_insert_id.
Qed.

Lemma scale__run st c o b ti te th tw f :
  valid_camera st c o b ti te th tw ->
  broadcastable st f (lead (shape ti)) ->
  broadcastable st f [b] ->
  _intrinsics o <> height o -> _intrinsics o <> width o ->
  height o <> width o ->
  factor_apart f (height o) ->
  PinholeCamera.scale_ c f st
  = (Ok c,
     State (<[width o := scaled (fvals st f [b]) tw]>
              (<[height o := scaled (fvals st f [b]) th]>
                 (<[_intrinsics o
                    := scale_intrinsics ti (fvals st f (lead (shape ti)))]>
                    (tensors st))))
           (objects st)).
Proof.
  intros Hv Hfi Hfb Hih Hiw Hhw Hfh.
  assert (Hfa : factor_apart f (_intrinsics o)).
  { destruct Hv. by eapply factor_apart_intrinsics. }
  destruct Hv.
  assert (Hri := params_shape_rank _ _ vc_shape_i0).
  assert (Hsp := params_shape_split _ _ vc_shape_i0).
  assert (Hli := lookup_lt_Some _ _ _ vc_intrinsics0).
  assert (Hlh := lookup_lt_Some _ _ _ vc_height0).
  assert (Hlw := lookup_lt_Some _ _ _ vc_width0).
  assert (Hfbh : broadcastable st f (shape th)) by by rewrite vc_shape_h0.
  assert (Hfbw : broadcastable st f (shape tw)) by by rewrite vc_shape_w0.
  assert (Hlenh : length (fvals st f [b]) = length (data th)).
  { rewrite length_fvals by done. unfold tensor_wf in vc_wf_h0.
    rewrite vc_wf_h0, vc_shape_h0. done. }
  assert (Hlenw : length (fvals st f [b]) = length (data tw)).
  { rewrite length_fvals by done. unfold tensor_wf in vc_wf_w0.
    rewrite vc_wf_w0, vc_shape_w0. done. }
  unfold PinholeCamera.scale_.
  step ltac:(eapply intrinsics_ok; eassumption).
  step ltac:(eapply imul_ij_run; [eassumption | eassumption | lia | lia | done]).
  step ltac:(eapply intrinsics_ok;
             [eassumption | by apply list_lookup_insert_eq | done]).
  step ltac:(eapply imul_ij_run;
             [by apply list_lookup_insert_eq | eassumption | lia | lia
             | by apply broadcastable_insert, broadcastable_eta]).
  rewrite list_insert_insert_eq, fvals_insert, fvals_eta by done.
  step ltac:(eapply intrinsics_ok;
             [eassumption | by apply list_lookup_insert_eq | done]).
  step ltac:(eapply imul_ij_run;
             [by apply list_lookup_insert_eq | eassumption | lia | lia
             | by apply broadcastable_insert, broadcastable_eta]).
  rewrite list_insert_insert_eq, fvals_insert, fvals_eta by done.
  step ltac:(eapply intrinsics_ok;
             [eassumption | by apply list_lookup_insert_eq | done]).
  step ltac:(eapply imul_ij_run;
             [by apply list_lookup_insert_eq | eassumption | lia | lia
             | by apply broadcastable_insert, broadcastable_eta]).
  rewrite list_insert_insert_eq, fvals_insert, fvals_eta by done.
  fold (scale_intrinsics ti (fvals st f (lead (shape ti)))).
  step ltac:(eapply get_height_ok; eassumption).
  step ltac:(eapply (imul_run _ _ th);
             [cbn [tensors]; by rewrite list_lookup_insert_ne
             | by apply broadcastable_insert, broadcastable_eta]).
  rewrite fvals_insert, fvals_eta, vc_shape_h0, mul_all_scaled by done.
  step ltac:(eapply set_height_run; eassumption).
  step ltac:(eapply get_width_ok; eassumption).
  step ltac:(eapply (imul_run _ _ tw);
             [cbn [tensors]; by rewrite !list_lookup_insert_ne
             | by apply broadcastable_insert, broadcastable_insert,
                        broadcastable_eta]).
  rewrite !fvals_insert, fvals_eta, vc_shape_w0, mul_all_scaled by done.
  step ltac:(eapply set_width_run; eassumption).
  reflexivity.
Qed.

Lemma valid_camera_tensors st c o b ti te th tw :
  valid_camera st c o b ti te th tw ->
  camera_tensors st c = Some (ti, te, th, tw).
Proof.
  intros []. unfold camera_tensors.
  by rewrite vc_obj0, vc_intrinsics0, vc_extrinsics0, vc_height0, vc_width0.
Qed.

Lemma NoDup_camera_locs o :
  NoDup (camera_locs o) ->
  _intrinsics o <> _extrinsics o /\ _intrinsics o <> height o
  /\ _intrinsics o <> width o /\ _extrinsics o <> height o
  /\ _extrinsics o <> width o /\ height o <> width o.
Proof.
  unfold camera_locs. intros H.
  apply NoDup_cons in H as [H1 H]. apply NoDup_cons in H as [H2 H].
  apply NoDup_cons in H as [H3 _].
  repeat rewrite not_elem_of_cons in H1.
  repeat rewrite not_elem_of_cons in H2.
  repeat rewrite not_elem_of_cons in H3. tauto.
Qed.

(** [scale] applied to a clone: the run and its result. *)
Lemma scale_of_clone_valid st c o b ti te th tw f :
  valid_camera st c o b ti te th tw ->
  broadcastable st f (lead (shape ti)) ->
  broadcastable st f [b] ->
  exists c2 o2 st2,
    scale_of_clone c f st = (Ok c2, st2)
    /\ valid_camera st2 c2 o2 b
         (scale_intrinsics ti (fvals st f (lead (shape ti)))) te
         (scaled (fvals st f [b]) th) (scaled (fvals st f [b]) tw).
Proof.
  intros Hv Hfi Hfb.
  assert (Hfa := broadcastable_allocated _ _ _ Hfb).
  pose proof (clone_run _ _ _ _ _ _ _ _ Hv) as Hclone.
  pose proof (clone_valid _ _ _ _ _ _ _ _ Hv) as Hv1.
  cbn zeta in Hclone, Hv1.
  set (st1 := State (tensors st ++ [th; tw; ti; te]) _) in *.
  assert (Hfi1 : broadcastable st1 f (lead (shape ti)))
    by by apply broadcastable_app.
  assert (Hfb1 : broadcastable st1 f [b]) by by apply broadcastable_app.
  pose proof (scale_run _ _ _ _ _ _ _ _ _ Hv1 Hfi1 Hfb1) as Hscale.
  pose proof (scale_valid _ _ _ _ _ _ _ _ _ Hv1 Hfi1 Hfb1) as Hv2.
  cbn zeta in Hscale, Hv2.
  subst st1. rewrite !fvals_app in Hscale, Hv2 by done.
  eexists _, _, _. split; [|exact Hv2].
  unfold scale_of_clone. by rewrite (bind_ok _ _ _ _ _ Hclone).
Qed.



Lemma st_square_valid : valid_camera st_square 0 cam_square 1 K1 E1 H1 H1.
Proof. constructor; try done; by left. Qed.


(** ** Stacking and slicing *)

Lemma norm_index_nat (i n : nat) : i < n -> norm_index (Z.of_nat i) n = Some i.
Proof.
  intros Hi. unfold norm_index.
  destruct (Z.leb_spec 0 (Z.of_nat i)); [|lia].
  destruct (Z.ltb_spec (Z.of_nat i) (Z.of_nat n)); [|lia].
  cbn [andb]. by rewrite Nat2Z.id.
Qed.

Lemma nth_lookup_default {A} (l : list A) (i : nat) (x d : A) :
  l !! i = Some x -> nth i l d = x.
Proof.
  revert i. induction l as [|a l IH]; intros [|i] H; try done.
  - by injection H.
  - by apply IH.
Qed.

Lemma torch_stack1_run (b : nat) (rest : list nat) (ts : list tensor) :
  ts <> [] -> Forall (fun t => shape t = b :: rest) ts ->
  torch_stack1 ts = Ok (stacked b rest ts).
Proof.
  intros Hne Hall. destruct ts as [|t0 ts']; [done|].
  unfold torch_stack1.
  assert (Hs0 : shape t0 = b :: rest) by by inversion Hall.
  rewrite Hs0.
  assert (Hfb : forallb (fun t => bool_decide (shape t = b :: rest)) (t0 :: ts') = true).
  { apply forallb_forall. intros t Ht. apply bool_decide_eq_true_2.
    rewrite Forall_forall in Hall. apply Hall. by apply list_elem_of_In. }
  rewrite Hfb. unfold stacked. do 2 f_equal.
  apply tabulate_ext. intros k Hk. f_equal.
  assert (Hlt : (k / numel rest) mod length (t0 :: ts') < length (t0 :: ts')).
  { apply Nat.mod_upper_bound. done. }
  apply nth_indep. exact Hlt.
Qed.

(** Position arithmetic for the slice [i] of the camera axis. *)
Lemma stack_position (b n c i k : nat) :
  i < n -> k < b * c ->
  let pos := ((k / c) * n + i) * c + k mod c in
  pos < b * (n * c)
  /\ (pos / c) mod n = i
  /\ pos / (n * c) = k / c
  /\ pos mod c = k mod c.
Proof.
  intros Hi Hk pos.
  assert (Hc : c <> 0) by (intros ->; lia).
  assert (Hr : k mod c < c) by by apply Nat.mod_upper_bound.
  assert (Hq : k / c < b) by (apply Nat.Div0.div_lt_upper_bound; lia).
  assert (Hpc : pos / c = (k / c) * n + i) by by apply block_div.
  repeat split.
  - unfold pos. nia.
  - rewrite Hpc. by apply block_mod.
  - replace pos with ((k / c) * (n * c) + (i * c + k mod c)) by (unfold pos; lia).
    apply block_div. nia.
  - by apply block_mod.
Qed.

Lemma select_dim1_stacked (b : nat) (rest : list nat) (ts : list tensor)
    (i : nat) (t : tensor) :
  Forall (fun t => shape t = b :: rest /\ tensor_wf t) ts ->
  ts !! i = Some t ->
  select_dim1 (stacked b rest ts) (Z.of_nat i) = Ok t.
Proof.
  intros Hall Hi.
  assert (Hlt : i < length ts) by by eapply lookup_lt_Some.
  assert (Ht : shape t = b :: rest /\ tensor_wf t).
  { rewrite Forall_forall in Hall. apply Hall. by eapply list_elem_of_lookup_2. }
  destruct Ht as [Hsh Hwf]. unfold tensor_wf in Hwf. rewrite Hsh in Hwf.
  change (numel (b :: rest)) with (b * numel rest) in Hwf.
  unfold select_dim1, stacked. cbn [shape]. rewrite norm_index_nat by done.
  destruct t as [sh d]. cbn [shape data] in *. subst sh. do 2 f_equal.
  rewrite <- (tabulate_nth d), Hwf. apply tabulate_ext. intros k Hk.
  destruct (stack_position b (length ts) (numel rest) i k Hlt Hk)
    as (Hpos & Hn & Hb & Hr).
  unfold elt at 1. cbn [data]. rewrite nth_tabulate by exact Hpos.
  rewrite Hn, Hb, Hr. rewrite (nth_lookup_default _ _ _ _ Hi).
  unfold elt. cbn [data]. f_equal.
  pose proof (Nat.div_mod_eq k (numel rest)). lia.
Qed.

Lemma select_last_stacked (b : nat) (ts : list tensor) (i : nat) (t : tensor) :
  Forall (fun t => shape t = [b] /\ tensor_wf t) ts ->
  ts !! i = Some t ->
  select_last (stacked b [] ts) (Z.of_nat i) = Ok t.
Proof.
  intros Hall Hi.
  assert (Hlt : i < length ts) by by eapply lookup_lt_Some.
  assert (Ht : shape t = [b] /\ tensor_wf t).
  { rewrite Forall_forall in Hall. apply Hall. by eapply list_elem_of_lookup_2. }
  destruct Ht as [Hsh Hwf]. unfold tensor_wf in Hwf. rewrite Hsh in Hwf.
  change (numel [b]) with (b * 1) in Hwf.
  unfold select_last, stacked. cbn [shape rev app]. rewrite norm_index_nat by done.
  destruct t as [sh d]. cbn [shape data] in *. subst sh. do 2 f_equal.
  change (numel [b]) with (b * 1).
  rewrite <- (tabulate_nth d), Hwf. apply tabulate_ext. intros k Hk.
  change (numel []) with 1.
  unfold elt at 1. cbn [data]. rewrite nth_tabulate by nia.
  rewrite !Nat.div_1_r, !Nat.mul_1_r, Nat.mod_1_r, Nat.add_0_r.
  rewrite block_mod, block_div by done.
  by rewrite (nth_lookup_default _ _ _ _ Hi).
Qed.

(** ** [PinholeCamerasList] *)

Lemma read_all_run st ls ts :
  Forall2 (held st) ls ts -> PinholeCamerasList.read_all ls st = (Ok ts, st).
Proof.
  induction 1 as [|l t ls ts Hl _ IH]; [done|].
  cbn [PinholeCamerasList.read_all].
  rewrite (bind_ok _ _ _ _ _ (read_ok _ _ _ Hl)).
  by rewrite (bind_ok _ _ _ _ _ IH).
Qed.

Lemma held_app st L O ls ts :
  Forall2 (held st) ls ts ->
  Forall2 (held (State (tensors st ++ L) O)) ls ts.
Proof.
  intros H. eapply Forall2_impl; [exact H|].
  intros l t Hl. unfold held in *. cbn [tensors]. by apply lookup_app_old.
Qed.

Lemma collect_run st b cams infos :
  Forall2 (single_camera st b) cams infos ->
  exists hs ws ks es,
    PinholeCamerasList.collect cams st = (Ok (hs, ws, ks, es), st)
    /\ Forall2 (held st) hs (map info_h infos)
    /\ Forall2 (held st) ws (map info_w infos)
    /\ Forall2 (held st) ks (map info_i infos)
    /\ Forall2 (held st) es (map info_e infos).
Proof.
  induction 1 as [|c [[[ti te] th] tw] cams infos Hc _ IH].
  { exists [], [], [], []. repeat split; constructor. }
  destruct IH as (hs & ws & ks & es & Hrun & Hh & Hw & Hk & He).
  destruct Hc as (o & Hv & Hsi & Hse). destruct Hv.
  exists (height o :: hs), (width o :: ws), (_intrinsics o :: ks),
         (_extrinsics o :: es).
  split.
  - cbn [PinholeCamerasList.collect].
    step ltac:(eapply get_height_ok; eassumption).
    step ltac:(eapply get_width_ok; eassumption).
    step ltac:(eapply intrinsics_ok;
               [eassumption | eassumption | by eapply params_shape_rank]).
    step ltac:(eapply extrinsics_ok;
               [eassumption | eassumption | by eapply params_shape_rank]).
    by rewrite (bind_ok _ _ _ _ _ Hrun).
  - cbn [map]. repeat split; by constructor.
Qed.

Lemma stack_run st ls ts b rest :
  ts <> [] -> Forall2 (held st) ls ts ->
  Forall (fun t => shape t = b :: rest) ts ->
  PinholeCamerasList.stack ls st
  = (Ok (length (tensors st)),
     State (tensors st ++ [stacked b rest ts]) (objects st)).
Proof.
  intros Hne Hl Hs. unfold PinholeCamerasList.stack.
  rewrite (bind_ok _ _ _ _ _ (read_all_run _ _ _ Hl)).
  by rewrite (torch_stack1_run b rest ts Hne Hs).
Qed.

Lemma Forall2_single_shapes st b cams infos :
  Forall2 (single_camera st b) cams infos ->
  Forall (fun t => shape t = [b; 4; 4] /\ tensor_wf t) (map info_i infos)
  /\ Forall (fun t => shape t = [b; 4; 4] /\ tensor_wf t) (map info_e infos)
  /\ Forall (fun t => shape t = [b] /\ tensor_wf t) (map info_h infos)
  /\ Forall (fun t => shape t = [b] /\ tensor_wf t) (map info_w infos).
Proof.
  induction 1 as [|c [[[ti te] th] tw] cams infos Hc _ IH].
  { repeat split; constructor. }
  destruct IH as (Hi & He & Hh & Hw).
  destruct Hc as (o & Hv & Hsi & Hse). destruct Hv.
  cbn [map]. repeat split; constructor; done.
Qed.

Lemma Forall_fst {A} (P Q : A -> Prop) (l : list A) :
  Forall (fun x => P x /\ Q x) l -> Forall P l.
Proof. intros H. eapply Forall_impl; [exact H|]. cbn. tauto. Qed.

(** The run of the constructor of the collection. *)
Lemma collection_init_run st b cams infos :
  cams <> [] ->
  Forall2 (single_camera st b) cams infos ->
  let n := length (tensors st) in
  PinholeCamerasList.__init__ cams st
  = (Ok (length (objects st)),
     State (tensors st ++
              [stacked b [] (map info_h infos); stacked b [] (map info_w infos);
               stacked b [4; 4] (map info_i infos);
               stacked b [4; 4] (map info_e infos)])
           (objects st ++
              [Camera PinholeCamerasListC n (n + 1) (n + 2) (n + 3)])).
Proof.
  intros Hne Hall n.
  destruct (collect_run _ _ _ _ Hall) as (hs & ws & ks & es & Hrun & Hh & Hw & Hk & He).
  destruct (Forall2_single_shapes _ _ _ _ Hall) as (Hsi & Hse & Hsh & Hsw).
  assert (Hinfos : infos <> []).
  { intros ->. inversion Hall. by subst. }
  assert (Hmap : forall f : tensor * tensor * tensor * tensor -> tensor,
             map f infos <> []).
  { intros f Hf. apply Hinfos. by eapply map_eq_nil. }
  unfold PinholeCamerasList.__init__, PinholeCamerasList._initialize_parameters.
  rewrite (bind_ok _ _ _ _ _ Hrun).
  step ltac:(eapply (stack_run _ _ _ b []);
             [apply Hmap | eassumption | by eapply Forall_fst]).
  step ltac:(eapply (stack_run _ _ _ b []);
             [apply Hmap | by apply held_app | by eapply Forall_fst]).
  norm.
  step ltac:(eapply (stack_run _ _ _ b [4; 4]);
             [apply Hmap | by apply held_app | by eapply Forall_fst]).
  norm.
  step ltac:(eapply (stack_run _ _ _ b [4; 4]);
             [apply Hmap | by apply held_app | by eapply Forall_fst]).
  norm. reflexivity.
Qed.

Lemma lookup_map {A B} (f : A -> B) (l : list A) (i : nat) (x : A) :
  l !! i = Some x -> map f l !! i = Some (f x).
Proof.
  revert i. induction l as [|a l IH]; intros [|i] H; try done.
  - injection H as ->. done.
  - by apply IH.
Qed.

Lemma lift_ok {A} (r : res A) (a : A) st : r = Ok a -> lift r st = (Ok a, st).
Proof. by intros ->. Qed.

Lemma num_cameras_run st l o t b n rest :
  objects st !! l = Some o -> tensors st !! _intrinsics o = Some t ->
  shape t = b :: n :: rest -> PinholeCamera.rank_in_3_4 (shape t) = true ->
  PinholeCamerasList.num_cameras l st = (Ok n, st).
Proof.
  intros Ho Ht Hs Hr. unfold PinholeCamerasList.num_cameras.
  rewrite (bind_ok _ _ _ _ _ (intrinsics_ok _ _ _ _ Ho Ht Hr)).
  rewrite (bind_ok _ _ _ _ _ (read_ok _ _ _ Ht)). by rewrite Hs.
Qed.

(** [get_pinhole] on a collection whose stacked tensors are the last four
    of the store. *)
Lemma get_pinhole_run T O b (ths tws tis tes : list tensor) (i : nat)
    (ti te th tw : tensor) :
  let n := length T in
  let ol := Camera PinholeCamerasListC n (n + 1) (n + 2) (n + 3) in
  let stacks := [stacked b [] ths; stacked b [] tws;
                 stacked b [4; 4] tis; stacked b [4; 4] tes] in
  b <> 0 ->
  Forall (fun t => shape t = [b; 4; 4] /\ tensor_wf t) tis ->
  Forall (fun t => shape t = [b; 4; 4] /\ tensor_wf t) tes ->
  Forall (fun t => shape t = [b] /\ tensor_wf t) ths ->
  Forall (fun t => shape t = [b] /\ tensor_wf t) tws ->
  tis !! i = Some ti -> tes !! i = Some te ->
  ths !! i = Some th -> tws !! i = Some tw ->
  PinholeCamerasList.get_pinhole (length O) (Z.of_nat i)
    (State (T ++ stacks) (O ++ [ol]))
  = (Ok (length O + 1),
     State (T ++ stacks ++ [th; tw; ti; te])
           (O ++ [ol; Camera PinholeCameraC (n + 4) (n + 5) (n + 6) (n + 7)])).
Proof.
  intros n ol stacks Hb Htis Htes Hths Htws Hti Hte Hth Htw.
  subst n ol stacks.
  match goal with
  | |- context [O ++ [?x]] =>
      assert (Hol : (O ++ [x]) !! length O = Some x) by by rewrite lookup_app_at0
  end.
  assert (Hsi : shape ti = [b; 4; 4] /\ shape te = [b; 4; 4]
                /\ shape th = [b] /\ shape tw = [b]).
  { rewrite Forall_forall in Htis, Htes, Hths, Htws.
    repeat split; [eapply Htis | eapply Htes | eapply Hths | eapply Htws];
      by eapply list_elem_of_lookup_2. }
  destruct Hsi as (Hsti & Hste & Hsth & Hstw).
  unfold PinholeCamerasList.get_pinhole.
  step ltac:(eapply get_height_ok; cbn [objects]; exact Hol).
  step ltac:(eapply read_ok; cbn [tensors height]; by rewrite lookup_app_at0).
  step ltac:(eapply lift_ok; by eapply select_last_stacked).
  step ltac:(reflexivity).
  norm.
  step ltac:(eapply get_width_ok; cbn [objects]; exact Hol).
  step ltac:(eapply read_ok; cbn [tensors width]; by rewrite lookup_app_at).
  step ltac:(eapply lift_ok; by eapply select_last_stacked).
  step ltac:(reflexivity).
  norm.
  step ltac:(eapply intrinsics_ok;
             [cbn [objects]; exact Hol
             | cbn [tensors _intrinsics]; by rewrite lookup_app_at
             | done]).
  step ltac:(eapply read_ok; cbn [tensors _intrinsics]; by rewrite lookup_app_at).
  step ltac:(eapply lift_ok; by eapply select_dim1_stacked).
  step ltac:(reflexivity).
  norm.
  step ltac:(eapply extrinsics_ok;
             [cbn [objects]; exact Hol
             | cbn [tensors _extrinsics]; by rewrite lookup_app_at
             | done]).
  step ltac:(eapply read_ok; cbn [tensors _extrinsics]; by rewrite lookup_app_at).
  step ltac:(eapply lift_ok; by eapply select_dim1_stacked).
  step ltac:(reflexivity).
  norm.
  erewrite (init_ok _ _ _ _ ti te th tw b); cbn [tensors objects]; try done.
  - norm. reflexivity.
  - by rewrite lookup_app_at.
  - by rewrite lookup_app_at.
  - by rewrite lookup_app_at.
  - by rewrite lookup_app_at.
  - by left.
  - by left.
Qed.

Lemma single_camera_tensors st b c info :
  single_camera st b c info -> camera_tensors st c = Some info.
Proof.
  destruct info as [[[ti te] th] tw]. intros (o & Hv & _).
  by eapply valid_camera_tensors.
Qed.

(** C8, as amended.  For every non-empty list of valid cameras of one
    batch size [b] whose intrinsics and extrinsics are [b x 4 x 4], the
    collection built from them holds four new tensors of shapes
    [b x N x 4 x 4] (intrinsics, extrinsics) and [b x N] (height, width),
    [N] being the length of the list, whose slice [i] along the second
    axis is the corresponding tensor of the [i]-th camera; [num_cameras]
    is [N]; and [get_pinhole(i)], for [i < N], returns a new
    [PinholeCamera] whose four tensors equal those of the [i]-th
    camera. *)
Theorem collection_spec (st : state) (b : nat) (cams : list ref)
    (infos : list (tensor * tensor * tensor * tensor))
    (Hnonempty : cams <> [])
    (Hcams : Forall2 (single_camera st b) cams infos) :
  exists l ol st' si se sh sw,
    PinholeCamerasList.__init__ cams st = (Ok l, st')
    /\ objects st !! l = None
    /\ objects st' !! l = Some ol
    /\ cls ol = PinholeCamerasListC
    /\ camera_tensors st' l = Some (si, se, sh, sw)
    /\ shape si = [b; length cams; 4; 4]
    /\ shape se = [b; length cams; 4; 4]
    /\ shape sh = [b; length cams]
    /\ shape sw = [b; length cams]
    /\ (forall i ti te th tw, infos !! i = Some (ti, te, th, tw) ->
          select_dim1 si (Z.of_nat i) = Ok ti
          /\ select_dim1 se (Z.of_nat i) = Ok te
          /\ select_last sh (Z.of_nat i) = Ok th
          /\ select_last sw (Z.of_nat i) = Ok tw)
    /\ PinholeCamerasList.num_cameras l st' = (Ok (length cams), st')
    /\ (forall i c, cams !! i = Some c ->
          exists c' o' st'',
            PinholeCamerasList.get_pinhole l (Z.of_nat i) st' = (Ok c', st'')
            /\ objects st'' !! c' = Some o'
            /\ cls o' = PinholeCameraC
            /\ camera_tensors st'' c' = infos !! i
            /\ camera_tensors st'' c' = camera_tensors st c).
Proof.
  pose proof (collection_init_run _ _ _ _ Hnonempty Hcams) as Hrun.
  cbn zeta in Hrun.
  destruct (Forall2_single_shapes _ _ _ _ Hcams) as (Hsi & Hse & Hsh & Hsw).
  assert (Hlen : length infos = length cams) by (symmetry; by eapply Forall2_length).
  assert (Hb : b <> 0).
  { destruct Hcams as [|c [[[ti te] th] tw] ? ? (o & Hv & _) _]; [done|].
    by destruct Hv. }
  set (n := length (tensors st)) in *.
  set (ol := Camera PinholeCamerasListC n (n + 1) (n + 2) (n + 3)) in *.
  set (sh := stacked b [] (map info_h infos)) in *.
  set (sw := stacked b [] (map info_w infos)) in *.
  set (si := stacked b [4; 4] (map info_i infos)) in *.
  set (se := stacked b [4; 4] (map info_e infos)) in *.
  set (st' := State (tensors st ++ [sh; sw; si; se]) (objects st ++ [ol])) in *.
  assert (Hol : objects st' !! length (objects st) = Some ol).
  { unfold st'. cbn [objects]. by rewrite lookup_app_at0. }
  assert (Hti : tensors st' !! _intrinsics ol = Some si).
  { unfold st', ol, n. cbn [tensors _intrinsics]. by rewrite lookup_app_at. }
  exists (length (objects st)), ol, st', si, se, sh, sw.
  split; [exact Hrun|]. split; [by apply lookup_ge_None|].
  split; [exact Hol|]. split; [done|]. split.
  { unfold camera_tensors. rewrite Hol, Hti.
    unfold st', ol, n. cbn [tensors _extrinsics height width].
    by rewrite lookup_app_at0, !lookup_app_at. }
  assert (Hshape : forall rest f,
             shape (stacked b rest (map f infos)) = b :: length cams :: rest).
  { intros rest f. unfold stacked. cbn [shape]. by rewrite length_map, Hlen. }
  do 4 (split; [apply Hshape|]). split.
  { intros i ti te th tw Hi.
    repeat split;
      [ eapply select_dim1_stacked; [exact Hsi|]
      | eapply select_dim1_stacked; [exact Hse|]
      | eapply select_last_stacked; [exact Hsh|]
      | eapply select_last_stacked; [exact Hsw|] ];
      by rewrite (lookup_map _ _ _ _ Hi). }
  split.
  { eapply num_cameras_run; [exact Hol | exact Hti | apply Hshape | done]. }
  intros i c Hc.
  destruct (Forall2_lookup_l _ _ _ _ _ Hcams Hc) as (info & Hinfo & Hsingle).
  destruct info as [[[ti te] th] tw].
  pose proof (get_pinhole_run (tensors st) (objects st) b
                (map info_h infos) (map info_w infos)
                (map info_i infos) (map info_e infos) i ti te th tw) as Hget.
  cbn zeta in Hget.
  specialize (Hget Hb Hsi Hse Hsh Hsw
                (lookup_map info_i _ _ _ Hinfo) (lookup_map info_e _ _ _ Hinfo)
                (lookup_map info_h _ _ _ Hinfo) (lookup_map info_w _ _ _ Hinfo)).
  match type of Hget with _ = (Ok ?c2, ?s2) => set (st2 := s2) in * end.
  assert (Hobj : objects st2 !! (length (objects st) + 1)
                 = Some (Camera PinholeCameraC (n + 4) (n + 5) (n + 6) (n + 7))).
  { unfold st2. cbn [objects]. by rewrite (lookup_app_at _ _ 1). }
  assert (Hct : camera_tensors st2 (length (objects st) + 1)
                = Some (ti, te, th, tw)).
  { unfold camera_tensors. rewrite Hobj.
    cbn [_intrinsics _extrinsics height width]. unfold st2, n.
    cbn [tensors]. by rewrite !lookup_app_at. }
  eexists _, _, st2. split; [exact Hget|].
  split; [exact Hobj|]. split; [done|].
  split; [by rewrite Hct|].
  rewrite Hct. symmetry. by eapply single_camera_tensors.
Qed.

Lemma st_pair_cameras :
  Forall2 (single_camera st_pair 1) [0; 1]
    [(K1, E1, H1, W1); (K2, E1, H2, W2)].
Proof.
  repeat constructor.
  - exists cam1. repeat split; try done; by left.
  - exists cam2. repeat split; try done; by left.
Qed.

Lemma collection_spec_witness :
  [0; 1] <> @nil nat
  /\ Forall2 (single_camera st_pair 1) [0; 1]
       [(K1, E1, H1, W1); (K2, E1, H2, W2)]
  /\ exists l st',
       PinholeCamerasList.__init__ [0; 1] st_pair = (Ok l, st')
       /\ PinholeCamerasList.num_cameras l st' = (Ok 2, st')
       /\ exists c' st'',
            PinholeCamerasList.get_pinhole l 1 st' = (Ok c', st'')
            /\ camera_tensors st'' c' = Some (K2, E1, H2, W2).
Proof.
  assert (Hne : [0; 1] <> @nil nat) by discriminate.
  split; [exact Hne|]. split; [exact st_pair_cameras|].
  destruct (collection_spec st_pair 1 [0; 1]
              [(K1, E1, H1, W1); (K2, E1, H2, W2)] Hne st_pair_cameras)
    as (l & ol & st' & si & se & sh & sw & Hrun & _ & _ & _ & _ & _ & _ & _ & _
        & _ & Hnum & Hget).
  exists l, st'. split; [exact Hrun|]. split; [exact Hnum|].
  destruct (Hget 1 1 eq_refl) as (c' & o' & st'' & Hg & _ & _ & Hinfo & _).
  exists c', st''. split; [exact Hg|exact Hinfo].
Defined.

Lemma st_rank4_valid : valid_camera st_rank4 0 cam1 1 K4 E4 H1 W1.
Proof. constructor; try done; right; by exists 2. Qed.

(** C8, as stated, fails.  A valid camera whose intrinsics and
    extrinsics are [1 x 2 x 4 x 4] goes into a collection, but the
    stacked intrinsics then have rank 5: [num_cameras] and [get_pinhole]
    raise the [ValueError] of the [intrinsics] property. *)
Lemma collection_of_rank4_camera :
  valid_camera st_rank4 0 cam1 1 K4 E4 H1 W1
  /\ exists l st',
       PinholeCamerasList.__init__ [0] st_rank4 = (Ok l, st')
       /\ PinholeCamerasList.num_cameras l st'
          = (Raise (ValueError (BadParamsShape "intrinsics" [1; 1; 2; 4; 4])), st')
       /\ exists st'',
            PinholeCamerasList.get_pinhole l 0 st'
            = (Raise (ValueError (BadParamsShape "intrinsics" [1; 1; 2; 4; 4])), st'').
Proof.
  split; [exact st_rank4_valid|].
  eexists _, _. split; [reflexivity|]. split; [reflexivity|].
  eexists. reflexivity.
Qed.

(** ** What the operations leave alone *)

Lemma keeps_bind {A B} (I : state -> Prop) (m : M A) (k : A -> M B)
    (P : A -> Prop) (Q : B -> Prop) :
  keeps I m P -> (forall a, P a -> keeps I (k a) Q) -> keeps I (bind m k) Q.
Proof.
  intros Hm Hk st r st' HI Hrun. unfold bind in Hrun.
  destruct (m st) as [[a|e] st1] eqn:E.
  - destruct (Hm _ _ _ HI E) as [HI1 Hpost].
    exact (Hk a (Hpost a eq_refl) _ _ _ HI1 Hrun).
  - injection Hrun as <- <-. destruct (Hm _ _ _ HI E) as [HI1 _].
    split; [done|]. intros a [=].
Qed.

Lemma keeps_weaken {A} (I : state -> Prop) (m : M A) (P Q : A -> Prop) :
  keeps I m P -> (forall a, P a -> Q a) -> keeps I m Q.
Proof.
  intros Hm HPQ st r st' HI Hrun. destruct (Hm _ _ _ HI Hrun) as [HI' Hp].
  split; [done|]. intros a Ha. by apply HPQ, Hp.
Qed.

Lemma reads_only_bind {A B} (m : M A) (k : A -> M B) :
  reads_only m -> (forall a, reads_only (k a)) -> reads_only (bind m k).
Proof.
  intros Hm Hk st r st' Hrun. unfold bind in Hrun.
  destruct (m st) as [[a|e] st1] eqn:E.
  - rewrite <- (Hm _ _ _ E). by eapply Hk.
  - injection Hrun as <- <-. by eapply Hm.
Qed.

Lemma reads_only_ret {A} (a : A) : reads_only (ret a).
Proof. intros st r st' [= <- <-]. done. Qed.

Lemma reads_only_raise {A} (e : exn) : reads_only (@raise A e).
Proof. intros st r st' [= <- <-]. done. Qed.

Lemma reads_only_lift {A} (x : res A) : reads_only (lift x).
Proof. intros st r st' [= <- <-]. done. Qed.

Lemma reads_only_read l : reads_only (read l).
Proof. intros st r st'. unfold read. by destruct (tensors st !! l); intros [= <- <-]. Qed.

Lemma reads_only_getobj c : reads_only (getobj c).
Proof. intros st r st'. unfold getobj. by destruct (objects st !! c); intros [= <- <-]. Qed.

Create HintDb reads discriminated.
#[local] Hint Resolve reads_only_ret reads_only_raise reads_only_lift
  reads_only_read reads_only_getobj : reads.

Ltac reads_auto :=
  repeat first
    [ apply reads_only_bind; [ | intros ? ]
    | solve [eauto with reads]
    | match goal with
      | |- reads_only (if ?b then _ else _) => destruct b
      | |- reads_only (match ?x with _ => _ end) => destruct x
      end ].

Lemma reads_only_factor_onto f vs : reads_only (factor_onto f vs).
Proof. destruct f; unfold factor_onto; reads_auto. Qed.

Lemma reads_only_assert_true x : reads_only (PinholeCamera.assert_true x).
Proof. unfold PinholeCamera.assert_true. reads_auto. Qed.

#[local] Hint Resolve reads_only_factor_onto reads_only_assert_true : reads.

Lemma reads_only_get_height c : reads_only (PinholeCamera.get_height c).
Proof. unfold PinholeCamera.get_height. reads_auto. Qed.

Lemma reads_only_get_width c : reads_only (PinholeCamera.get_width c).
Proof. unfold PinholeCamera.get_width. reads_auto. Qed.

Lemma reads_only_intrinsics c : reads_only (PinholeCamera.intrinsics c).
Proof. unfold PinholeCamera.intrinsics. reads_auto. Qed.

Lemma reads_only_extrinsics c : reads_only (PinholeCamera.extrinsics c).
Proof. unfold PinholeCamera.extrinsics. reads_auto. Qed.

#[local] Hint Resolve reads_only_get_height reads_only_get_width
  reads_only_intrinsics reads_only_extrinsics : reads.

Lemma keeps_reads {A} (I : state -> Prop) (m : M A) :
  reads_only m -> keeps I m (fun _ => True).
Proof. intros Hm st r st' HI Hrun. by rewrite (Hm _ _ _ Hrun). Qed.

(** *** Operations that only add to the store *)

Lemma grown_from_refl st : grown_from st st.
Proof. by repeat split. Qed.

Lemma keeps_alloc st0 t :
  keeps (grown_from st0) (alloc t) (fun a => length (tensors st0) <= a).
Proof.
  intros st r st' [[Ht Ho] Hlen] [= <- <-]. split.
  - repeat split; cbn [tensors objects]; [|done|rewrite length_app; lia].
    intros l t' Hl. by apply lookup_app_old, Ht.
  - by intros a [= <-].
Qed.

Lemma keeps_new_obj st0 o :
  keeps (grown_from st0) (new_obj o) (fun _ => True).
Proof.
  intros st r st' [[Ht Ho] Hlen] [= <- <-]. split; [|done].
  repeat split; cbn [tensors objects]; [done| |done].
  intros c o' Hc. by apply lookup_app_old, Ho.
Qed.

Lemma keeps_write_fresh st0 l t :
  length (tensors st0) <= l ->
  keeps (grown_from st0) (write l t) (fun _ => True).
Proof.
  intros Hl st r st' [[Ht Ho] Hlen] [= <- <-]. split; [|done].
  repeat split; cbn [tensors objects]; [|done|by rewrite length_insert].
  intros l' t' Hl'. rewrite list_lookup_insert_ne; [by apply Ht|].
  apply lookup_lt_Some in Hl'. lia.
Qed.

Lemma keeps_raise {A} (I : state -> Prop) (e : exn) (P : A -> Prop) :
  keeps I (raise e) P.
Proof. intros st r st' HI [= <- <-]. split; [done|]. intros a [=]. Qed.

Create HintDb keeps discriminated.
#[local] Hint Resolve keeps_alloc keeps_new_obj keeps_write_fresh keeps_raise : keeps.
#[local] Hint Extern 1 (keeps _ _ _) =>
  (apply keeps_reads; solve [eauto with reads]) : keeps.

Ltac keeps_auto :=
  repeat first
    [ eapply keeps_bind; [ solve [eauto with keeps] | intros ? ? ]
    | solve [eauto with keeps]
    | match goal with
      | |- keeps _ (if ?b then _ else _) _ => destruct b
      | |- keeps _ (match ?x with _ => _ end) _ => destruct x
      end ].

Lemma keeps_tensor_clone st0 l :
  keeps (grown_from st0) (tensor_clone l) (fun a => length (tensors st0) <= a).
Proof. unfold tensor_clone. keeps_auto. Qed.

Lemma keeps_imul_ij st0 l i j f :
  length (tensors st0) <= l ->
  keeps (grown_from st0) (imul_ij l i j f) (fun _ => True).
Proof. intros Hl. unfold imul_ij. keeps_auto. Qed.

Lemma keeps_iadd_ij st0 l i j f :
  length (tensors st0) <= l ->
  keeps (grown_from st0) (iadd_ij l i j f) (fun _ => True).
Proof. intros Hl. unfold iadd_ij. keeps_auto. Qed.

Lemma keeps_iadd_i_last st0 l i f :
  length (tensors st0) <= l ->
  keeps (grown_from st0) (iadd_i_last l i f) (fun _ => True).
Proof. intros Hl. unfold iadd_i_last. keeps_auto. Qed.

Lemma keeps_iadd_last st0 l i f :
  length (tensors st0) <= l ->
  keeps (grown_from st0) (iadd_last l i f) (fun _ => True).
Proof. intros Hl. unfold iadd_last. keeps_auto. Qed.

Lemma keeps_rmul st0 f l :
  keeps (grown_from st0) (rmul f l) (fun a => length (tensors st0) <= a).
Proof. unfold rmul. keeps_auto. Qed.

Lemma keeps_init st0 li le lh lw :
  keeps (grown_from st0) (PinholeCamera.__init__ li le lh lw) (fun _ => True).
Proof. unfold PinholeCamera.__init__. keeps_auto. Qed.

#[local] Hint Resolve keeps_tensor_clone keeps_imul_ij keeps_iadd_ij
  keeps_iadd_i_last keeps_iadd_last keeps_rmul keeps_init : keeps.

Lemma keeps_clone st0 c :
  keeps (grown_from st0) (PinholeCamera.clone c) (fun _ => True).
Proof. unfold PinholeCamera.clone. keeps_auto. Qed.

Lemma keeps_scale st0 c f :
  keeps (grown_from st0) (PinholeCamera.scale c f) (fun _ => True).
Proof. unfold PinholeCamera.scale. keeps_auto. Qed.

Lemma keeps_from_parameters st0 fx fy cx cy h w tx ty tz b :
  keeps (grown_from st0)
    (PinholeCamera.from_parameters fx fy cx cy h w tx ty tz b) (fun _ => True).
Proof. unfold PinholeCamera.from_parameters. keeps_auto. Qed.

Lemma reads_only_collect cams : reads_only (PinholeCamerasList.collect cams).
Proof.
  induction cams as [|c cams IH]; cbn [PinholeCamerasList.collect]; reads_auto.
Qed.

Lemma reads_only_read_all ls : reads_only (PinholeCamerasList.read_all ls).
Proof.
  induction ls as [|l ls IH]; cbn [PinholeCamerasList.read_all]; reads_auto.
Qed.

#[local] Hint Resolve reads_only_collect reads_only_read_all : reads.

Lemma keeps_stack st0 ls :
  keeps (grown_from st0) (PinholeCamerasList.stack ls)
    (fun a => length (tensors st0) <= a).
Proof. unfold PinholeCamerasList.stack. keeps_auto. Qed.

#[local] Hint Resolve keeps_stack : keeps.

Lemma keeps_collection_init st0 cams :
  keeps (grown_from st0) (PinholeCamerasList.__init__ cams) (fun _ => True).
Proof.
  unfold PinholeCamerasList.__init__, PinholeCamerasList._initialize_parameters.
  keeps_auto.
Qed.

Lemma keeps_get_pinhole st0 c idx :
  keeps (grown_from st0) (PinholeCamerasList.get_pinhole c idx) (fun _ => True).
Proof. unfold PinholeCamerasList.get_pinhole. keeps_auto. Qed.

Lemma keeps_store_kept {A} (m : M A) (P : A -> Prop) st :
  keeps (grown_from st) m P -> store_kept st (snd (m st)).
Proof.
  intros Hm. destruct (m st) as [r st'] eqn:E.
  by destruct (Hm _ _ _ (grown_from_refl st) E) as [[? _] _].
Qed.

(** X1.  Whatever their arguments and whether they return or raise,
    the constructor of [PinholeCamera], [clone], [scale] and
    [from_parameters] leave every tensor and every object that existed
    before the call as it was: they only add to the store. *)
Theorem camera_makers_keep_store (st : state) :
  (forall li le lh lw,
     store_kept st (snd (PinholeCamera.__init__ li le lh lw st)))
  /\ (forall c, store_kept st (snd (PinholeCamera.clone c st)))
  /\ (forall c s, store_kept st (snd (PinholeCamera.scale c s st)))
  /\ (forall fx fy cx cy h w tx ty tz b,
        store_kept st
          (snd (PinholeCamera.from_parameters fx fy cx cy h w tx ty tz b st))).
Proof.
  repeat split; intros; eapply keeps_store_kept;
    eauto using keeps_init, keeps_clone, keeps_scale, keeps_from_parameters.
Qed.

(** X2.  Whatever their arguments and whether they return or raise,
    the constructor of [PinholeCamerasList] and [get_pinhole] leave every
    tensor and every object that existed before the call as it was: the
    cameras a collection is built from are not modified by building it or
    by reading a camera back. *)
Theorem collection_keeps_store (st : state) :
  (forall cams, store_kept st (snd (PinholeCamerasList.__init__ cams st)))
  /\ (forall c idx, store_kept st (snd (PinholeCamerasList.get_pinhole c idx st))).
Proof.
  split; intros; eapply keeps_store_kept;
    eauto using keeps_collection_init, keeps_get_pinhole.
Qed.

(** *** Operations that work in place *)

Section InPlace.

Variable st0 : state.
Variable c : ref.
Variable o : camera.
Hypothesis Hobj : objects st0 !! c = Some o.
Variable ws : list loc.

Lemma changed_only_refl : changed_only ws st0 st0.
Proof. by repeat split. Qed.

Lemma keeps_write_listed l t :
  l ∈ ws -> keeps (changed_only ws st0) (write l t) (fun _ => True).
Proof.
  intros Hl st r st' (Ho & Hlen & Ht) [= <- <-]. split; [|done].
  repeat split; cbn [tensors objects]; [done|by rewrite length_insert|].
  intros l' Hl'. rewrite list_lookup_insert_ne; [by apply Ht|].
  by intros ->.
Qed.

Lemma keeps_attribute (get : ref -> M loc) (field : camera -> loc) :
  (forall st, get c st
     = match objects st !! c with
       | Some o' => (Ok (field o'), st)
       | None => (Raise Dangling, st)
       end) ->
  keeps (changed_only ws st0) (get c) (fun a => a = field o).
Proof.
  intros Hget st r st' (Ho & Hlen & Ht) Hrun. rewrite Hget, Ho, Hobj in Hrun.
  injection Hrun as <- <-. split; [done|]. by intros a [= <-].
Qed.

Lemma keeps_get_height_here :
  keeps (changed_only ws st0) (PinholeCamera.get_height c) (fun a => a = height o).
Proof.
  apply keeps_attribute. intros st. unfold PinholeCamera.get_height, bind, getobj.
  by destruct (objects st !! c).
Qed.

Lemma keeps_get_width_here :
  keeps (changed_only ws st0) (PinholeCamera.get_width c) (fun a => a = width o).
Proof.
  apply keeps_attribute. intros st. unfold PinholeCamera.get_width, bind, getobj.
  by destruct (objects st !! c).
Qed.

Lemma keeps_property_here (prop : ref -> M loc) (field : camera -> loc)
    (name : string) :
  prop = (fun self =>
            o' <- getobj self ;;
            t <- read (field o') ;;
            PinholeCamera.assert_true (PinholeCamera._check_valid_params t name) ;;
            ret (field o')) ->
  keeps (changed_only ws st0) (prop c) (fun a => a = field o).
Proof.
  intros -> st r st' HI Hrun.
  assert (Hsame : st' = st).
  { revert Hrun. generalize st r st'. change (reads_only
      (o' <- getobj c ;; t <- read (field o') ;;
       PinholeCamera.assert_true (PinholeCamera._check_valid_params t name) ;;
       ret (field o'))).
    reads_auto. }
  subst st'. split; [done|]. intros a ->.
  destruct HI as (Ho & _). unfold bind, getobj in Hrun. rewrite Ho, Hobj in Hrun.
  unfold read in Hrun. destruct (tensors st !! field o); [|done].
  destruct (PinholeCamera.assert_true _ st) as [[[]|] ?]; [|done].
  by injection Hrun as <-.
Qed.

Lemma keeps_intrinsics_here :
  keeps (changed_only ws st0) (PinholeCamera.intrinsics c)
    (fun a => a = _intrinsics o).
Proof. by eapply keeps_property_here. Qed.

Lemma keeps_extrinsics_here :
  keeps (changed_only ws st0) (PinholeCamera.extrinsics c)
    (fun a => a = _extrinsics o).
Proof. by eapply keeps_property_here. Qed.

Lemma keeps_rebind (update : camera -> camera) :
  update o = o ->
  keeps (changed_only ws st0)
    (o' <- getobj c ;; setobj c (update o')) (fun _ => True).
Proof.
  intros Hid st r st' (Ho & Hlen & Ht) Hrun.
  unfold bind, getobj, setobj in Hrun. rewrite Ho, Hobj in Hrun.
  injection Hrun as <- <-. split; [|done].
  repeat split; cbn [tensors objects]; try done.
  rewrite Hid, Ho. by apply list_insert_id.
Qed.

End InPlace.

Lemma keeps_imul_ij_listed st0 ws l i j f :
  l ∈ ws -> keeps (changed_only ws st0) (imul_ij l i j f) (fun _ => True).
Proof.
  intros Hl. unfold imul_ij.
  repeat first
    [ eapply keeps_bind; [ solve [eauto with keeps] | intros ? ? ]
    | solve [eauto using keeps_write_listed with keeps]
    | match goal with
      | |- keeps _ (if ?b then _ else _) _ => destruct b
      | |- keeps _ (match ?x with _ => _ end) _ => destruct x
      end ].
Qed.

Lemma keeps_imul_listed st0 ws l f :
  l ∈ ws -> keeps (changed_only ws st0) (imul l f) (fun _ => True).
Proof.
  intros Hl. unfold imul.
  repeat first
    [ eapply keeps_bind; [ solve [eauto with keeps] | intros ? ? ]
    | solve [eauto using keeps_write_listed with keeps] ].
Qed.

Lemma keeps_changed_only {A} (m : M A) (P : A -> Prop) ws st :
  keeps (changed_only ws st) m P -> changed_only ws st (snd (m st)).
Proof.
  intros Hm. destruct (m st) as [r st'] eqn:E.
  by destruct (Hm _ _ _ (changed_only_refl st ws) E) as [? _].
Qed.

Ltac listed := repeat first [apply list_elem_of_here | apply list_elem_of_further].



(** ** The constructor of [PinholeCamera] *)

Lemma init_reads li le lh lw ti te th tw st :
  tensors st !! li = Some ti -> tensors st !! le = Some te ->
  tensors st !! lh = Some th -> tensors st !! lw = Some tw ->
  PinholeCamera.__init__ li le lh lw st
  = (_ <- lift (PinholeCamera._check_valid [ti; te; th; tw]) ;;
     _ <- lift (PinholeCamera._check_valid_params ti "intrinsics") ;;
     _ <- lift (PinholeCamera._check_valid_params te "extrinsics") ;;
     _ <- lift (PinholeCamera._check_valid_shape th "height") ;;
     _ <- lift (PinholeCamera._check_valid_shape tw "width") ;;
     new_obj (Camera PinholeCameraC lh lw li le)) st.
Proof.
  intros Hi He Hh Hw. unfold PinholeCamera.__init__.
  rewrite (bind_ok _ _ _ _ _ (read_ok _ _ _ Hi)).
  rewrite (bind_ok _ _ _ _ _ (read_ok _ _ _ He)).
  rewrite (bind_ok _ _ _ _ _ (read_ok _ _ _ Hh)).
  by rewrite (bind_ok _ _ _ _ _ (read_ok _ _ _ Hw)).
Qed.

Ltac split_checks :=
  unfold bind, lift, new_obj, PinholeCamera._check_valid,
    PinholeCamera._check_valid_params, PinholeCamera._check_valid_shape,
    PinholeCamera.shape_tail_is_not_4x4, init_accepts, lead_nonzero;
  cbn [PinholeCamera.all_shape0];
  repeat match goal with
         | |- context [match shape ?t with _ => _ end] =>
             destruct (shape t) as [|? ?] eqn:?
         | |- context [?d =? 0] => destruct (d =? 0) eqn:?
         | |- context [PinholeCamera.rank_in_3_4 ?s] =>
             destruct (PinholeCamera.rank_in_3_4 s) eqn:?
         | |- context [length ?s =? 1] => destruct (length s =? 1) eqn:?
         end;
  cbn [negb andb].

(** X4.  The constructor returns a camera exactly when each of the four
    arguments has rank at least one and a non-zero leading dimension,
    intrinsics and extrinsics have rank 3 or 4, and height and width have
    rank 1: the leading dimensions are not compared and the trailing
    dimensions are not looked at.  It then adds one object and changes
    nothing else; otherwise it raises and the state is as before. *)
Theorem init_accepts_iff (st : state) (li le lh lw : loc)
    (ti te th tw : tensor)
    (Hi : tensors st !! li = Some ti) (He : tensors st !! le = Some te)
    (Hh : tensors st !! lh = Some th) (Hw : tensors st !! lw = Some tw) :
  (init_accepts ti te th tw = true ->
   PinholeCamera.__init__ li le lh lw st
   = (Ok (length (objects st)),
      State (tensors st) (objects st ++ [Camera PinholeCameraC lh lw li le])))
  /\ (init_accepts ti te th tw = false ->
      exists e, PinholeCamera.__init__ li le lh lw st = (Raise e, st)).
Proof.
  rewrite (init_reads _ _ _ _ _ _ _ _ _ Hi He Hh Hw).
  split; intros Hacc; revert Hacc; split_checks; intros Hacc;
    try discriminate; eauto.
Qed.

Lemma init_accepts_iff_witness :
  init_accepts (zeros [2; 3; 3]) (zeros [3; 1; 5; 2]) (zeros [2]) (zeros [2]) = true
  /\ PinholeCamera.__init__ 0 1 2 3 st_odd
     = (Ok 0, State (tensors st_odd) [Camera PinholeCameraC 2 3 0 1]).
Proof.
  split; [reflexivity|].
  apply (init_accepts_iff st_odd 0 1 2 3 _ _ _ _ eq_refl eq_refl eq_refl eq_refl).
  reflexivity.
Defined.

(** X5.  When the four arguments have non-zero leading dimensions, the
    first shape check that fails decides the error: a [ValueError] that
    names the argument at fault ([intrinsics], [extrinsics], [height],
    [width], in this order) and carries the shape it was given. *)
Theorem init_error_names_argument (st : state) (li le lh lw : loc)
    (ti te th tw : tensor)
    (Hi : tensors st !! li = Some ti) (He : tensors st !! le = Some te)
    (Hh : tensors st !! lh = Some th) (Hw : tensors st !! lw = Some tw)
    (Hlead : lead_nonzero ti && lead_nonzero te
             && lead_nonzero th && lead_nonzero tw = true) :
  (PinholeCamera.rank_in_3_4 (shape ti) = false ->
   PinholeCamera.__init__ li le lh lw st
   = (Raise (ValueError (BadParamsShape "intrinsics" (shape ti))), st))
  /\ (PinholeCamera.rank_in_3_4 (shape ti) = true ->
      PinholeCamera.rank_in_3_4 (shape te) = false ->
      PinholeCamera.__init__ li le lh lw st
      = (Raise (ValueError (BadParamsShape "extrinsics" (shape te))), st))
  /\ (PinholeCamera.rank_in_3_4 (shape ti) = true ->
      PinholeCamera.rank_in_3_4 (shape te) = true ->
      length (shape th) <> 1 ->
      PinholeCamera.__init__ li le lh lw st
      = (Raise (ValueError (BadBatchShape "height" (shape th))), st))
  /\ (PinholeCamera.rank_in_3_4 (shape ti) = true ->
      PinholeCamera.rank_in_3_4 (shape te) = true ->
      length (shape th) = 1 -> length (shape tw) <> 1 ->
      PinholeCamera.__init__ li le lh lw st
      = (Raise (ValueError (BadBatchShape "width" (shape tw))), st)).
Proof.
  rewrite (init_reads _ _ _ _ _ _ _ _ _ Hi He Hh Hw).
  apply andb_prop in Hlead as [Hlead Hlw].
  apply andb_prop in Hlead as [Hlead Hlh].
  apply andb_prop in Hlead as [Hli Hle].
  assert (Hcv : PinholeCamera._check_valid [ti; te; th; tw] = Ok true).
  { apply check_valid_nonzero. unfold lead_nonzero in *.
    repeat constructor;
      match goal with
      | |- exists d rest, shape ?t = _ /\ _ =>
          destruct (shape t) as [|d rest]; [done|];
          exists d, rest; split; [done|];
          by destruct (Nat.eqb_spec d 0)
      end. }
  unfold bind at 1. unfold lift at 1. rewrite Hcv.
  repeat split.
  - intros Hr. unfold bind, lift. by rewrite check_valid_params_rank, Hr.
  - intros Hr1 Hr2. unfold bind, lift.
    by rewrite !check_valid_params_rank, Hr1, Hr2.
  - intros Hr1 Hr2 Hh1. unfold bind, lift.
    rewrite !check_valid_params_rank, Hr1, Hr2.
    unfold PinholeCamera._check_valid_shape.
    by destruct (Nat.eqb_spec (length (shape th)) 1).
  - intros Hr1 Hr2 Hh1 Hw1. unfold bind, lift.
    rewrite !check_valid_params_rank, Hr1, Hr2.
    unfold PinholeCamera._check_valid_shape. rewrite Hh1. cbn.
    by destruct (Nat.eqb_spec (length (shape tw)) 1).
Qed.

Lemma init_error_names_argument_witness :
  PinholeCamera.rank_in_3_4 (shape (zeros [4; 4])) = false
  /\ PinholeCamera.__init__ 0 1 2 3 st_flat
     = (Raise (ValueError (BadParamsShape "intrinsics" [4; 4])), st_flat).
Proof.
  split; [reflexivity|].
  apply (init_error_names_argument st_flat 0 1 2 3 _ _ _ _
           eq_refl eq_refl eq_refl eq_refl eq_refl).
  reflexivity.
Defined.

(** X6.  A camera of batch size zero cannot be constructed: when the
    four arguments have rank at least one and one of the leading
    dimensions is zero, the constructor raises the [ValueError]
    "Arguments shapes must match", also when all four leading dimensions
    are equal. *)
Theorem init_rejects_zero_batch (st : state) (li le lh lw : loc)
    (ti te th tw : tensor)
    (Hi : tensors st !! li = Some ti) (He : tensors st !! le = Some te)
    (Hh : tensors st !! lh = Some th) (Hw : tensors st !! lw = Some tw)
    (Hrank : shape ti <> [] /\ shape te <> [] /\ shape th <> [] /\ shape tw <> [])
    (Hzero : lead_nonzero ti && lead_nonzero te
             && lead_nonzero th && lead_nonzero tw = false) :
  PinholeCamera.__init__ li le lh lw st
  = (Raise (ValueError ShapesMustMatch), st).
Proof.
  rewrite (init_reads _ _ _ _ _ _ _ _ _ Hi He Hh Hw).
  destruct Hrank as (Hri & Hre & Hrh & Hrw). revert Hzero.
  unfold lead_nonzero, bind at 1, lift at 1, PinholeCamera._check_valid.
  cbn [PinholeCamera.all_shape0].
  destruct (shape ti) as [|d1 ?]; [done|]. destruct (d1 =? 0); [done|].
  destruct (shape te) as [|d2 ?]; [done|]. destruct (d2 =? 0); [done|].
  destruct (shape th) as [|d3 ?]; [done|]. destruct (d3 =? 0); [done|].
  destruct (shape tw) as [|d4 ?]; [done|]. destruct (d4 =? 0); [done|].
  done.
Qed.

Lemma init_rejects_zero_batch_witness :
  PinholeCamera.__init__ 0 1 2 3 st_empty_batch
  = (Raise (ValueError ShapesMustMatch), st_empty_batch).
Proof.
  apply (init_rejects_zero_batch st_empty_batch 0 1 2 3 _ _ _ _
           eq_refl eq_refl eq_refl eq_refl).
  - repeat split; discriminate.
  - reflexivity.
Defined.

(** ** The translation accessors *)

Lemma elt_set_ij t r c i j fv k :
  k < length (data t) ->
  elt (set_ij t r c i j fv) k
  = if k mod (r * c) =? i * c + j then nth (k / (r * c)) fv 0%Q else elt t k.
Proof. intros Hk. unfold elt at 1, set_ij. cbn [data]. by rewrite nth_tabulate. Qed.

Lemma length_set_ij t r c i j fv :
  length (data (set_ij t r c i j fv)) = length (data t).
Proof. unfold set_ij. cbn [data]. apply length_tabulate. Qed.

Lemma wf_set_ij t r c i j fv : tensor_wf t -> tensor_wf (set_ij t r c i j fv).
Proof. unfold tensor_wf. intros H. by rewrite length_set_ij. Qed.

(** A property that reads a tensor attribute and takes a view of it. *)
Lemma extrinsics_view_run st c o t (g : tensor -> res tensor) :
  objects st !! c = Some o -> tensors st !! _extrinsics o = Some t ->
  PinholeCamera.rank_in_3_4 (shape t) = true ->
  (l <- PinholeCamera.extrinsics c ;; t' <- read l ;; lift (g t')) st = (g t, st).
Proof.
  intros Ho Ht Hr.
  rewrite (bind_ok _ _ _ _ _ (extrinsics_ok _ _ _ _ Ho Ht Hr)).
  by rewrite (bind_ok _ _ _ _ _ (read_ok _ _ _ Ht)).
Qed.

Lemma view_i_last_params t b i :
  params_shape (shape t) b -> view_i_last t i = view_ij t i 3.
Proof.
  intros Hs. unfold view_i_last. by rewrite (params_shape_split _ _ Hs).
Qed.

Lemma set_translation_run st c o b ti te th tw i f :
  valid_camera st c o b ti te th tw -> i < 4 ->
  broadcastable st f (lead (shape te)) ->
  PinholeCamera.set_translation i c f st
  = (Ok tt,
     State (<[_extrinsics o := set_ij te 4 4 i 3 (fvals st f (lead (shape te)))]>
              (tensors st))
           (objects st)).
Proof.
  intros Hv Hi Hf. destruct Hv.
  assert (Hre := params_shape_rank _ _ vc_shape_e0).
  assert (Hsp := params_shape_split _ _ vc_shape_e0).
  unfold PinholeCamera.set_translation.
  rewrite (bind_ok _ _ _ _ _ (extrinsics_ok _ _ _ _ vc_obj0 vc_extrinsics0 Hre)).
  unfold setitem_i_last.
  rewrite (bind_ok _ _ _ _ _ (read_ok _ _ _ vc_extrinsics0)), Hsp.
  cbn [last_index Nat.eqb Nat.sub].
  apply Nat.ltb_lt in Hi. rewrite Hi.
  by rewrite (bind_ok _ _ _ _ _ (factor_onto_ok _ _ _ Hf)).
Qed.

(** The views of the extrinsics after an assignment to column 3 of
    row [i]. *)
Lemma view_set_ij t b fv i i' j' :
  params_shape (shape t) b -> tensor_wf t ->
  length fv = numel (lead (shape t)) ->
  i < 4 -> i' < 4 -> j' < 4 ->
  view_ij (set_ij t 4 4 i 3 fv) i' j'
  = if (i' =? i) && (j' =? 3) then Ok (Tensor (lead (shape t)) fv)
    else view_ij t i' j'.
Proof.
  intros Hs Hwf Hfv Hi Hi' Hj'.
  assert (Hs' : params_shape (shape (set_ij t 4 4 i 3 fv)) b) by done.
  rewrite (view_ij_params _ b) by done.
  rewrite (view_ij_params t b) by done.
  change (shape (set_ij t 4 4 i 3 fv)) with (shape t).
  assert (Hlen : length (data t) = numel (lead (shape t)) * 16).
  { unfold tensor_wf in Hwf. by rewrite Hwf, (params_numel _ _ Hs). }
  destruct ((i' =? i) && (j' =? 3)) eqn:E.
  - apply andb_prop in E as [Ei Ej].
    apply Nat.eqb_eq in Ei, Ej. subst i' j'.
    do 2 f_equal. rewrite <- (tabulate_nth fv), Hfv.
    apply tabulate_ext. intros n Hn.
    rewrite elt_set_ij by lia. change (4 * 4) with 16.
    rewrite block_mod, block_div, Nat.eqb_refl by lia.
    rewrite nth_tabulate by done. done.
  - do 2 f_equal. apply tabulate_ext. intros n Hn.
    rewrite elt_set_ij by lia. change (4 * 4) with 16.
    rewrite block_mod by lia.
    destruct (Nat.eqb_spec (i' * 4 + j') (i * 4 + 3)) as [Heq|]; [|done].
    exfalso. assert (i' = i /\ j' = 3) as [-> ->] by lia.
    by rewrite !Nat.eqb_refl in E.
Qed.

Lemma slice_bound_values :
  slice_bound None 4 0 = 0 /\ slice_bound (Some 3%Z) 4 4 = 3
  /\ slice_bound (Some 4%Z) 4 4 = 4 /\ slice_bound (Some (-1)%Z) 4 0 = 3
  /\ slice_bound None 4 4 = 4.
Proof. done. Qed.

(** The slice [[..., :3, :3]] does not see column 3. *)
Lemma rotation_set_ij t b fv i :
  params_shape (shape t) b -> tensor_wf t -> i < 4 ->
  slice_last2 (set_ij t 4 4 i 3 fv) None (Some 3%Z) None (Some 3%Z)
  = slice_last2 t None (Some 3%Z) None (Some 3%Z).
Proof.
  intros Hs Hwf Hi. unfold slice_last2.
  change (shape (set_ij t 4 4 i 3 fv)) with (shape t).
  rewrite (params_shape_split _ _ Hs).
  destruct slice_bound_values as (-> & -> & _).
  cbn [Nat.sub]. do 2 f_equal. apply tabulate_ext. intros k Hk.
  assert (Hlen : length (data t) = numel (lead (shape t)) * 16).
  { unfold tensor_wf in Hwf. by rewrite Hwf, (params_numel _ _ Hs). }
  assert (Hq : k / (3 * 3) < numel (lead (shape t))).
  { apply Nat.Div0.div_lt_upper_bound. lia. }
  assert (Hw : k mod (3 * 3) < 3 * 3) by (apply Nat.mod_upper_bound; lia).
  assert (Ha : (k mod (3 * 3)) / 3 < 3)
    by (apply Nat.Div0.div_lt_upper_bound; lia).
  assert (Hb : (k mod (3 * 3)) mod 3 < 3) by (apply Nat.mod_upper_bound; lia).
  set (q := k / (3 * 3)) in *. set (a := (k mod (3 * 3)) / 3) in *.
  set (b' := (k mod (3 * 3)) mod 3) in *.
  replace (q * (4 * 4) + (0 + a) * 4 + (0 + b')) with (q * 16 + (a * 4 + b')) by lia.
  rewrite elt_set_ij by lia. change (4 * 4) with 16.
  rewrite block_mod by lia.
  destruct (Nat.eqb_spec (a * 4 + b') (i * 4 + 3)); [lia|done].
Qed.

Lemma extrinsics_i_last_run st c o t b i :
  objects st !! c = Some o -> tensors st !! _extrinsics o = Some t ->
  params_shape (shape t) b ->
  PinholeCamera.extrinsics_i_last i c st = (view_ij t i 3, st).
Proof.
  intros Ho Ht Hs. unfold PinholeCamera.extrinsics_i_last.
  rewrite (extrinsics_view_run _ _ _ _ (fun t' => view_i_last t' i) Ho Ht
             (params_shape_rank _ _ Hs)).
  by rewrite (view_i_last_params _ b).
Qed.



(** X8.  The camera returned by [scale] shares its extrinsics with the
    receiver: setting a translation component through the scaled camera
    changes what the receiver reads for that component. *)
Theorem scale_shares_translation (st : state) (c : ref) (o : camera) (b : nat)
    (ti te th tw : tensor) (s v : factor) (i : nat)
    (Hvalid : valid_camera st c o b ti te th tw)
    (Hlead : broadcastable st s (lead (shape ti)))
    (Hbatch : broadcastable st s [b])
    (Hi : i < 3)
    (Hv : broadcastable st v (lead (shape te))) :
  exists c' st1 st2,
    PinholeCamera.scale c s st = (Ok c', st1)
    /\ c' <> c
    /\ PinholeCamera.set_translation i c' v st1 = (Ok tt, st2)
    /\ PinholeCamera.extrinsics_i_last i c st2
       = (Ok (Tensor (lead (shape te)) (fvals st v (lead (shape te)))), st2).
Proof.
  assert (Hi4 : i < 4) by lia.
  pose proof (scale_run _ _ _ _ _ _ _ _ _ Hvalid Hlead Hbatch) as Hscale.
  pose proof (scale_valid _ _ _ _ _ _ _ _ _ Hvalid Hlead Hbatch) as Hv1.
  cbn zeta in Hscale, Hv1.
  set (st1 := State (tensors st ++ _) _) in *.
  set (o' := Camera PinholeCameraC _ _ _ _) in *.
  assert (Hvb : broadcastable st1 v (lead (shape te)))
    by by apply broadcastable_app.
  pose proof (set_translation_run _ _ _ _ _ _ _ _ _ _ Hv1 Hi4 Hvb) as Hset.
  assert (Hfv : fvals st1 v (lead (shape te)) = fvals st v (lead (shape te))).
  { apply fvals_app. by eapply broadcastable_allocated. }
  rewrite Hfv in Hset.
  set (fv := fvals st v (lead (shape te))) in *.
  set (st2 := State (<[_ := _]> _) _) in Hset.
  destruct Hvalid.
  assert (Hc : c < length (objects st)) by by eapply lookup_lt_Some.
  assert (Hle := lookup_lt_Some _ _ _ vc_extrinsics0).
  exists (length (objects st)), st1, st2.
  split; [exact Hscale|]. split; [lia|]. split; [exact Hset|].
  assert (Ho2 : objects st2 !! c = Some o).
  { unfold st2, st1. cbn [objects]. by apply lookup_app_old. }
  assert (Ht2 : tensors st2 !! _extrinsics o = Some (set_ij te 4 4 i 3 fv)).
  { unfold st2, st1, o'. cbn [tensors _extrinsics].
    apply list_lookup_insert_eq. rewrite length_app. lia. }
  rewrite (extrinsics_i_last_run _ _ _ _ b i Ho2 Ht2) by done.
  rewrite (view_set_ij _ b) by (done || lia || by apply length_fvals).
  by rewrite !Nat.eqb_refl.
Qed.

Lemma scale_shares_translation_witness :
  valid_camera st1 0 cam1 1 K1 E1 H1 W1
  /\ exists c' st1' st2,
       PinholeCamera.scale 0 (FNum 2) st1 = (Ok c', st1')
       /\ PinholeCamera.tx_setter c' (FNum 7) st1' = (Ok tt, st2)
       /\ PinholeCamera.tx 0 st2 = (Ok (Tensor [1] [7%Q]), st2).
Proof.
  split; [exact st1_valid|].
  assert (Hlt : 0 < 3) by lia.
  destruct (scale_shares_translation st1 0 cam1 1 K1 E1 H1 W1
              (FNum 2) (FNum 7) 0 st1_valid I I Hlt I)
    as (c' & st1' & st2 & Hscale & _ & Hset & Hget).
  exists c', st1', st2. done.
Defined.

(** ** [from_parameters] *)

Lemma Qplus_0_l_eq (q : Q) : (0 + q)%Q = q.
Proof.
  destruct q as [n d]. unfold Qplus. cbn. f_equal. lia.
Qed.

Lemma iadd_ij_run st l t vs r c i j f :
  tensors st !! l = Some t ->
  split_last2 (shape t) = Some (vs, r, c) ->
  i < r -> j < c ->
  broadcastable st f vs ->
  iadd_ij l i j f st
  = (Ok tt, State (<[l := add_ij t r c i j (fvals st f vs)]> (tensors st))
                  (objects st)).
Proof.
  intros Ht Hsp Hi Hj Hf. unfold iadd_ij.
  rewrite (bind_ok _ _ _ _ _ (read_ok _ _ _ Ht)), Hsp.
  apply Nat.ltb_lt in Hi, Hj. rewrite Hi, Hj. cbn [andb].
  by rewrite (bind_ok _ _ _ _ _ (factor_onto_ok _ _ _ Hf)).
Qed.

Lemma iadd_i_last_run st l t vs r c i f :
  tensors st !! l = Some t ->
  split_last2 (shape t) = Some (vs, r, S c) ->
  i < r ->
  broadcastable st f vs ->
  iadd_i_last l i f st
  = (Ok tt, State (<[l := add_ij t r (S c) i c (fvals st f vs)]> (tensors st))
                  (objects st)).
Proof.
  intros Ht Hsp Hi Hf. unfold iadd_i_last.
  rewrite (bind_ok _ _ _ _ _ (read_ok _ _ _ Ht)), Hsp.
  unfold last_index. cbn [Nat.eqb]. rewrite Nat.sub_succ, Nat.sub_0_r.
  apply Nat.ltb_lt in Hi. rewrite Hi.
  by rewrite (bind_ok _ _ _ _ _ (factor_onto_ok _ _ _ Hf)).
Qed.

Lemma elt_add_ij t r c i j fv k :
  k < length (data t) ->
  elt (add_ij t r c i j fv) k
  = if k mod (r * c) =? i * c + j
    then (elt t k + nth (k / (r * c)) fv 0)%Q
    else elt t k.
Proof. intros Hk. unfold elt at 1, add_ij. cbn [data]. by rewrite nth_tabulate. Qed.

Lemma length_add_ij t r c i j fv :
  length (data (add_ij t r c i j fv)) = length (data t).
Proof. unfold add_ij. cbn [data]. apply length_tabulate. Qed.

Lemma tensor_ext (t : tensor) (sh : list nat) (n : nat) (f : nat -> Q) :
  shape t = sh -> length (data t) = n ->
  (forall k, k < n -> elt t k = f k) ->
  t = Tensor sh (tabulate n f).
Proof.
  destruct t as [sh' d]. unfold elt. cbn [shape data]. intros -> Hl Hf.
  f_equal. rewrite <- (tabulate_nth d), Hl. by apply tabulate_ext.
Qed.

Lemma numel_batch (b : nat) : numel [b; 4; 4] = b * 16.
Proof. cbn. lia. Qed.

Lemma nth_constant_values (b q' : nat) (q : Q) :
  q' < b -> nth q' (tabulate (numel [b]) (fun _ => q)) 0%Q = q.
Proof. intros H. rewrite nth_tabulate; [done|]. cbn. lia. Qed.

(** The intrinsics after the six additions. *)
Lemma from_parameters_intrinsics (b : nat) (fx fy cx cy : Q) :
  let fv q := tabulate (numel [b]) (fun _ : nat => q) in
  add_ij (add_ij (add_ij (add_ij (add_ij (add_ij (torch_zeros [b; 4; 4])
    4 4 0 0 (fv fx)) 4 4 1 1 (fv fy)) 4 4 0 2 (fv cx)) 4 4 1 2 (fv cy))
    4 4 2 2 (fv 1%Q)) 4 4 3 3 (fv 1%Q)
  = batch_of b (canonical_intrinsics fx fy cx cy).
Proof.
  intros fv. unfold batch_of.
  assert (Hlen : length (data (torch_zeros [b; 4; 4])) = b * 16).
  { unfold torch_zeros. cbn [data]. by rewrite length_tabulate, numel_batch. }
  apply tensor_ext; [done|by rewrite !length_add_ij|].
  intros k Hk.
  rewrite !elt_add_ij by (rewrite ?length_add_ij; lia).
  change (4 * 4) with 16.
  assert (Hq : k / 16 < b) by (apply Nat.Div0.div_lt_upper_bound; lia).
  unfold fv. rewrite !nth_constant_values by done.
  unfold elt, torch_zeros. cbn [data].
  rewrite nth_tabulate by (rewrite numel_batch; lia).
  assert (Hp : k mod 16 < 16) by (apply Nat.mod_upper_bound; lia).
  destruct (k mod 16) as [|p]; [cbn; by rewrite Qplus_0_l_eq|].
  do 15 (destruct p as [|p]; [cbn; by rewrite ?Qplus_0_l_eq|]). lia.
Qed.

Lemma torch_eye_entries (p : nat) :
  p < 16 -> elt (torch_eye 4) p = canonical_extrinsics 0 0 0 p.
Proof. intros Hp. do 16 (destruct p as [|p]; [reflexivity|]). lia. Qed.

(** The extrinsics after the three additions to the repeated identity. *)
Lemma from_parameters_extrinsics (b : nat) (tx ty tz : Q) :
  let fv q := tabulate (numel [b]) (fun _ : nat => q) in
  let rep := Tensor [b; 4; 4]
               (tabulate (b * (4 * 4)) (fun k => elt (torch_eye 4) (k mod (4 * 4)))) in
  add_ij (add_ij (add_ij rep 4 4 0 3 (fv tx)) 4 4 1 3 (fv ty)) 4 4 2 3 (fv tz)
  = batch_of b (canonical_extrinsics tx ty tz).
Proof.
  intros fv rep. unfold batch_of.
  assert (Hlen : length (data rep) = b * 16).
  { unfold rep. cbn [data]. rewrite length_tabulate. lia. }
  apply tensor_ext; [done|by rewrite !length_add_ij|].
  intros k Hk.
  assert (Hp : k mod 16 < 16) by (apply Nat.mod_upper_bound; lia).
  assert (Hrep : elt rep k = canonical_extrinsics 0 0 0 (k mod 16)).
  { unfold elt at 1, rep. cbn [data]. rewrite nth_tabulate by lia.
    change (4 * 4) with 16. by apply torch_eye_entries. }
  rewrite !elt_add_ij by (rewrite ?length_add_ij; lia).
  change (4 * 4) with 16. rewrite Hrep.
  assert (Hq : k / 16 < b) by (apply Nat.Div0.div_lt_upper_bound; lia).
  unfold fv. rewrite !nth_constant_values by done.
  destruct (k mod 16) as [|p]; [reflexivity|].
  do 15 (destruct p as [|p]; [cbn; by rewrite ?Qplus_0_l_eq|]). lia.
Qed.

Lemma iadd_last_first_run st l b q :
  tensors st !! l = Some (torch_zeros [b]) -> b <> 0 ->
  iadd_last l 0 (FNum q) st
  = (Ok tt, State (<[l := first_only b q]> (tensors st)) (objects st)).
Proof.
  intros Ht Hb. unfold iadd_last.
  rewrite (bind_ok _ _ _ _ _ (read_ok _ _ _ Ht)).
  cbn [torch_zeros shape rev app].
  destruct (Nat.ltb_spec 0 b) as [_|]; [|lia].
  unfold factor_onto, bind, ret, write. do 3 f_equal.
  assert (Hlen : length (data (torch_zeros [b])) = b).
  { unfold torch_zeros. cbn [data]. rewrite length_tabulate. cbn. lia. }
  unfold first_only. rewrite Hlen. f_equal. apply tabulate_ext. intros k Hk.
  assert (Hz : elt (torch_zeros [b]) k = 0%Q).
  { unfold elt, torch_zeros. cbn [data]. rewrite nth_tabulate; [done|]. cbn. lia. }
  rewrite Hz, Nat.mod_small, Nat.div_small by lia.
  destruct k; cbn; [apply Qplus_0_l_eq|done].
Qed.

Lemma iadd_last_empty st l q :
  tensors st !! l = Some (torch_zeros [0]) ->
  iadd_last l 0 (FNum q) st = (Raise IndexError, st).
Proof.
  intros Ht. unfold iadd_last.
  by rewrite (bind_ok _ _ _ _ _ (read_ok _ _ _ Ht)).
Qed.

Lemma insert_app_at {A} (l L : list A) (k : nat) (x : A) :
  <[length l + k := x]> (l ++ L) = l ++ <[k := x]> L.
Proof.
  induction l as [|a l IH]; [done|]. cbn [length app Nat.add].
  change (a :: <[length l + k := x]> (l ++ L) = a :: (l ++ <[k := x]> L)).
  by rewrite IH.
Qed.

Ltac norm_at :=
  rewrite ?length_app; cbn [length];
  rewrite <- ?app_assoc; cbn [app];
  rewrite ?insert_at_end, ?insert_app_at; cbn [insert list_insert].

(** The six, three and one additions of [from_parameters], run on the
    tensors it has just created. *)
Lemma from_parameters_prefix st (fx fy cx cy tx ty tz : Q) (b : nat) :
  let n := length (tensors st) in
  forall (k : loc -> loc -> M ref),
  (intrinsics <- alloc (torch_zeros [b; 4; 4]) ;;
   iadd_ij intrinsics 0 0 (FNum fx) ;;
   iadd_ij intrinsics 1 1 (FNum fy) ;;
   iadd_ij intrinsics 0 2 (FNum cx) ;;
   iadd_ij intrinsics 1 2 (FNum cy) ;;
   iadd_ij intrinsics 2 2 (FNum 1) ;;
   iadd_ij intrinsics 3 3 (FNum 1) ;;
   eye <- alloc (torch_eye 4) ;;
   teye <- read eye ;;
   rep <- lift (repeat_matrix teye b) ;;
   extrinsics <- alloc rep ;;
   iadd_i_last extrinsics 0 (FNum tx) ;;
   iadd_i_last extrinsics 1 (FNum ty) ;;
   iadd_i_last extrinsics 2 (FNum tz) ;;
   k intrinsics extrinsics) st
  = k n (n + 2) (State (tensors st ++
                   [batch_of b (canonical_intrinsics fx fy cx cy); torch_eye 4;
                    batch_of b (canonical_extrinsics tx ty tz)])
                (objects st)).
Proof.
  intros n k.
  step ltac:(reflexivity).
  do 6 (step ltac:(eapply (iadd_ij_run _ _ _ [b] 4 4);
                   [new_tensor | reflexivity | lia | lia | exact I]);
        norm_at).
  cbn [fvals]. rewrite from_parameters_intrinsics.
  step ltac:(reflexivity). norm_at.
  step ltac:(eapply read_ok; cbn [tensors]; rewrite (lookup_app_at _ _ 1); reflexivity).
  step ltac:(reflexivity).
  step ltac:(reflexivity). norm_at.
  do 3 (step ltac:(eapply (iadd_i_last_run _ _ _ [b] 4 3);
                   [cbn [tensors]; rewrite (lookup_app_at _ _ 2); reflexivity
                   | reflexivity | lia | exact I]);
        norm_at).
  cbn [fvals]. rewrite from_parameters_extrinsics.
  reflexivity.
Qed.

Lemma from_parameters_run st (fx fy cx cy h w tx ty tz : Q) (b : nat) :
  b <> 0 ->
  let n := length (tensors st) in
  PinholeCamera.from_parameters (FNum fx) (FNum fy) (FNum cx) (FNum cy)
    (FNum h) (FNum w) (FNum tx) (FNum ty) (FNum tz) b st
  = (Ok (length (objects st)),
     State (tensors st ++
              [batch_of b (canonical_intrinsics fx fy cx cy); torch_eye 4;
               batch_of b (canonical_extrinsics tx ty tz);
               first_only b h; first_only b w])
           (objects st ++ [Camera PinholeCameraC (n + 3) (n + 4) n (n + 2)])).
Proof.
  intros Hb n. unfold PinholeCamera.from_parameters.
  rewrite (from_parameters_prefix st fx fy cx cy tx ty tz b
             (fun intrinsics extrinsics =>
                height_tmp <- alloc (torch_zeros [b]) ;;
                iadd_last height_tmp 0 (FNum h) ;;
                width_tmp <- alloc (torch_zeros [b]) ;;
                iadd_last width_tmp 0 (FNum w) ;;
                PinholeCamera.__init__ intrinsics extrinsics height_tmp width_tmp)).
  step ltac:(reflexivity). norm_at.
  step ltac:(eapply iadd_last_first_run;
             [cbn [tensors]; rewrite (lookup_app_at _ _ 3); reflexivity | done]).
  norm_at.
  step ltac:(reflexivity). norm_at.
  step ltac:(eapply iadd_last_first_run;
             [cbn [tensors]; rewrite (lookup_app_at _ _ 4); reflexivity | done]).
  norm_at.
  erewrite (init_ok _ _ _ _ _ _ _ _ b); cbn [tensors objects]; try done.
  - by rewrite lookup_app_at0.
  - by rewrite (lookup_app_at _ _ 2).
  - by rewrite (lookup_app_at _ _ 3).
  - by rewrite (lookup_app_at _ _ 4).
  - by left.
  - by left.
  - done.
  - done.
Qed.

Lemma from_parameters_zero_run st (fx fy cx cy h w tx ty tz : Q) :
  PinholeCamera.from_parameters (FNum fx) (FNum fy) (FNum cx) (FNum cy)
    (FNum h) (FNum w) (FNum tx) (FNum ty) (FNum tz) 0 st
  = (Raise IndexError,
     State (tensors st ++
              [batch_of 0 (canonical_intrinsics fx fy cx cy); torch_eye 4;
               batch_of 0 (canonical_extrinsics tx ty tz); torch_zeros [0]])
           (objects st)).
Proof.
  unfold PinholeCamera.from_parameters.
  rewrite (from_parameters_prefix st fx fy cx cy tx ty tz 0
             (fun intrinsics extrinsics =>
                height_tmp <- alloc (torch_zeros [0]) ;;
                iadd_last height_tmp 0 (FNum h) ;;
                width_tmp <- alloc (torch_zeros [0]) ;;
                iadd_last width_tmp 0 (FNum w) ;;
                PinholeCamera.__init__ intrinsics extrinsics height_tmp width_tmp)).
  step ltac:(reflexivity). norm_at.
  unfold bind. erewrite iadd_last_empty; [reflexivity|].
  cbn [tensors]. by rewrite (lookup_app_at _ _ 3).
Qed.

Lemma wf_batch_of b m : tensor_wf (batch_of b m).
Proof.
  unfold tensor_wf, batch_of. cbn [shape data].
  by rewrite length_tabulate, numel_batch.
Qed.

Lemma view_batch_of b m i j :
  i < 4 -> j < 4 ->
  view_ij (batch_of b m) i j = Ok (constant b (m (i * 4 + j))).
Proof.
  intros Hi Hj.
  assert (Hs : params_shape (shape (batch_of b m)) b) by by left.
  rewrite (view_ij_params _ b) by done.
  unfold constant, batch_of. cbn [shape lead length Nat.sub take numel fold_right].
  rewrite Nat.mul_1_r. do 2 f_equal. apply tabulate_ext. intros n Hn.
  unfold elt. cbn [data]. rewrite nth_tabulate by lia.
  by rewrite block_mod by lia.
Qed.

Lemma intrinsics_view_run st c o t (g : tensor -> res tensor) :
  objects st !! c = Some o -> tensors st !! _intrinsics o = Some t ->
  PinholeCamera.rank_in_3_4 (shape t) = true ->
  (l <- PinholeCamera.intrinsics c ;; t' <- read l ;; lift (g t')) st = (g t, st).
Proof.
  intros Ho Ht Hr.
  rewrite (bind_ok _ _ _ _ _ (intrinsics_ok _ _ _ _ Ho Ht Hr)).
  by rewrite (bind_ok _ _ _ _ _ (read_ok _ _ _ Ht)).
Qed.

(** The slice [[..., :3, :3]] of [b] copies of a matrix. *)
Lemma slice33_batch_of b m :
  slice_last2 (batch_of b m) None (Some 3%Z) None (Some 3%Z)
  = Ok (Tensor [b; 3; 3]
          (tabulate (b * 9)
             (fun k => m ((k mod 9) / 3 * 4 + (k mod 9) mod 3)))).
Proof.
  unfold slice_last2, batch_of. cbn [shape split_last2 rev app].
  destruct slice_bound_values as (-> & -> & _).
  cbn [Nat.sub numel fold_right]. rewrite Nat.mul_1_r.
  change (3 * 3) with 9. do 2 f_equal. apply tabulate_ext. intros k Hk.
  assert (Hq : k / 9 < b) by (apply Nat.Div0.div_lt_upper_bound; lia).
  assert (Hw : k mod 9 < 9) by (apply Nat.mod_upper_bound; lia).
  assert (Ha : (k mod 9) / 3 < 3) by (apply Nat.Div0.div_lt_upper_bound; lia).
  assert (Hb : (k mod 9) mod 3 < 3) by (apply Nat.mod_upper_bound; lia).
  set (a := (k mod 9) / 3) in *. set (b' := (k mod 9) mod 3) in *.
  unfold elt. cbn [data].
  replace (k / 9 * (4 * 4) + (0 + a) * 4 + (0 + b'))
    with (k / 9 * 16 + (a * 4 + b')) by lia.
  rewrite nth_tabulate by lia. by rewrite block_mod by lia.
Qed.

(** The slice [[..., :3, -1:]] of [b] copies of a matrix. *)
Lemma slice_last_column_batch_of b m :
  slice_last2 (batch_of b m) None (Some 3%Z) (Some (-1)%Z) None
  = Ok (Tensor [b; 3; 1] (tabulate (b * 3) (fun k => m ((k mod 3) * 4 + 3)))).
Proof.
  unfold slice_last2, batch_of. cbn [shape split_last2 rev app].
  destruct slice_bound_values as (-> & -> & _ & -> & ->).
  cbn [Nat.sub numel fold_right]. rewrite Nat.mul_1_r.
  change (3 * 1) with 3. do 2 f_equal. apply tabulate_ext. intros k Hk.
  assert (Hq : k / 3 < b) by (apply Nat.Div0.div_lt_upper_bound; lia).
  assert (Hw : k mod 3 < 3) by (apply Nat.mod_upper_bound; lia).
  rewrite Nat.div_1_r, Nat.mod_1_r.
  unfold elt. cbn [data].
  replace (k / 3 * (4 * 4) + (0 + k mod 3) * 4 + (3 + 0))
    with (k / 3 * 16 + (k mod 3 * 4 + 3)) by lia.
  rewrite nth_tabulate by lia. by rewrite block_mod by lia.
Qed.

(** X9.  For a non-zero batch size [b] and numeric parameters,
    [from_parameters] returns a new valid camera: each of the [b]
    intrinsics matrices is [[fx,0,cx,0],[0,fy,cy,0],[0,0,1,0],[0,0,0,1]],
    each extrinsics matrix is the identity rotation with [(tx,ty,tz)] in
    the last column, so that [fx], [fy], [cx], [cy], [tx], [ty], [tz]
    read back as constant vectors, [camera_matrix] is [b] copies of
    [[fx,0,cx],[0,fy,cy],[0,0,1]] and [translation_vector] is [b] copies
    of [(tx,ty,tz)]; height and width hold the given value in their
    first element only and zero in the others. *)
Theorem from_parameters_spec (st : state) (fx fy cx cy h w tx ty tz : Q)
    (b : nat) (Hb : b <> 0) :
  exists c o st',
    PinholeCamera.from_parameters (FNum fx) (FNum fy) (FNum cx) (FNum cy)
      (FNum h) (FNum w) (FNum tx) (FNum ty) (FNum tz) b st = (Ok c, st')
    /\ objects st !! c = None
    /\ valid_camera st' c o b
         (batch_of b (canonical_intrinsics fx fy cx cy))
         (batch_of b (canonical_extrinsics tx ty tz))
         (first_only b h) (first_only b w)
    /\ PinholeCamera.batch_size c st' = (Ok b, st')
    /\ PinholeCamera.fx c st' = (Ok (constant b fx), st')
    /\ PinholeCamera.fy c st' = (Ok (constant b fy), st')
    /\ PinholeCamera.cx c st' = (Ok (constant b cx), st')
    /\ PinholeCamera.cy c st' = (Ok (constant b cy), st')
    /\ PinholeCamera.tx c st' = (Ok (constant b tx), st')
    /\ PinholeCamera.ty c st' = (Ok (constant b ty), st')
    /\ PinholeCamera.tz c st' = (Ok (constant b tz), st')
    /\ PinholeCamera.camera_matrix c st'
       = (Ok (Tensor [b; 3; 3]
                (tabulate (b * 9)
                   (fun k => nth (k mod 9)
                               [fx; 0; cx;  0; fy; cy;  0; 0; 1]%Q 0%Q))), st')
    /\ PinholeCamera.translation_vector c st'
       = (Ok (Tensor [b; 3; 1]
                (tabulate (b * 3) (fun k => nth (k mod 3) [tx; ty; tz] 0%Q))), st').
Proof.
  pose proof (from_parameters_run st fx fy cx cy h w tx ty tz b Hb) as Hrun.
  cbn zeta in Hrun.
  set (n := length (tensors st)) in *.
  set (o := Camera PinholeCameraC (n + 3) (n + 4) n (n + 2)) in *.
  set (ti := batch_of b (canonical_intrinsics fx fy cx cy)) in *.
  set (te := batch_of b (canonical_extrinsics tx ty tz)) in *.
  set (st' := State _ _) in Hrun.
  assert (Ho : objects st' !! length (objects st) = Some o).
  { unfold st'. cbn [objects]. by rewrite lookup_app_at0. }
  assert (Hti : tensors st' !! _intrinsics o = Some ti).
  { unfold st', o, n. cbn [tensors _intrinsics]. by rewrite lookup_app_at0. }
  assert (Hte : tensors st' !! _extrinsics o = Some te).
  { unfold st', o, n. cbn [tensors _extrinsics]. by rewrite (lookup_app_at _ _ 2). }
  assert (Hsi : params_shape (shape ti) b) by by left.
  assert (Hse : params_shape (shape te) b) by by left.
  exists (length (objects st)), o, st'.
  split; [exact Hrun|]. split; [by apply lookup_ge_None|]. split.
  { constructor; try done.
    - unfold st', o, n. cbn [tensors height]. by rewrite (lookup_app_at _ _ 3).
    - unfold st', o, n. cbn [tensors width]. by rewrite (lookup_app_at _ _ 4).
    - apply wf_batch_of.
    - apply wf_batch_of.
    - unfold tensor_wf, first_only. cbn [shape data]. rewrite length_tabulate.
      cbn. lia.
    - unfold tensor_wf, first_only. cbn [shape data]. rewrite length_tabulate.
      cbn. lia. }
  split.
  { unfold PinholeCamera.batch_size.
    rewrite (bind_ok _ _ _ _ _ (intrinsics_ok _ _ _ _ Ho Hti eq_refl)).
    by rewrite (bind_ok _ _ _ _ _ (read_ok _ _ _ Hti)). }
  repeat split.
  - unfold PinholeCamera.fx. rewrite (intrinsics_ij_run _ _ _ _ _ _ Ho Hti eq_refl).
    unfold ti. by rewrite view_batch_of by lia.
  - unfold PinholeCamera.fy. rewrite (intrinsics_ij_run _ _ _ _ _ _ Ho Hti eq_refl).
    unfold ti. by rewrite view_batch_of by lia.
  - unfold PinholeCamera.cx. rewrite (intrinsics_ij_run _ _ _ _ _ _ Ho Hti eq_refl).
    unfold ti. by rewrite view_batch_of by lia.
  - unfold PinholeCamera.cy. rewrite (intrinsics_ij_run _ _ _ _ _ _ Ho Hti eq_refl).
    unfold ti. by rewrite view_batch_of by lia.
  - unfold PinholeCamera.tx. rewrite (extrinsics_i_last_run _ _ _ _ b _ Ho Hte Hse).
    unfold te. by rewrite view_batch_of by lia.
  - unfold PinholeCamera.ty. rewrite (extrinsics_i_last_run _ _ _ _ b _ Ho Hte Hse).
    unfold te. by rewrite view_batch_of by lia.
  - unfold PinholeCamera.tz. rewrite (extrinsics_i_last_run _ _ _ _ b _ Ho Hte Hse).
    unfold te. by rewrite view_batch_of by lia.
  - unfold PinholeCamera.camera_matrix.
    rewrite (intrinsics_view_run _ _ _ _
               (fun t => slice_last2 t None (Some 3%Z) None (Some 3%Z)) Ho Hti eq_refl).
    unfold ti. rewrite slice33_batch_of. do 3 f_equal.
    apply tabulate_ext. intros k Hk.
    assert (Hw : k mod 9 < 9) by (apply Nat.mod_upper_bound; lia).
    destruct (k mod 9) as [|p]; [reflexivity|].
    do 8 (destruct p as [|p]; [reflexivity|]). lia.
  - unfold PinholeCamera.translation_vector.
    rewrite (extrinsics_view_run _ _ _ _
               (fun t => slice_last2 t None (Some 3%Z) (Some (-1)%Z) None)
               Ho Hte eq_refl).
    unfold te. rewrite slice_last_column_batch_of. do 3 f_equal.
    apply tabulate_ext. intros k Hk.
    assert (Hw : k mod 3 < 3) by (apply Nat.mod_upper_bound; lia).
    destruct (k mod 3) as [|p]; [reflexivity|].
    do 2 (destruct p as [|p]; [reflexivity|]). lia.
Qed.

Lemma from_parameters_spec_witness :
  2 <> 0
  /\ exists c o st',
       PinholeCamera.from_parameters (FNum 100) (FNum 100) (FNum 50) (FNum 50)
         (FNum 100) (FNum 100) (FNum 1) (FNum 2) (FNum 3) 2 (State [] [])
       = (Ok c, st')
       /\ valid_camera st' c o 2
            (batch_of 2 (canonical_intrinsics 100 100 50 50))
            (batch_of 2 (canonical_extrinsics 1 2 3))
            (first_only 2 100) (first_only 2 100).
Proof.
  assert (H2 : 2 <> 0) by lia. split; [exact H2|].
  destruct (from_parameters_spec (State [] []) 100 100 50 50 100 100 1 2 3 2 H2)
    as (c & o & st' & Hrun & _ & Hv & _).
  exists c, o, st'. done.
Defined.

(** X10.  With a batch size of zero and numeric parameters,
    [from_parameters] raises [IndexError]: the height vector it creates
    is empty and [height_tmp[..., 0]] has no element to address.  No
    camera object is created. *)
Theorem from_parameters_zero_batch (st : state)
    (fx fy cx cy h w tx ty tz : Q) :
  let run := PinholeCamera.from_parameters (FNum fx) (FNum fy) (FNum cx)
               (FNum cy) (FNum h) (FNum w) (FNum tx) (FNum ty) (FNum tz) 0 st in
  fst run = Raise IndexError /\ objects (snd run) = objects st.
Proof. cbn zeta. by rewrite from_parameters_zero_run. Qed.
(** ** [scale_pinhole] *)

Lemma broadcast_column (N M : nat) :
  M = N \/ M = 1 -> broadcast_shapes [N; 6] [M; 1] = Some [N; 6].
Proof.
  intros HM. unfold broadcast_shapes. cbn [rev app bshape_rev].
  change (6 =? 1) with false. change (1 =? 1) with true. cbn iota.
  destruct HM as [->| ->].
  - by rewrite Nat.eqb_refl.
  - by destruct (Nat.eqb_spec N 1) as [->|_].
Qed.

Lemma broadcast_column_fails (N M : nat) :
  M <> N -> M <> 1 ->
  match broadcast_shapes [N; 6] [M; 1] with
  | Some r => compat_rev (rev r) [6; N] = false
  | None => True
  end.
Proof.
  intros HN H1. unfold broadcast_shapes. cbn [rev app bshape_rev].
  change (6 =? 1) with false. change (1 =? 1) with true. cbn iota.
  destruct (Nat.eqb_spec N M) as [->|_]; [done|].
  destruct (Nat.eqb_spec N 1) as [->|_].
  - cbn [rev app compat_rev]. cbn.
    destruct (Nat.eqb_spec M 1); [done|]. reflexivity.
  - by destruct (Nat.eqb_spec M 1).
Qed.

Lemma scale_pinhole_ok (p s : tensor) (N M : nat) :
  shape p = [N; 12] -> tensor_wf p -> shape s = [M] -> M = N \/ M = 1 ->
  scale_pinhole p s
  = Ok (Tensor [N; 12]
          (tabulate (N * 12)
             (fun k => if k mod 12 <? 6
                       then (elt p k * elt s (if M =? 1 then 0 else k / 12))%Q
                       else elt p k))).
Proof.
  intros Hp Hwf Hs HM. unfold scale_pinhole. rewrite Hp, Hs.
  cbn [rbind py_assert is_Nx12 length nth Nat.eqb andb].
  assert (Hf : shape (first6 p) = [N; 6]) by (unfold first6; by rewrite Hp).
  assert (Hu : shape (unsqueeze_last s) = [M; 1])
    by (unfold unsqueeze_last; by rewrite Hs).
  rewrite Hf, Hu, (broadcast_column N M HM).
  cbn [rev app compat_rev]. rewrite !Nat.eqb_refl. cbn [orb andb].
  unfold tensor_wf in Hwf. rewrite Hp in Hwf. rewrite Hwf.
  change (numel [N; 12]) with (N * (12 * 1)). rewrite Nat.mul_1_r.
  do 2 f_equal. apply tabulate_ext. intros k Hk.
  destruct (Nat.ltb_spec (k mod 12) 6) as [Hc|Hc]; [|done].
  assert (Hq : k / 12 < N) by (apply Nat.Div0.div_lt_upper_bound; lia).
  set (k' := k / 12 * 6 + k mod 12).
  assert (Hk' : k' < N * 6) by (unfold k'; nia).
  assert (Hnum : numel [N; 6] = N * 6) by (cbn; lia).
  unfold expand. rewrite Hnum, nth_tabulate by done.
  unfold bmul. rewrite Hf, Hu. cbn [shape rev app].
  assert (Hid : src_index [6; N] [6; N] k' = k').
  { apply src_index_id. change (numel [6; N]) with (6 * (N * 1)). lia. }
  rewrite Hid. unfold elt at 1. cbn [data].
  rewrite Hnum, nth_tabulate by done. rewrite Hid.
  assert (Hd : k' / 6 = k / 12) by (unfold k'; by apply block_div).
  assert (Hm : k' mod 6 = k mod 12) by (unfold k'; by apply block_mod).
  f_equal.
  - unfold elt at 1, first6. rewrite Hp. cbn [data nth].
    rewrite nth_tabulate by done. rewrite Hd, Hm. f_equal.
    pose proof (Nat.div_mod_eq k 12). lia.
  - unfold elt, unsqueeze_last. cbn [data]. f_equal.
    cbn [src_index]. change (1 =? 1) with true. cbn iota.
    rewrite Hd.
    destruct (Nat.eqb_spec M 1) as [->|HM1]; [lia|].
    destruct HM as [->|]; [|done].
    rewrite Nat.mod_small by done. lia.
Qed.

(** X11.  On an [N x 12] tensor and a vector of [M] scales with [M = N]
    or [M = 1], [scale_pinhole] returns a new [N x 12] tensor: in every
    row the first six parameters ([fx], [fy], [cx], [cy], height, width)
    are multiplied by the scale of the row (by the single scale when
    [M = 1]) and the last six (the pose) are those of the argument. *)
Theorem scale_pinhole_entries (p s : tensor) (N M : nat)
    (Hp : shape p = [N; 12]) (Hwf : tensor_wf p)
    (Hs : shape s = [M]) (Hsw : tensor_wf s) (HM : M = N \/ M = 1) :
  exists t, scale_pinhole p s = Ok t
    /\ shape t = [N; 12] /\ tensor_wf t
    /\ forall n c, n < N -> c < 12 ->
         param t n c
         = if c <? 6 then (param p n c * elt s (if M =? 1 then 0 else n))%Q
           else param p n c.
Proof.
  rewrite (scale_pinhole_ok p s N M Hp Hwf Hs HM).
  eexists. split; [reflexivity|]. split; [done|]. split.
  { unfold tensor_wf. cbn [shape data]. rewrite length_tabulate. cbn. lia. }
  intros n c Hn Hc. unfold param at 1, elt at 1. cbn [data].
  rewrite nth_tabulate by nia.
  by rewrite block_mod, block_div.
Qed.

Lemma scale_pinhole_entries_witness :
  exists t, scale_pinhole p1 (Tensor [1] [2%Q]) = Ok t
    /\ shape t = [1; 12]
    /\ param t 0 0 = (param p1 0 0 * 2)%Q
    /\ param t 0 11 = param p1 0 11.
Proof.
  destruct (scale_pinhole_entries p1 (Tensor [1] [2%Q]) 1 1
              eq_refl eq_refl eq_refl eq_refl (or_introl eq_refl))
    as (t & Ht & Hsh & _ & Hent).
  exists t. split; [exact Ht|]. split; [exact Hsh|]. split.
  - exact (Hent 0 0 ltac:(lia) ltac:(lia)).
  - exact (Hent 0 11 ltac:(lia) ltac:(lia)).
Defined.

(** X12.  [scale_pinhole] raises [AssertionError] carrying the shape of
    the first argument when that is not [N x 12], [AssertionError]
    carrying the shape of the second when that is not a vector, and
    [RuntimeError] when the vector has neither one scale nor one scale
    per row. *)
Theorem scale_pinhole_rejects (p s : tensor) :
  (is_Nx12 (shape p) = false ->
     scale_pinhole p s = Raise (AssertionError (shape p)))
  /\ (is_Nx12 (shape p) = true -> length (shape s) <> 1 ->
        scale_pinhole p s = Raise (AssertionError (shape s)))
  /\ (forall N M, shape p = [N; 12] -> shape s = [M] -> M <> N -> M <> 1 ->
        scale_pinhole p s = Raise RuntimeError).
Proof.
  repeat split.
  - intros H. unfold scale_pinhole. by rewrite H.
  - intros H Hl. unfold scale_pinhole. rewrite H.
    apply Nat.eqb_neq in Hl. by rewrite Hl.
  - intros N M Hp Hs HN H1. unfold scale_pinhole. rewrite Hp, Hs.
    cbn [rbind py_assert is_Nx12 length nth Nat.eqb andb].
    assert (Hf : shape (first6 p) = [N; 6]) by (unfold first6; by rewrite Hp).
    assert (Hu : shape (unsqueeze_last s) = [M; 1])
      by (unfold unsqueeze_last; by rewrite Hs).
    rewrite Hf, Hu.
    pose proof (broadcast_column_fails N M HN H1) as Hfail.
    destruct (broadcast_shapes [N; 6] [M; 1]) as [r|]; [|done].
    cbn [rev app]. by rewrite Hfail.
Qed.

Lemma scale_pinhole_rejects_witness :
  scale_pinhole (zeros [3; 3]) (zeros [1]) = Raise (AssertionError [3; 3])
  /\ scale_pinhole p1 (zeros [1; 1]) = Raise (AssertionError [1; 1])
  /\ scale_pinhole p1 (zeros [2]) = Raise RuntimeError.
Proof.
  destruct (scale_pinhole_rejects (zeros [3; 3]) (zeros [1])) as (H1 & _ & _).
  destruct (scale_pinhole_rejects p1 (zeros [1; 1])) as (_ & H2 & _).
  destruct (scale_pinhole_rejects p1 (zeros [2])) as (_ & _ & H3).
  split; [exact (H1 eq_refl)|]. split.
  - apply H2; [reflexivity | cbn; lia].
  - apply (H3 1 2); [reflexivity | reflexivity | lia | lia].
Defined.

(** X13.  The matrix of a scaled pinhole: [pinhole_matrix] applied to
    the result of [scale_pinhole] has [fx], [cx], [fy] and [cy] of each
    row multiplied by the scale of the row, and the entries the
    parameters do not reach unchanged. *)
Theorem scaled_pinhole_matrix (p s : tensor) (eps : Q) (N M : nat)
    (Hp : shape p = [N; 12]) (Hwf : tensor_wf p)
    (Hs : shape s = [M]) (Hsw : tensor_wf s) (HM : M = N \/ M = 1) :
  exists t k k0,
    scale_pinhole p s = Ok t /\ pinhole_matrix t eps = Ok k
    /\ pinhole_matrix p eps = Ok k0
    /\ shape k = [N; 4; 4]
    /\ forall n i j, n < N -> i < 4 -> j < 4 ->
         entry k n i j
         = if (i <? 2) && ((i =? j) || (j =? 2))
           then (entry k0 n i j * elt s (if M =? 1 then 0 else n))%Q
           else entry k0 n i j.
Proof.
  pose proof (scale_pinhole_ok p s N M Hp Hwf Hs HM) as Ht.
  set (t := Tensor _ _) in Ht.
  assert (Hst : shape t = [N; 12]) by done.
  destruct (pinhole_matrix_ok t eps N Hst) as (k & Hk & Hsh & _ & Hent).
  destruct (pinhole_matrix_ok p eps N Hp) as (k0 & Hk0 & _ & _ & Hent0).
  exists t, k, k0. repeat split; try done.
  intros n i j Hn Hi Hj. rewrite Hent, Hent0 by done.
  assert (Hpar : forall c, c < 6 ->
            param t n c = (param p n c * elt s (if M =? 1 then 0 else n))%Q).
  { intros c Hc. unfold param at 1, elt at 1, t. cbn [data].
    rewrite nth_tabulate by nia. rewrite block_mod, block_div by lia.
    destruct (Nat.ltb_spec c 6); [done|lia]. }
  cases_lt4 i Hi; cases_lt4 j Hj; cbn [pinhole_entry Nat.ltb Nat.leb Nat.eqb andb orb];
    try reflexivity; by rewrite Hpar by lia.
Qed.

Lemma scaled_pinhole_matrix_witness :
  exists t k,
    scale_pinhole p1 (Tensor [1] [2%Q]) = Ok t
    /\ pinhole_matrix t default_eps = Ok k
    /\ (entry k 0 0 0 == 1000)%Q /\ (entry k 0 1 2 == 480)%Q.
Proof.
  destruct (scaled_pinhole_matrix p1 (Tensor [1] [2%Q]) default_eps 1 1
              eq_refl eq_refl eq_refl eq_refl (or_introl eq_refl))
    as (t & k & k0 & Ht & Hk & Hk0 & _ & Hent).
  exists t, k. split; [exact Ht|]. split; [exact Hk|].
  injection Hk0 as <-. split.
  - rewrite (Hent 0 0 0) by lia. reflexivity.
  - rewrite (Hent 0 1 2) by lia. reflexivity.
Defined.
(** ** Edge cases of [PinholeCamerasList] *)

Lemma norm_index_some (idx : Z) (n i : nat) :
  norm_index idx n = Some i ->
  i < n /\ norm_index (Z.of_nat i) n = Some i.
Proof.
  intros H. assert (Hlt : i < n).
  { unfold norm_index in H.
    destruct (Z.leb_spec 0 idx); destruct (Z.ltb_spec idx (Z.of_nat n));
      cbn [andb] in H; try (injection H as <-; lia);
      destruct (Z.leb_spec (- Z.of_nat n) idx);
      destruct (Z.ltb_spec idx 0); cbn [andb] in H;
      try done; injection H as <-; lia. }
  split; [exact Hlt | by apply norm_index_nat].
Qed.

Lemma norm_index_in_range (idx : Z) (n : nat) :
  (- Z.of_nat n <= idx < Z.of_nat n)%Z ->
  norm_index idx n = Some (Z.to_nat (idx mod Z.of_nat n)).
Proof.
  intros Hr. unfold norm_index.
  destruct (Z.leb_spec 0 idx); destruct (Z.ltb_spec idx (Z.of_nat n));
    cbn [andb]; try lia.
  - by rewrite Z.mod_small by lia.
  - destruct (Z.leb_spec (- Z.of_nat n) idx); [|lia].
    destruct (Z.ltb_spec idx 0); [|lia]. cbn [andb]. do 2 f_equal.
    apply (Z.mod_unique_pos _ _ (-1)); lia.
Qed.

Lemma norm_index_out_of_range (idx : Z) (n : nat) :
  (idx < - Z.of_nat n \/ Z.of_nat n <= idx)%Z -> norm_index idx n = None.
Proof.
  intros Hr. unfold norm_index.
  destruct (Z.leb_spec 0 idx); destruct (Z.ltb_spec idx (Z.of_nat n));
    cbn [andb]; try lia; try done;
    destruct (Z.leb_spec (- Z.of_nat n) idx);
    destruct (Z.ltb_spec idx 0); cbn [andb]; try done; lia.
Qed.

Lemma select_dim1_stacked_index (b : nat) (rest : list nat) (ts : list tensor)
    (idx : Z) (i : nat) (t : tensor) :
  Forall (fun t => shape t = b :: rest /\ tensor_wf t) ts ->
  norm_index idx (length ts) = Some i ->
  ts !! i = Some t ->
  select_dim1 (stacked b rest ts) idx = Ok t.
Proof.
  intros Hall Hidx Hi.
  rewrite <- (select_dim1_stacked b rest ts i t Hall Hi).
  destruct (norm_index_some _ _ _ Hidx) as [_ Hnat].
  unfold select_dim1, stacked. cbn [shape]. by rewrite Hidx, Hnat.
Qed.

Lemma select_last_stacked_index (b : nat) (ts : list tensor)
    (idx : Z) (i : nat) (t : tensor) :
  Forall (fun t => shape t = [b] /\ tensor_wf t) ts ->
  norm_index idx (length ts) = Some i ->
  ts !! i = Some t ->
  select_last (stacked b [] ts) idx = Ok t.
Proof.
  intros Hall Hidx Hi.
  rewrite <- (select_last_stacked b ts i t Hall Hi).
  destruct (norm_index_some _ _ _ Hidx) as [_ Hnat].
  unfold select_last, stacked. cbn [shape rev app]. by rewrite Hidx, Hnat.
Qed.

(** [get_pinhole] at a Python index that addresses camera [i]. *)
Lemma get_pinhole_run_index T O b (ths tws tis tes : list tensor) (idx : Z)
    (i : nat) (ti te th tw : tensor) :
  let n := length T in
  let ol := Camera PinholeCamerasListC n (n + 1) (n + 2) (n + 3) in
  let stacks := [stacked b [] ths; stacked b [] tws;
                 stacked b [4; 4] tis; stacked b [4; 4] tes] in
  b <> 0 ->
  Forall (fun t => shape t = [b; 4; 4] /\ tensor_wf t) tis ->
  Forall (fun t => shape t = [b; 4; 4] /\ tensor_wf t) tes ->
  Forall (fun t => shape t = [b] /\ tensor_wf t) ths ->
  Forall (fun t => shape t = [b] /\ tensor_wf t) tws ->
  norm_index idx (length tis) = Some i -> norm_index idx (length tes) = Some i ->
  norm_index idx (length ths) = Some i -> norm_index idx (length tws) = Some i ->
  tis !! i = Some ti -> tes !! i = Some te ->
  ths !! i = Some th -> tws !! i = Some tw ->
  PinholeCamerasList.get_pinhole (length O) idx
    (State (T ++ stacks) (O ++ [ol]))
  = (Ok (length O + 1),
     State (T ++ stacks ++ [th; tw; ti; te])
           (O ++ [ol; Camera PinholeCameraC (n + 4) (n + 5) (n + 6) (n + 7)])).
Proof.
  intros n ol stacks Hb Htis Htes Hths Htws Hni Hne Hnh Hnw Hti Hte Hth Htw.
  subst n ol stacks.
  match goal with
  | |- context [O ++ [?x]] =>
      assert (Hol : (O ++ [x]) !! length O = Some x) by by rewrite lookup_app_at0
  end.
  assert (Hsi : shape ti = [b; 4; 4] /\ shape te = [b; 4; 4]
                /\ shape th = [b] /\ shape tw = [b]).
  { rewrite Forall_forall in Htis, Htes, Hths, Htws.
    repeat split; [eapply Htis | eapply Htes | eapply Hths | eapply Htws];
      by eapply list_elem_of_lookup_2. }
  destruct Hsi as (Hsti & Hste & Hsth & Hstw).
  unfold PinholeCamerasList.get_pinhole.
  step ltac:(eapply get_height_ok; cbn [objects]; exact Hol).
  step ltac:(eapply read_ok; cbn [tensors height]; by rewrite lookup_app_at0).
  step ltac:(eapply lift_ok; by eapply select_last_stacked_index).
  step ltac:(reflexivity).
  norm.
  step ltac:(eapply get_width_ok; cbn [objects]; exact Hol).
  step ltac:(eapply read_ok; cbn [tensors width]; by rewrite lookup_app_at).
  step ltac:(eapply lift_ok; by eapply select_last_stacked_index).
  step ltac:(reflexivity).
  norm.
  step ltac:(eapply intrinsics_ok;
             [cbn [objects]; exact Hol
             | cbn [tensors _intrinsics]; by rewrite lookup_app_at
             | done]).
  step ltac:(eapply read_ok; cbn [tensors _intrinsics]; by rewrite lookup_app_at).
  step ltac:(eapply lift_ok; by eapply select_dim1_stacked_index).
  step ltac:(reflexivity).
  norm.
  step ltac:(eapply extrinsics_ok;
             [cbn [objects]; exact Hol
             | cbn [tensors _extrinsics]; by rewrite lookup_app_at
             | done]).
  step ltac:(eapply read_ok; cbn [tensors _extrinsics]; by rewrite lookup_app_at).
  step ltac:(eapply lift_ok; by eapply select_dim1_stacked_index).
  step ltac:(reflexivity).
  norm.
  erewrite (init_ok _ _ _ _ ti te th tw b); cbn [tensors objects]; try done.
  - norm. reflexivity.
  - by rewrite lookup_app_at.
  - by rewrite lookup_app_at.
  - by rewrite lookup_app_at.
  - by rewrite lookup_app_at.
  - by left.
  - by left.
Qed.

(** [get_pinhole] stops at its first slice when the index is out of
    range. *)
Lemma get_pinhole_out_of_range st l o th (idx : Z) (b n : nat) :
  objects st !! l = Some o -> tensors st !! height o = Some th ->
  shape th = [b; n] -> norm_index idx n = None ->
  PinholeCamerasList.get_pinhole l idx st = (Raise IndexError, st).
Proof.
  intros Ho Hth Hs Hidx. unfold PinholeCamerasList.get_pinhole.
  rewrite (bind_ok _ _ _ _ _ (get_height_ok _ _ _ Ho)).
  rewrite (bind_ok _ _ _ _ _ (read_ok _ _ _ Hth)).
  unfold bind, lift, select_last. rewrite Hs. cbn [rev app]. by rewrite Hidx.
Qed.

(** X14.  [get_pinhole] follows Python indexing on a collection built
    from [N] valid cameras: an index [idx] with [-N <= idx < N] returns
    a new camera whose four tensors equal those of camera [idx mod N] of
    the list (so [-1] is the last camera), and any other index raises
    [IndexError] and leaves the state as it was. *)
Theorem get_pinhole_python_index (st : state) (b : nat) (cams : list ref)
    (infos : list (tensor * tensor * tensor * tensor))
    (Hnonempty : cams <> [])
    (Hcams : Forall2 (single_camera st b) cams infos) :
  let N := Z.of_nat (length cams) in
  exists l st',
    PinholeCamerasList.__init__ cams st = (Ok l, st')
    /\ (forall idx, (- N <= idx < N)%Z ->
          exists c c' o' st'',
            cams !! Z.to_nat (idx mod N) = Some c
            /\ PinholeCamerasList.get_pinhole l idx st' = (Ok c', st'')
            /\ objects st' !! c' = None
            /\ objects st'' !! c' = Some o'
            /\ cls o' = PinholeCameraC
            /\ camera_tensors st'' c' = camera_tensors st c)
    /\ (forall idx, (idx < - N \/ N <= idx)%Z ->
          PinholeCamerasList.get_pinhole l idx st' = (Raise IndexError, st')).
Proof.
  intros N.
  pose proof (collection_init_run _ _ _ _ Hnonempty Hcams) as Hrun.
  cbn zeta in Hrun.
  destruct (Forall2_single_shapes _ _ _ _ Hcams) as (Hsi & Hse & Hsh & Hsw).
  assert (Hlen : length infos = length cams) by (symmetry; by eapply Forall2_length).
  assert (Hb : b <> 0).
  { destruct Hcams as [|c [[[ti te] th] tw] ? ? (o & Hv & _) _]; [done|].
    by destruct Hv. }
  set (n := length (tensors st)) in *.
  set (ol := Camera PinholeCamerasListC n (n + 1) (n + 2) (n + 3)) in *.
  set (st' := State _ _) in Hrun.
  assert (Hol : objects st' !! length (objects st) = Some ol).
  { unfold st'. cbn [objects]. by rewrite lookup_app_at0. }
  exists (length (objects st)), st'. split; [exact Hrun|]. split.
  - intros idx Hr.
    pose proof (norm_index_in_range idx (length cams) Hr) as Hidx.
    fold N in Hidx. set (i := Z.to_nat (idx mod N)) in *.
    destruct (norm_index_some _ _ _ Hidx) as [Hi _].
    destruct (lookup_lt_is_Some_2 cams i Hi) as [c Hc].
    destruct (Forall2_lookup_l _ _ _ _ _ Hcams Hc) as (info & Hinfo & Hsingle).
    destruct info as [[[ti te] th] tw].
    assert (Hidx' : forall f : tensor * tensor * tensor * tensor -> tensor,
               norm_index idx (length (map f infos)) = Some i).
    { intros f. by rewrite length_map, Hlen. }
    pose proof (get_pinhole_run_index (tensors st) (objects st) b
                  (map info_h infos) (map info_w infos)
                  (map info_i infos) (map info_e infos) idx i ti te th tw) as Hget.
    cbn zeta in Hget.
    specialize (Hget Hb Hsi Hse Hsh Hsw (Hidx' _) (Hidx' _) (Hidx' _) (Hidx' _)
                  (lookup_map info_i _ _ _ Hinfo) (lookup_map info_e _ _ _ Hinfo)
                  (lookup_map info_h _ _ _ Hinfo) (lookup_map info_w _ _ _ Hinfo)).
    match type of Hget with _ = (Ok ?c2, ?s2) => set (st2 := s2) in * end.
    assert (Hobj : objects st2 !! (length (objects st) + 1)
                   = Some (Camera PinholeCameraC (n + 4) (n + 5) (n + 6) (n + 7))).
    { unfold st2. cbn [objects]. by rewrite (lookup_app_at _ _ 1). }
    eexists c, (length (objects st) + 1), _, st2.
    split; [exact Hc|]. split; [exact Hget|]. split.
    { apply lookup_ge_None. unfold st'. cbn [objects].
      rewrite length_app. cbn [length]. lia. }
    split; [exact Hobj|]. split; [done|].
    rewrite (single_camera_tensors _ _ _ _ Hsingle).
    unfold camera_tensors. rewrite Hobj.
    cbn [_intrinsics _extrinsics height width]. unfold st2, n.
    cbn [tensors]. by rewrite !lookup_app_at.
  - intros idx Hr.
    eapply (get_pinhole_out_of_range _ _ _ _ _ b (length cams)); [exact Hol | | | ].
    + unfold st', ol, n. cbn [tensors height]. by rewrite lookup_app_at0.
    + unfold stacked. cbn [shape]. by rewrite length_map, Hlen.
    + by apply norm_index_out_of_range.
Qed.

Lemma get_pinhole_python_index_witness :
  exists l st' c' st'',
    PinholeCamerasList.__init__ [0; 1] st_pair = (Ok l, st')
    /\ PinholeCamerasList.get_pinhole l (-1) st' = (Ok c', st'')
    /\ camera_tensors st'' c' = Some (K2, E1, H2, W2)
    /\ PinholeCamerasList.get_pinhole l 2 st' = (Raise IndexError, st').
Proof.
  assert (Hne : [0; 1] <> @nil nat) by discriminate.
  destruct (get_pinhole_python_index st_pair 1 [0; 1] _ Hne st_pair_cameras)
    as (l & st' & Hrun & Hin & Hout).
  destruct (Hin (-1)%Z ltac:(cbn; lia)) as (c & c' & o' & st'' & Hc & Hget & _ & _ & _ & Hct).
  exists l, st', c', st''. split; [exact Hrun|]. split; [exact Hget|]. split.
  - rewrite Hct. cbn in Hc. injection Hc as <-. reflexivity.
  - apply Hout. cbn. lia.
Defined.

Lemma torch_stack1_mismatch (ts : list tensor) (t0 t : tensor) (j : nat) :
  ts !! 0 = Some t0 -> ts !! j = Some t ->
  shape t0 <> [] -> shape t <> shape t0 ->
  torch_stack1 ts = Raise RuntimeError.
Proof.
  intros H0 Hj Hne Hdiff. destruct ts as [|t0' ts']; [done|].
  injection H0 as ->. unfold torch_stack1.
  destruct (shape t0) as [|b0 rest] eqn:Hs; [done|].
  destruct (forallb _ _) eqn:Hall; [|done].
  rewrite forallb_forall in Hall.
  assert (Hin : In t (t0 :: ts')).
  { apply list_elem_of_In. by eapply list_elem_of_lookup_2. }
  specialize (Hall t Hin). by apply bool_decide_eq_true_1 in Hall.
Qed.

(** The heights [collect] gathers from cameras of any batch sizes. *)
Lemma collect_heights st cams :
  Forall (fun c => exists b, camera_of_batch st b c) cams ->
  exists hs ws ks es ths,
    PinholeCamerasList.collect cams st = (Ok (hs, ws, ks, es), st)
    /\ Forall2 (held st) hs ths
    /\ Forall2 (fun c th => forall b, camera_of_batch st b c -> shape th = [b])
         cams ths.
Proof.
  induction 1 as [|c cams Hc _ IH].
  { exists [], [], [], [], []. repeat split; constructor. }
  destruct IH as (hs & ws & ks & es & ths & Hrun & Hh & Hshapes).
  destruct Hc as (b & o & ti & te & th & tw & Hv). destruct Hv.
  exists (height o :: hs), (width o :: ws), (_intrinsics o :: ks),
         (_extrinsics o :: es), (th :: ths).
  split; [|split].
  - cbn [PinholeCamerasList.collect].
    step ltac:(eapply get_height_ok; eassumption).
    step ltac:(eapply get_width_ok; eassumption).
    step ltac:(eapply intrinsics_ok;
               [eassumption | eassumption | by eapply params_shape_rank]).
    step ltac:(eapply extrinsics_ok;
               [eassumption | eassumption | by eapply params_shape_rank]).
    by rewrite (bind_ok _ _ _ _ _ Hrun).
  - by constructor.
  - constructor; [|done].
    intros b' (o' & ti' & te' & th' & tw' & Hv'). destruct Hv'.
    congruence.
Qed.

(** X15.  The constructor of the collection raises [RuntimeError] and
    leaves the state as it was in two cases: on the empty list (there is
    nothing to stack), and on a list of valid cameras one of which has a
    batch size other than that of the first (the heights cannot be
    stacked). *)
Theorem collection_rejects (st : state) :
  PinholeCamerasList.__init__ [] st = (Raise RuntimeError, st)
  /\ forall (cams : list ref) (c1 c2 : ref) (b1 b2 j : nat),
       Forall (fun c => exists b, camera_of_batch st b c) cams ->
       cams !! 0 = Some c1 -> cams !! j = Some c2 ->
       camera_of_batch st b1 c1 -> camera_of_batch st b2 c2 ->
       b1 <> b2 ->
       PinholeCamerasList.__init__ cams st = (Raise RuntimeError, st).
Proof.
  split; [reflexivity|].
  intros cams c1 c2 b1 b2 j Hcams Hfirst Hother Hb1 Hb2 Hdiff.
  destruct (collect_heights st cams Hcams)
    as (hs & ws & ks & es & ths & Hrun & Hh & Hshapes).
  destruct (Forall2_lookup_l _ _ _ _ _ Hshapes Hfirst) as (t1 & Ht1 & Hs1).
  destruct (Forall2_lookup_l _ _ _ _ _ Hshapes Hother) as (t2 & Ht2 & Hs2).
  specialize (Hs1 b1 Hb1). specialize (Hs2 b2 Hb2).
  assert (Hstack : torch_stack1 ths = Raise RuntimeError).
  { eapply torch_stack1_mismatch; [exact Ht1 | exact Ht2 | by rewrite Hs1 |].
    rewrite Hs1, Hs2. congruence. }
  unfold PinholeCamerasList.__init__, PinholeCamerasList._initialize_parameters.
  rewrite (bind_ok _ _ _ _ _ Hrun).
  unfold bind at 1, PinholeCamerasList.stack.
  rewrite (bind_ok _ _ _ _ _ (read_all_run _ _ _ Hh)).
  unfold bind, lift. by rewrite Hstack.
Qed.

Lemma st_mixed_cameras :
  camera_of_batch st_mixed 1 0 /\ camera_of_batch st_mixed 2 1.
Proof.
  split.
  - exists cam1, K1, E1, H1, W1. constructor; try done; by left.
  - eexists _, _, _, _, _. constructor; try reflexivity; try done; by left.
Qed.

Lemma collection_rejects_witness :
  PinholeCamerasList.__init__ [0; 1] st_mixed = (Raise RuntimeError, st_mixed).
Proof.
  destruct st_mixed_cameras as [H1 H2].
  destruct (collection_rejects st_mixed) as [_ Hmixed].
  apply (Hmixed [0; 1] 0 1 1 2 1).
  - repeat constructor; eauto.
  - reflexivity.
  - reflexivity.
  - exact H1.
  - exact H2.
  - lia.
Defined.
(** ** The two matrices at [eps = 0] *)

(** X16.  With [eps = 0] and non-zero focal lengths the matrices of
    [pinhole_matrix] and [inverse_pinhole_matrix] are inverses of each
    other: both products are the identity in every entry, in exact
    arithmetic. *)
Theorem exact_inverse_without_eps (p : tensor) (N : nat)
    (Hshape : shape p = [N; 12])
    (Hfocal : forall n, n < N ->
       ~ (param p n 0 == 0)%Q /\ ~ (param p n 1 == 0)%Q) :
  exists k kinv left right,
    pinhole_matrix p 0 = Ok k
    /\ inverse_pinhole_matrix p 0 = Ok kinv
    /\ matmul kinv k = Ok left
    /\ matmul k kinv = Ok right
    /\ forall n i j, n < N -> i < 4 -> j < 4 ->
         (entry left n i j == eye i j)%Q /\ (entry right n i j == eye i j)%Q.
Proof.
  destruct (pinhole_matrix_ok p 0 N Hshape) as (k & Hk & Hks & _ & Hke).
  destruct (inverse_pinhole_matrix_ok p 0 N Hshape) as (ki & Hki & Hkis & _ & Hkie).
  destruct (matmul_entry ki k N Hkis Hks) as (l & Hl & _ & Hle).
  destruct (matmul_entry k ki N Hks Hkis) as (r & Hr & _ & Hre).
  exists k, ki, l, r. do 4 (split; [done|]).
  intros n i j Hn Hi Hj.
  destruct (Hfocal n Hn) as [Hfx Hfy].
  rewrite Hle, Hre by done. unfold dot. cbn [seq fold_right].
  rewrite !Hke, !Hkie by lia.
  split; cases_lt4 i Hi; cases_lt4 j Hj;
    unfold inverse_entry, pinhole_entry, eye; cbn [Nat.eqb];
    field; rewrite ?Qplus_0_r; done.
Qed.

Lemma exact_inverse_without_eps_witness :
  exists k kinv left right,
    pinhole_matrix p1 0 = Ok k
    /\ inverse_pinhole_matrix p1 0 = Ok kinv
    /\ matmul kinv k = Ok left
    /\ matmul k kinv = Ok right
    /\ (entry left 0 0 2 == 0)%Q /\ (entry right 0 1 1 == 1)%Q.
Proof.
  assert (Hfocal : forall n, n < 1 ->
            ~ (param p1 n 0 == 0)%Q /\ ~ (param p1 n 1 == 0)%Q).
  { intros n Hn. assert (n = 0) as -> by lia. split; discriminate. }
  destruct (exact_inverse_without_eps p1 1 eq_refl Hfocal)
    as (k & kinv & l & r & Hk & Hkinv & Hl & Hr & Hall).
  exists k, kinv, l, r. repeat split; try done.
  - apply (Hall 0 0 2); lia.
  - apply (Hall 0 1 1); lia.
Defined.
(** ** The matrix views of a camera *)

(** Rows [0..2] and columns [ca .. ca + nc - 1] of a batch of [4 x 4]
    matrices. *)
Lemma slice_rows3 (t : tensor) (vs : list nat) (c0 c1 : option Z) (ca nc : nat) :
  split_last2 (shape t) = Some (vs, 4, 4) ->
  slice_bound c0 4 0 = ca -> slice_bound c1 4 4 = ca + nc ->
  exists s, slice_last2 t None (Some 3%Z) c0 c1 = Ok s
    /\ shape s = vs ++ [3; nc]
    /\ forall m i j, m < numel vs -> i < 3 -> j < nc ->
         mat_entry s 3 nc m i j = mat_entry t 4 4 m i (ca + j).
Proof.
  intros Hsp Ha Hb. unfold slice_last2. rewrite Hsp, Ha, Hb.
  destruct slice_bound_values as (-> & -> & _).
  replace (ca + nc - ca) with nc by lia. cbn [Nat.sub].
  eexists. split; [reflexivity|]. split; [done|].
  intros m i j Hm Hi Hj. unfold mat_entry at 1, elt at 1. cbn [data].
  assert (Hin : i * nc + j < 3 * nc) by nia.
  rewrite <- Nat.add_assoc.
  rewrite nth_tabulate by nia.
  rewrite block_div, block_mod by done.
  rewrite block_div, block_mod by done.
  unfold mat_entry. f_equal.
Qed.

Lemma slice_bound_more :
  slice_bound (Some 3%Z) 4 4 = 0 + 3 /\ slice_bound (Some 4%Z) 4 4 = 0 + 4
  /\ slice_bound None 4 4 = 3 + 1.
Proof. done. Qed.

(** X17.  The four matrix views of a valid camera read the stored
    tensors and leave the state as it is: [camera_matrix] is the upper
    left [3 x 3] block of every intrinsics matrix, [rotation_matrix] the
    upper left [3 x 3] block of every extrinsics matrix,
    [translation_vector] the first three entries of its last column, and
    [rt_matrix] its first three rows, that is, the rotation followed by
    the translation. *)
Theorem matrix_views (st : state) (c : ref) (o : camera) (b : nat)
    (ti te th tw : tensor)
    (Hvalid : valid_camera st c o b ti te th tw) :
  exists cm rt rot tv,
    PinholeCamera.camera_matrix c st = (Ok cm, st)
    /\ PinholeCamera.rt_matrix c st = (Ok rt, st)
    /\ PinholeCamera.rotation_matrix c st = (Ok rot, st)
    /\ PinholeCamera.translation_vector c st = (Ok tv, st)
    /\ shape cm = lead (shape ti) ++ [3; 3]
    /\ shape rt = lead (shape te) ++ [3; 4]
    /\ shape rot = lead (shape te) ++ [3; 3]
    /\ shape tv = lead (shape te) ++ [3; 1]
    /\ (forall m i j, m < numel (lead (shape ti)) -> i < 3 -> j < 3 ->
          mat_entry cm 3 3 m i j = mat_entry ti 4 4 m i j)
    /\ (forall m i, m < numel (lead (shape te)) -> i < 3 ->
          (forall j, j < 3 ->
             mat_entry rot 3 3 m i j = mat_entry te 4 4 m i j
             /\ mat_entry rt 3 4 m i j = mat_entry rot 3 3 m i j)
          /\ mat_entry tv 3 1 m i 0 = mat_entry te 4 4 m i 3
          /\ mat_entry rt 3 4 m i 3 = mat_entry tv 3 1 m i 0).
Proof.
  destruct Hvalid.
  assert (Hri := params_shape_rank _ _ vc_shape_i0).
  assert (Hre := params_shape_rank _ _ vc_shape_e0).
  assert (Hsi := params_shape_split _ _ vc_shape_i0).
  assert (Hse := params_shape_split _ _ vc_shape_e0).
  destruct slice_bound_values as (H0 & _ & _ & Hm1 & _).
  destruct slice_bound_more as (H3 & H4 & Hn).
  destruct (slice_rows3 ti _ None (Some 3%Z) 0 3 Hsi H0 H3) as (cm & Hcm & Hscm & Hecm).
  destruct (slice_rows3 te _ None (Some 4%Z) 0 4 Hse H0 H4) as (rt & Hrt & Hsrt & Hert).
  destruct (slice_rows3 te _ None (Some 3%Z) 0 3 Hse H0 H3) as (rot & Hrot & Hsrot & Herot).
  destruct (slice_rows3 te _ (Some (-1)%Z) None 3 1 Hse Hm1 Hn) as (tv & Htv & Hstv & Hetv).
  exists cm, rt, rot, tv.
  split.
  { unfold PinholeCamera.camera_matrix.
    rewrite (intrinsics_view_run _ _ _ _
               (fun t => slice_last2 t None (Some 3%Z) None (Some 3%Z))
               vc_obj0 vc_intrinsics0 Hri).
    by rewrite Hcm. }
  split.
  { unfold PinholeCamera.rt_matrix.
    rewrite (extrinsics_view_run _ _ _ _
               (fun t => slice_last2 t None (Some 3%Z) None (Some 4%Z))
               vc_obj0 vc_extrinsics0 Hre).
    by rewrite Hrt. }
  split.
  { unfold PinholeCamera.rotation_matrix.
    rewrite (extrinsics_view_run _ _ _ _
               (fun t => slice_last2 t None (Some 3%Z) None (Some 3%Z))
               vc_obj0 vc_extrinsics0 Hre).
    by rewrite Hrot. }
  split.
  { unfold PinholeCamera.translation_vector.
    rewrite (extrinsics_view_run _ _ _ _
               (fun t => slice_last2 t None (Some 3%Z) (Some (-1)%Z) None)
               vc_obj0 vc_extrinsics0 Hre).
    by rewrite Htv. }
  do 4 (split; [done|]). split.
  { intros m i j Hm Hi Hj. by rewrite Hecm. }
  intros m i Hm Hi. split; [|split].
  - intros j Hj. rewrite Herot, Hert by lia. done.
  - rewrite Hetv by lia. by rewrite Nat.add_0_r.
  - rewrite Hetv, Hert by lia. by rewrite Nat.add_0_r.
Qed.

Lemma matrix_views_witness :
  exists cm rt rot tv,
    PinholeCamera.camera_matrix 0 st1 = (Ok cm, st1)
    /\ PinholeCamera.rt_matrix 0 st1 = (Ok rt, st1)
    /\ PinholeCamera.rotation_matrix 0 st1 = (Ok rot, st1)
    /\ PinholeCamera.translation_vector 0 st1 = (Ok tv, st1)
    /\ mat_entry cm 3 3 0 1 2 = 240%Q
    /\ mat_entry rt 3 4 0 2 3 = mat_entry tv 3 1 0 2 0
    /\ mat_entry tv 3 1 0 2 0 = 3%Q.
Proof.
  destruct (matrix_views st1 0 cam1 1 K1 E1 H1 W1 st1_valid)
    as (cm & rt & rot & tv & Hcm & Hrt & Hrot & Htv & _ & _ & _ & _ & Hi & He).
  exists cm, rt, rot, tv. do 4 (split; [done|]).
  destruct (He 0 2 ltac:(cbn; lia) ltac:(lia)) as (_ & Ht & Hr).
  split; [|split].
  - rewrite (Hi 0 1 2) by (cbn; lia). reflexivity.
  - exact Hr.
  - rewrite Ht. reflexivity.
Defined.
(** ** Repeated scaling in place *)

Lemma Qmult_assoc_eq (x y z : Q) : (x * (y * z))%Q = (x * y * z)%Q.
Proof. unfold Qmult. cbn [Qnum Qden]. f_equal; [apply Z.mul_assoc | apply Pos.mul_assoc]. Qed.

Lemma Qmult_1_l_eq (x : Q) : (1 * x)%Q = x.
Proof. destruct x as [n d]. unfold Qmult. cbn [Qnum Qden]. by rewrite Z.mul_1_l. Qed.

Lemma tensor_eq_elt (t1 t2 : tensor) :
  shape t1 = shape t2 -> length (data t1) = length (data t2) ->
  (forall k, k < length (data t1) -> elt t1 k = elt t2 k) ->
  t1 = t2.
Proof.
  destruct t1 as [s1 d1], t2 as [s2 d2]. unfold elt. cbn [shape data].
  intros -> Hl He. f_equal. by apply (nth_ext _ _ 0%Q 0%Q).
Qed.

Lemma elt_scaled_constant (n : nat) (q : Q) (t : tensor) (k : nat) :
  length (data t) = n -> k < n ->
  elt (scaled (tabulate n (fun _ => q)) t) k = (q * elt t k)%Q.
Proof.
  intros Hl Hk. unfold elt, scaled. cbn [data].
  rewrite (nth_zip_with_lt _ _ _ k 0%Q 0%Q) by (rewrite ?length_tabulate; lia).
  by rewrite nth_tabulate.
Qed.

Lemma length_scaled_constant (n : nat) (q : Q) (t : tensor) :
  length (data t) = n -> length (data (scaled (tabulate n (fun _ => q)) t)) = n.
Proof.
  intros Hl. unfold scaled. cbn [data]. rewrite length_zip_with, length_tabulate. lia.
Qed.

Lemma scaled_twice (n : nat) (a q : Q) (t : tensor) :
  length (data t) = n ->
  scaled (tabulate n (fun _ => q)) (scaled (tabulate n (fun _ => a)) t)
  = scaled (tabulate n (fun _ => (a * q)%Q)) t.
Proof.
  intros Hl. apply tensor_eq_elt; [done| |].
  - by rewrite !length_scaled_constant by (by rewrite ?length_scaled_constant).
  - rewrite length_scaled_constant by (by rewrite length_scaled_constant).
    intros k Hk.
    rewrite !elt_scaled_constant by (by rewrite ?length_scaled_constant).
    by rewrite Qmult_assoc_eq, (Qmult_comm_eq q a).
Qed.

Lemma scaled_one (n : nat) (t : tensor) :
  length (data t) = n -> scaled (tabulate n (fun _ => 1%Q)) t = t.
Proof.
  intros Hl. apply tensor_eq_elt; [done| |].
  - by rewrite length_scaled_constant.
  - rewrite length_scaled_constant by done. intros k Hk.
    rewrite elt_scaled_constant by done. apply Qmult_1_l_eq.
Qed.

Lemma length_scale_intrinsics t fv :
  length (data (scale_intrinsics t fv)) = length (data t).
Proof. unfold scale_intrinsics. by rewrite !length_mul_ij. Qed.

Lemma elt_scale_intrinsics_constant (m : nat) (q : Q) (t : tensor) (k : nat) :
  length (data t) = m * 16 -> k < m * 16 ->
  elt (scale_intrinsics t (tabulate m (fun _ => q))) k
  = if (k mod 16 =? 0) || (k mod 16 =? 5) || (k mod 16 =? 2) || (k mod 16 =? 6)
    then (elt t k * q)%Q else elt t k.
Proof.
  intros Hl Hk.
  assert (Hp : k mod 16 < 16) by (apply Nat.mod_upper_bound; lia).
  assert (Hn : k / 16 < m) by (apply Nat.Div0.div_lt_upper_bound; lia).
  assert (Hkk : k = k / 16 * 16 + k mod 16)
    by (pose proof (Nat.div_mod_eq k 16); lia).
  transitivity (elt (scale_intrinsics t (tabulate m (fun _ => q)))
                  (k / 16 * 16 + k mod 16)); [by rewrite <- Hkk|].
  rewrite elt_scale_intrinsics by (rewrite <- ?Hkk; lia).
  rewrite nth_tabulate by done. by rewrite <- Hkk.
Qed.

Lemma scale_intrinsics_twice (m : nat) (a q : Q) (t : tensor) :
  length (data t) = m * 16 ->
  scale_intrinsics (scale_intrinsics t (tabulate m (fun _ => a)))
    (tabulate m (fun _ => q))
  = scale_intrinsics t (tabulate m (fun _ => (a * q)%Q)).
Proof.
  intros Hl. apply tensor_eq_elt.
  - by rewrite !shape_scale_intrinsics.
  - by rewrite !length_scale_intrinsics.
  - rewrite !length_scale_intrinsics, Hl. intros k Hk.
    rewrite !elt_scale_intrinsics_constant
      by (rewrite ?length_scale_intrinsics; done).
    destruct ((k mod 16 =? 0) || (k mod 16 =? 5) || (k mod 16 =? 2)
              || (k mod 16 =? 6)); [|done].
    by rewrite <- Qmult_assoc_eq.
Qed.

Lemma scale_intrinsics_one (m : nat) (t : tensor) :
  length (data t) = m * 16 ->
  scale_intrinsics t (tabulate m (fun _ => 1%Q)) = t.
Proof.
  intros Hl. apply tensor_eq_elt.
  - by rewrite shape_scale_intrinsics.
  - by rewrite length_scale_intrinsics.
  - rewrite length_scale_intrinsics, Hl. intros k Hk.
    rewrite elt_scale_intrinsics_constant by done.
    destruct ((k mod 16 =? 0) || (k mod 16 =? 5) || (k mod 16 =? 2)
              || (k mod 16 =? 6)); [|done].
    by rewrite Qmult_comm_eq, Qmult_1_l_eq.
Qed.

(** The state [scale_] leaves for a numeric factor. *)
Lemma scale__number_run st c o b ti te th tw (q : Q) :
  valid_camera st c o b ti te th tw ->
  NoDup (camera_locs o) ->
  let m := numel (lead (shape ti)) in
  PinholeCamera.scale_ c (FNum q) st
  = (Ok c,
     State (<[width o := scaled (tabulate b (fun _ => q)) tw]>
              (<[height o := scaled (tabulate b (fun _ => q)) th]>
                 (<[_intrinsics o
                    := scale_intrinsics ti (tabulate m (fun _ => q))]>
                    (tensors st))))
           (objects st)).
Proof.
  intros Hv Hnd m.
  destruct (NoDup_camera_locs _ Hnd) as (Hie & Hih & Hiw & Heh & Hew & Hhw).
  rewrite (scale__run _ _ _ _ _ _ _ _ (FNum q) Hv I I Hih Hiw Hhw I).
  unfold fvals. change (numel [b]) with (b * 1). by rewrite Nat.mul_1_r.
Qed.

Lemma scale__number_valid st c o b ti te th tw (q : Q) :
  valid_camera st c o b ti te th tw ->
  NoDup (camera_locs o) ->
  let m := numel (lead (shape ti)) in
  valid_camera
    (State (<[width o := scaled (tabulate b (fun _ => q)) tw]>
              (<[height o := scaled (tabulate b (fun _ => q)) th]>
                 (<[_intrinsics o
                    := scale_intrinsics ti (tabulate m (fun _ => q))]>
                    (tensors st))))
           (objects st))
    c o b (scale_intrinsics ti (tabulate m (fun _ => q))) te
    (scaled (tabulate b (fun _ => q)) th) (scaled (tabulate b (fun _ => q)) tw).
Proof.
  intros Hv Hnd m.
  destruct (NoDup_camera_locs _ Hnd) as (Hie & Hih & Hiw & Heh & Hew & Hhw).
  destruct Hv.
  assert (Hli := lookup_lt_Some _ _ _ vc_intrinsics0).
  assert (Hlh := lookup_lt_Some _ _ _ vc_height0).
  assert (Hlw := lookup_lt_Some _ _ _ vc_width0).
  constructor; cbn [tensors objects]; try done.
  - rewrite !list_lookup_insert_ne by done. by apply list_lookup_insert_eq.
  - by rewrite !list_lookup_insert_ne.
  - rewrite list_lookup_insert_ne by done.
    apply list_lookup_insert_eq. by rewrite length_insert.
  - apply list_lookup_insert_eq. by rewrite !length_insert.
  - by apply wf_scale_intrinsics.
  - apply wf_scaled; [|done]. unfold tensor_wf in vc_wf_h0.
    rewrite length_tabulate, vc_wf_h0, vc_shape_h0. cbn. lia.
  - apply wf_scaled; [|done]. unfold tensor_wf in vc_wf_w0.
    rewrite length_tabulate, vc_wf_w0, vc_shape_w0. cbn. lia.
Qed.

(** X18.  In exact arithmetic, on a valid camera whose four tensors are
    pairwise distinct, scaling in place by a number [a] and then by a
    number [q] leaves the very state that scaling in place by [a * q]
    leaves, and scaling in place by 1 leaves the state as it was. *)
Theorem scale_inplace_composes (st : state) (c : ref) (o : camera) (b : nat)
    (ti te th tw : tensor) (a q : Q)
    (Hvalid : valid_camera st c o b ti te th tw)
    (Hdistinct : NoDup (camera_locs o)) :
  (PinholeCamera.scale_ c (FNum a) ;; PinholeCamera.scale_ c (FNum q)) st
  = PinholeCamera.scale_ c (FNum (a * q)) st
  /\ PinholeCamera.scale_ c (FNum 1) st = (Ok c, st).
Proof.
  destruct (NoDup_camera_locs _ Hdistinct) as (Hie & Hih & Hiw & Heh & Hew & Hhw).
  pose proof (scale__number_valid _ _ _ _ _ _ _ _ a Hvalid Hdistinct) as Hv1.
  cbn zeta in Hv1.
  assert (Hlh : length (data th) = b).
  { destruct Hvalid. unfold tensor_wf in vc_wf_h0.
    rewrite vc_wf_h0, vc_shape_h0. cbn. lia. }
  assert (Hlw : length (data tw) = b).
  { destruct Hvalid. unfold tensor_wf in vc_wf_w0.
    rewrite vc_wf_w0, vc_shape_w0. cbn. lia. }
  assert (Hli : length (data ti) = numel (lead (shape ti)) * 16).
  { destruct Hvalid. unfold tensor_wf in vc_wf_i0.
    by rewrite vc_wf_i0, (params_numel _ _ vc_shape_i0). }
  split.
  - rewrite (bind_ok _ _ _ _ _
               (scale__number_run _ _ _ _ _ _ _ _ a Hvalid Hdistinct)).
    rewrite (scale__number_run _ _ _ _ _ _ _ _ q Hv1 Hdistinct).
    rewrite (scale__number_run _ _ _ _ _ _ _ _ (a * q)%Q Hvalid Hdistinct).
    cbn [tensors objects]. rewrite shape_scale_intrinsics.
    rewrite !scaled_twice, scale_intrinsics_twice by done.
    do 2 f_equal.
    rewrite (list_insert_insert_ne _ (_intrinsics o) (width o)) by done.
    rewrite (list_insert_insert_ne _ (_intrinsics o) (height o)) by done.
    rewrite (list_insert_insert_eq _ (_intrinsics o)).
    rewrite (list_insert_insert_ne _ (height o) (width o)) by done.
    rewrite (list_insert_insert_eq _ (height o)).
    rewrite (list_insert_insert_eq _ (width o)).
    reflexivity.
  - rewrite (scale__number_run _ _ _ _ _ _ _ _ 1%Q Hvalid Hdistinct).
    rewrite !scaled_one, scale_intrinsics_one by done.
    destruct Hvalid.
    rewrite (list_insert_id _ (_intrinsics o)) by done.
    rewrite (list_insert_id _ (height o)) by done.
    rewrite (list_insert_id _ (width o)) by done.
    by destruct st.
Qed.

Lemma cam1_distinct : NoDup (camera_locs cam1).
Proof.
  unfold camera_locs, cam1. cbn.
  repeat (apply NoDup_cons; split;
          [rewrite ?not_elem_of_cons, ?elem_of_nil; repeat split; try lia; tauto|]).
  apply NoDup_nil. done.
Qed.

Lemma scale_inplace_composes_witness :
  (PinholeCamera.scale_ 0 (FNum 2) ;; PinholeCamera.scale_ 0 (FNum 3)) st1
  = PinholeCamera.scale_ 0 (FNum (2 * 3)) st1
  /\ PinholeCamera.scale_ 0 (FNum 1) st1 = (Ok 0, st1).
Proof.
  exact (scale_inplace_composes st1 0 cam1 1 K1 E1 H1 W1 2 3
           st1_valid cam1_distinct).
Defined.
